(** * A shallow embedding of the video compressor SDK

    The development follows the Python sources:

    - [exceptions.py]  : the exception classes ([exc_class], [PyExc]);
    - [progress.py]    : [FFmpegProgressParser.parse_progress] with its
                         regular expression, and [ProgressTracker];
    - [presets.py]     : [CompressionPreset], the global [PRESETS] table;
    - [utils.py]       : file validation and [VideoInfo];
    - [compressor.py]  : [VideoCompressor.compress], [_build_command],
                         [_run_ffmpeg];
    - [batch.py]       : [BatchCompressor] and [BatchProgress].

    Conventions of the embedding.

    - A Python [int] is a [Z].  A Python [float] is an exact rational [Q]:
      rounding, infinities and NaN are outside the model.  What is kept of
      the binary64 format is what decides control flow: float division by
      zero raises [ZeroDivisionError], and the implicit conversion of an
      [int] that is out of the binary64 range raises [OverflowError].  The
      floor division and the remainder of [format_time] depend on the
      rounding itself: there it is a parameter [rnd].
    - A raised exception is a value of [result]; stateful code is a function
      from the world to a [result] and the world after the call (the effects
      done before a [raise] persist, as in Python).
    - [time.time()], the file system, [ffprobe] and [ffmpeg] are the
      environment: clock readings are arguments, the external programs are
      oracles collected in [Env]. *)

From Stdlib Require Import QArith Qminmax Qround Lqa Ascii String.
From stdpp Require Import gmap strings list pretty sorting functions.

Set Warnings "-clear-no-such-hyp".
Open Scope Z_scope.

(** ** Exceptions ([exceptions.py] and the builtins that the code meets) *)

Inductive exc_class :=
| FFmpegNotFoundError
| InvalidCodecError
| InvalidPresetError
| CompressionFailedError
| InvalidInputFileError
| AlphaChannelNotSupportedError
| InvalidOutputPathError
| ValueError
| IndexError
| OverflowError
| ZeroDivisionError
| OSError
| TypeError
| AttributeError.

#[global] Instance exc_class_eq_dec : EqDecision exc_class.
Proof. solve_decision. Defined.

(** An exception object: its class and [str(e)]. *)
Record PyExc := mkExc { exc_cls : exc_class; exc_str : string }.

#[global] Instance PyExc_eq_dec : EqDecision PyExc.
Proof. solve_decision. Defined.

(** [isinstance(e, cls)] for the classes above; none of them derives from
    another one of the list. *)
Definition isinstance (e : PyExc) (c : exc_class) : bool :=
  bool_decide (exc_cls e = c).

(** [AlphaChannelNotSupportedError.__init__(codec)]. *)
Definition AlphaChannelNotSupported (codec : string) : PyExc :=
  let message := "Alpha channel is only supported with VP9 codec" in
  let message :=
    if bool_decide (codec = "") then message
    else message +:+ ", but '" +:+ codec +:+ "' was specified" in
  mkExc AlphaChannelNotSupportedError message.

(** ** Results of pure code that may raise *)

Inductive result (A : Type) :=
| Return (a : A)
| Raise (e : PyExc).
Arguments Return {A} a.
Arguments Raise {A} e.

#[global] Instance result_ret : MRet result := @Return.
#[global] Instance result_bind : MBind result := fun A B f m =>
  match m with
  | Return a => f a
  | Raise e => Raise e
  end.

#[global] Instance result_fmap : FMap result := fun A B f m =>
  match m with
  | Return a => Return (f a)
  | Raise e => Raise e
  end.

Definition raises {A} (m : result A) (c : exc_class) : Prop :=
  match m with
  | Return _ => False
  | Raise e => exc_cls e = c
  end.

Definition returns {A} (m : result A) : Prop :=
  match m with
  | Return _ => True
  | Raise _ => False
  end.

(** [try: m  except (c1, c2, ...): handler]. *)
Definition try_except {A} (m : result A) (classes : list exc_class)
    (handler : PyExc -> result A) : result A :=
  match m with
  | Return a => Return a
  | Raise e => if existsb (isinstance e) classes then handler e else Raise e
  end.

(** ** Numbers *)

(** [x < y], [x > y] and [x >= y] on floats. *)
Definition Qltb (x y : Q) : bool := negb (Qle_bool y x).
Definition Qgtb (x y : Q) : bool := Qltb y x.
Definition Qgeb (x y : Q) : bool := Qle_bool y x.

(** The builtin [min(a, b)] on two floats: [b] when [b < a], else [a]. *)
Definition py_min (a b : Q) : Q := if Qltb b a then b else a.

(** [a / b] on floats. *)
Definition float_div (a b : Q) : result Q :=
  if Qeq_bool b 0 then Raise (mkExc ZeroDivisionError "float division by zero")
  else Return (a / b)%Q.

(** The conversion of an [int] operand in mixed arithmetic.  CPython rounds
    to the nearest binary64, ties to even, and raises when the result is not
    finite, that is from [2^1024 - 2^970] on. *)
Definition float_max_int : Z := 2 ^ 1024 - 2 ^ 970.

Definition float_of_int (n : Z) : result Q :=
  if Z.abs n <? float_max_int then Return (inject_Z n)
  else Raise (mkExc OverflowError "int too large to convert to float").

(** [sys.int_info.default_max_str_digits]: [int(s)] refuses longer digit
    strings. *)
Definition int_max_str_digits : nat := 4300.

(** ** Characters and text

    A text is a string of code points below 256. *)

Definition code (c : ascii) : N := Ascii.N_of_ascii c.

(** [\d] *)
Definition is_digit (c : ascii) : bool :=
  ((48 <=? code c) && (code c <=? 57))%N.

(** [\s]: what [str.isspace] accepts below 256. *)
Definition is_space (c : ascii) : bool :=
  (((9 <=? code c) && (code c <=? 13)) || ((28 <=? code c) && (code c <=? 32))
   || (code c =? 133) || (code c =? 160))%N.

(** [[\d.]] *)
Definition is_digit_or_dot (c : ascii) : bool :=
  is_digit c || (code c =? 46)%N.

(** [.] (without DOTALL): anything but a line feed. *)
Definition is_any (c : ascii) : bool := negb (code c =? 10)%N.

Definition digit_value (c : ascii) : Z := Z.of_N (code c) - 48.

(** The value of a string of decimal digits, most significant first. *)
Definition digits_value (s : list ascii) : Z :=
  fold_left (fun acc c => 10 * acc + digit_value c) s 0.

(** The longest prefix of [s] inside a class, and what follows it. *)
Fixpoint take_while (cls : ascii -> bool) (s : list ascii) : list ascii :=
  match s with
  | c :: s' => if cls c then c :: take_while cls s' else []
  | [] => []
  end.

Fixpoint drop_while (cls : ascii -> bool) (s : list ascii) : list ascii :=
  match s with
  | c :: s' => if cls c then drop_while cls s' else s
  | [] => []
  end.

(** [int(s)] *)
Definition py_int (s : list ascii) : result Z :=
  if negb (forallb is_digit s) || bool_decide (s = []) then
    Raise (mkExc ValueError "invalid literal for int() with base 10")
  else if (int_max_str_digits <? length s)%nat then
    Raise (mkExc ValueError "Exceeds the limit (4300 digits) for integer string conversion")
  else Return (digits_value s).

(** [float(s)] on a text of digits and dots: an integer part, then at most
    one dot and a fraction, with a digit somewhere. *)
Definition py_float (s : list ascii) : result Q :=
  let int_part := take_while is_digit s in
  let rest := drop_while is_digit s in
  let bad := Raise (mkExc ValueError "could not convert string to float") in
  match rest with
  | [] =>
      if bool_decide (int_part = []) then bad
      else Return (inject_Z (digits_value int_part))
  | c :: frac =>
      if negb (code c =? 46)%N || negb (forallb is_digit frac)
         || (bool_decide (int_part = []) && bool_decide (frac = []))
      then bad
      else Return (inject_Z (digits_value (int_part ++ frac))
                   / inject_Z (10 ^ Z.of_nat (length frac)))%Q
  end.

(** ** The regular expressions of [progress.py]

    [PROGRESS_PATTERN] is a sequence of literals and of repeated character
    classes, some of them capturing.  [match_here] is the backtracking
    matcher of [re] on such sequences: a greedy repetition tries the longest
    run first, a lazy one the shortest. *)

Inductive item :=
| Lit (s : string)
| Rep (cls : ascii -> bool) (min : nat) (greedy capture : bool).

Definition first_some {A B} (f : A -> option B) : list A -> option B :=
  fix go l :=
    match l with
    | [] => None
    | a :: l' => match f a with Some b => Some b | None => go l' end
    end.

(** The length of the longest prefix of [s] inside the class. *)
Definition span (cls : ascii -> bool) (s : list ascii) : nat :=
  length (take_while cls s).

Definition starts_with (l s : list ascii) : bool :=
  bool_decide (take (length l) s = l).

Fixpoint match_here (p : list item) (s : list ascii)
    : option (list (list ascii)) :=
  match p with
  | [] => Some []
  | Lit l :: p' =>
      let l := String.list_ascii_of_string l in
      if starts_with l s then match_here p' (drop (length l) s) else None
  | Rep cls min greedy capture :: p' =>
      let counts := seq min (S (span cls s) - min) in
      first_some
        (fun k =>
           match match_here p' (drop k s) with
           | Some groups => Some (if capture then take k s :: groups else groups)
           | None => None
           end)
        (if greedy then reverse counts else counts)
  end.

(** [pattern.search(line)]: the match at the leftmost position that has
    one; the result is the list of groups 1, 2, ... *)
Definition re_search (p : list item) (line : string)
    : option (list (list ascii)) :=
  let s := String.list_ascii_of_string line in
  first_some (fun i => match_here p (drop i s)) (seq 0 (S (length s))).

(** [frame=\s*(\d+)\s+fps=\s*([\d.]+).*?time=(\d+):(\d+):([\d.]+).*?speed=\s*([\d.]+)x] *)
Definition PROGRESS_PATTERN : list item :=
  [ Lit "frame="; Rep is_space 0 true false; Rep is_digit 1 true true;
    Rep is_space 1 true false;
    Lit "fps="; Rep is_space 0 true false; Rep is_digit_or_dot 1 true true;
    Rep is_any 0 false false;
    Lit "time="; Rep is_digit 1 true true; Lit ":"; Rep is_digit 1 true true;
    Lit ":"; Rep is_digit_or_dot 1 true true;
    Rep is_any 0 false false;
    Lit "speed="; Rep is_space 0 true false; Rep is_digit_or_dot 1 true true;
    Lit "x" ].

(** ** [FFmpegProgressParser] *)

(** The dictionary that [parse_progress] returns. *)
Record ProgressSample := mkSample {
  sample_frame : Z;
  sample_fps : Q;
  sample_current_time : Q;
  sample_speed : Q
}.

(** [match.group(i)] *)
Definition group (m : list (list ascii)) (i : nat) : result (list ascii) :=
  match i with
  | O => Raise (mkExc IndexError "no such group")
  | S j =>
      match m !! j with
      | Some g => Return g
      | None => Raise (mkExc IndexError "no such group")
      end
  end.

Definition parse_progress (line : string) : result (option ProgressSample) :=
  match re_search PROGRESS_PATTERN line with
  | None => Return None
  | Some m =>
      try_except
        (frame ← group m 1 ≫= py_int;
         fps ← group m 2 ≫= py_float;
         hours ← group m 3 ≫= py_int;
         minutes ← group m 4 ≫= py_int;
         seconds ← group m 5 ≫= py_float;
         speed ← group m 6 ≫= py_float;
         whole ← float_of_int (hours * 3600 + minutes * 60);
         let current_time := (whole + seconds)%Q in
         Return (Some (mkSample frame fps current_time speed)))
        [ValueError; IndexError]
        (fun _ => Return None)
  end.

(** ** [ProgressTracker]

    The callback is the caller's sink: a call of the callback hands it one
    [ProgressEvent].  The tracker keeps [callback] as the fact that a sink
    was given ([if self.callback:]); the events of a call are returned with
    the tracker after the call. *)

Record ProgressEvent := mkEvent {
  ev_filename : string;
  ev_percentage : Q;
  ev_current_time : Q;
  ev_total_time : Q;
  ev_eta : option Q
}.

Record ProgressTracker := mkTracker {
  total_duration : Q;
  filename : string;
  callback : bool;
  start_time : Q;
  last_update_time : Q;
  update_interval : Q
}.

(** [ProgressTracker.__init__]; [now] is the reading of [time.time()]. *)
Definition ProgressTracker_init (total_duration : Q) (filename : string)
    (callback : bool) (now : Q) : ProgressTracker :=
  mkTracker total_duration filename callback now 0 (1 # 2).

Definition set_last_update_time (self : ProgressTracker) (t : Q)
    : ProgressTracker :=
  mkTracker (total_duration self) (filename self) (callback self)
            (start_time self) t (update_interval self).

(** The outcome of a method of the tracker: what it returned or raised, the
    tracker afterwards, and the events handed to the sink. *)
Record TrackerStep := mkStep {
  step_result : result unit;
  step_tracker : ProgressTracker;
  step_events : list ProgressEvent
}.

(** The throttle test of [update]: the sample is dropped when it holds. *)
Definition throttled (self : ProgressTracker) (now : Q) : bool :=
  Qltb (now - last_update_time self) (update_interval self).

(** [ProgressTracker.update]; [now] is the reading of [time.time()]. *)
Definition update (self : ProgressTracker) (now current_time speed : Q)
    : TrackerStep :=
  if throttled self now then mkStep (Return ()) self []
  else
    let self := set_last_update_time self now in
    match float_div current_time (total_duration self) with
    | Raise e => mkStep (Raise e) self []
    | Return ratio =>
        let percentage := py_min (ratio * 100) 100 in
        let eta :=
          if Qgtb speed 0 && Qgtb current_time 0 then
            let remaining_duration := (total_duration self - current_time)%Q in
            Some <$> float_div remaining_duration speed
          else Return None in
        match eta with
        | Raise e => mkStep (Raise e) self []
        | Return eta =>
            if callback self then
              mkStep (Return ()) self
                [mkEvent (filename self) percentage current_time
                         (total_duration self) eta]
            else mkStep (Return ()) self []
        end
    end.

(** [ProgressTracker.complete] *)
Definition complete (self : ProgressTracker) : TrackerStep :=
  if callback self then
    mkStep (Return ()) self
      [mkEvent (filename self) 100 (total_duration self)
               (total_duration self) (Some 0%Q)]
  else mkStep (Return ()) self [].

(** A sequence of [update] calls on one tracker, each with the clock
    reading of the call; a caller may go on after a call that raised.  The
    events come with the clock reading of the call that emitted them. *)
Record UpdateCall := mkCall {
  call_now : Q;
  call_current_time : Q;
  call_speed : Q
}.

Fixpoint run_updates (self : ProgressTracker) (calls : list UpdateCall)
    : ProgressTracker * list (Q * ProgressEvent) :=
  match calls with
  | [] => (self, [])
  | c :: calls' =>
      let st := update self (call_now c) (call_current_time c) (call_speed c) in
      let '(self', later) := run_updates (step_tracker st) calls' in
      (self', map (pair (call_now c)) (step_events st) ++ later)
  end.

(** ** [BatchProgress] *)

Record BatchProgress := mkBatchProgress {
  total_files : Z;
  completed_files : Z;
  file_progress : gmap string Q
}.

Definition BatchProgress_init (total_files : Z) : BatchProgress :=
  mkBatchProgress total_files 0 ∅.

Definition update_file_progress (self : BatchProgress) (filename : string)
    (percentage : Q) : BatchProgress :=
  let old_percentage := default 0%Q (file_progress self !! filename) in
  let file_progress := <[filename := percentage]> (file_progress self) in
  if Qltb old_percentage 100 && Qgeb percentage 100 then
    mkBatchProgress (total_files self) (completed_files self + 1) file_progress
  else
    mkBatchProgress (total_files self) (completed_files self) file_progress.

(** [overall_percentage] *)
Definition overall_percentage (self : BatchProgress) : result Q :=
  if bool_decide (file_progress self = ∅) then Return 0%Q
  else
    let total_progress :=
      map_fold (fun _ p acc => (acc + p)%Q) 0%Q (file_progress self) in
    float_div total_progress (inject_Z (total_files self)).

(** A sequence of [update_file_progress] calls. *)
Definition run_file_progress (self : BatchProgress)
    (calls : list (string * Q)) : BatchProgress :=
  fold_left (fun bp c => update_file_progress bp c.1 c.2) calls self.

(** ** [presets.py] *)

Record CompressionPreset := mkPreset {
  name : string;
  codec : string;
  video_bitrate : string;
  audio_bitrate : string;
  crf : Z;
  speed : Z;
  format : string;
  two_pass : bool;
  max_resolution : option (Z * Z);
  audio_codec : string
}.

(** [CompressionPreset.__post_init__] *)
Definition post_init (self : CompressionPreset) : result () :=
  if negb (bool_decide (codec self = "vp8") || bool_decide (codec self = "vp9"))
  then Raise (mkExc InvalidCodecError
                ("Invalid codec: " +:+ codec self +:+ ". Must be 'vp8' or 'vp9'"))
  else if negb ((0 <=? crf self) && (crf self <=? 63))
  then Raise (mkExc ValueError
                ("CRF must be between 0-63, got " +:+ pretty (crf self)))
  else if bool_decide (codec self = "vp9")
          && negb ((0 <=? speed self) && (speed self <=? 5))
  then Raise (mkExc ValueError
                ("VP9 speed must be between 0-5, got " +:+ pretty (speed self)))
  else if bool_decide (codec self = "vp8")
          && negb ((0 <=? speed self) && (speed self <=? 16))
  then Raise (mkExc ValueError
                ("VP8 speed must be between 0-16, got " +:+ pretty (speed self)))
  else if negb (bool_decide (format self = "webm"))
  then Raise (mkExc ValueError
                ("Only 'webm' format is supported, got " +:+ format self))
  else Return ().

Definition set_codec (self : CompressionPreset) (c : string)
    : CompressionPreset :=
  mkPreset (name self) c (video_bitrate self) (audio_bitrate self) (crf self)
           (speed self) (format self) (two_pass self) (max_resolution self)
           (audio_codec self).

(** The built-in presets. *)
Definition preset_web : CompressionPreset :=
  mkPreset "Web Optimized" "vp9" "1M" "128k" 31 4 "webm" false
           (Some (1920, 1080)) "libopus".
Definition preset_web_small : CompressionPreset :=
  mkPreset "Web Small" "vp9" "500k" "96k" 35 4 "webm" false
           (Some (1280, 720)) "libopus".
Definition preset_archive : CompressionPreset :=
  mkPreset "Archive Quality" "vp9" "3M" "192k" 20 1 "webm" true
           None "libopus".
Definition preset_high_quality : CompressionPreset :=
  mkPreset "High Quality" "vp9" "5M" "256k" 15 2 "webm" true
           None "libopus".
Definition preset_vp8_legacy : CompressionPreset :=
  mkPreset "VP8 Legacy Compatible" "vp8" "1M" "128k" 10 3 "webm" false
           (Some (1920, 1080)) "libopus".
Definition preset_alpha_web : CompressionPreset :=
  mkPreset "Web with Alpha Channel" "vp9" "1.5M" "128k" 28 3 "webm" false
           (Some (1920, 1080)) "libopus".

(** ** The world

    Preset objects are mutable and shared: a table holds references into
    the [heap] of preset objects, and [get_preset] hands out the reference
    itself. *)

Record Node := mkNode {
  is_file : bool;       (* os.path.isfile *)
  readable : bool;      (* os.access(path, os.R_OK) *)
  writable : bool;      (* os.access(path, os.W_OK) *)
  getsize : N;          (* os.path.getsize, in bytes *)
  unlinkable : bool     (* os.remove succeeds on it *)
}.

Record World := mkWorld {
  fs : gmap string Node;               (* the files and directories *)
  heap : nat -> CompressionPreset;     (* the preset objects *)
  PRESETS : gmap string nat;           (* presets.PRESETS *)
  spawned : list (list string);        (* the external processes started *)
  ticks : nat;                         (* readings of time.time() so far *)
  sink : list ProgressEvent            (* what the progress callback got *)
}.

Definition set_fs (w : World) (f : gmap string Node) : World :=
  mkWorld f (heap w) (PRESETS w) (spawned w) (ticks w) (sink w).
Definition set_heap (w : World) (h : nat -> CompressionPreset) : World :=
  mkWorld (fs w) h (PRESETS w) (spawned w) (ticks w) (sink w).
Definition set_spawned (w : World) (l : list (list string)) : World :=
  mkWorld (fs w) (heap w) (PRESETS w) l (ticks w) (sink w).
Definition set_ticks (w : World) (n : nat) : World :=
  mkWorld (fs w) (heap w) (PRESETS w) (spawned w) n (sink w).
Definition set_sink (w : World) (l : list ProgressEvent) : World :=
  mkWorld (fs w) (heap w) (PRESETS w) (spawned w) (ticks w) l.

(** The module [presets] as loaded: six objects and the table. *)
Definition builtin_heap (l : nat) : CompressionPreset :=
  match l with
  | 0%nat => preset_web
  | 1%nat => preset_web_small
  | 2%nat => preset_archive
  | 3%nat => preset_high_quality
  | 4%nat => preset_vp8_legacy
  | _ => preset_alpha_web
  end.

Definition builtin_PRESETS : gmap string nat :=
  list_to_map [("web", 0%nat); ("web-small", 1%nat); ("archive", 2%nat);
               ("high-quality", 3%nat); ("vp8-legacy", 4%nat);
               ("alpha-web", 5%nat)].

Definition initial_world (files : gmap string Node) : World :=
  mkWorld files builtin_heap builtin_PRESETS [] 0 [].

(** Stateful code: the result and the world after the call. *)
Definition M (A : Type) : Type := World -> result A * World.

#[global] Instance M_ret : MRet M := fun A a w => (Return a, w).
#[global] Instance M_bind : MBind M := fun A B f m w =>
  match m w with
  | (Return a, w') => f a w'
  | (Raise e, w') => (Raise e, w')
  end.

Definition raise {A} (e : PyExc) : M A := fun w => (Raise e, w).
Definition lift {A} (r : result A) : M A := fun w => (r, w).
Definition get_world : M World := fun w => (Return w, w).
Definition modify (f : World -> World) : M () := fun w => (Return (), f w).
Definition pass : M () := fun w => (Return (), w).

(** [try: m  except Exception as e: handler e] *)
Definition try_catch {A} (m : M A) (handler : PyExc -> M A) : M A := fun w =>
  match m w with
  | (Return a, w') => (Return a, w')
  | (Raise e, w') => handler e w'
  end.

(** [presets.get_preset] *)
Definition get_preset (name : string) : M nat :=
  w ← get_world;
  match PRESETS w !! name with
  | Some l => mret l
  | None => raise (mkExc InvalidPresetError ("Unknown preset '" +:+ name +:+ "'"))
  end.

(** ** The environment: clock, path algebra and external programs *)

(** What [ffprobe] printed, after [json.loads] and the numeric conversions
    of [VideoInfo.from_file]; an absent key is [None]. *)
Record ProbeData := mkProbeData {
  format_duration : option Q;
  format_bit_rate : option Z;
  stream_width : option Z;
  stream_height : option Z;
  stream_codec_name : option string;
  stream_pix_fmt : option string;
  stream_r_frame_rate : option (Z * Z)
}.

(** One run of the probe under the [try] of [VideoInfo.from_file].  Its
    [except] clauses catch [CalledProcessError] and [JSONDecodeError],
    [KeyError], [ValueError]; whatever else is raised there leaves
    [from_file] as it is: [OSError] when [ffprobe] cannot be started,
    [TypeError] or [AttributeError] when a value of the output has another
    type than the code expects ([int(None)], [.get] on a list),
    [OverflowError] for a number that [int()] cannot take. *)
Inductive ProbeOutcome :=
| ProbeExit                 (* non-zero exit status: CalledProcessError *)
| ProbeUnparsable           (* JSONDecodeError, KeyError or ValueError *)
| ProbeNoVideo              (* no stream with codec_type 'video' *)
| ProbeUncaught (e : PyExc) (* an exception that no clause catches *)
| Probed (data : ProbeData).

(** One run of the encoder: the spawn may fail; otherwise the lines of its
    diagnostic stream, its exit status and the files as it leaves them. *)
Inductive FFmpegRun :=
| SpawnError
| Ran (stderr_lines : list string) (return_code : Z)
      (files_after : gmap string Node).

Record Env := mkEnv {
  clock : nat -> Q;                        (* the n-th reading of time.time() *)
  which : string -> option string;         (* shutil.which *)
  path_output_dir : string -> string;      (* os.path.dirname(os.path.abspath(p)) *)
  path_basename : string -> string;        (* os.path.basename *)
  path_splitext : string -> string * string; (* os.path.splitext *)
  path_join : string -> string -> string;  (* os.path.join *)
  makedirs_ok : string -> bool;            (* os.makedirs(d, exist_ok=True) succeeds *)
  ffprobe : list string -> gmap string Node -> ProbeOutcome;
  ffmpeg : list string -> gmap string Node -> FFmpegRun
}.

(** ** [utils.py] *)

Definition path_exists (path : string) : M bool :=
  w ← get_world; mret (bool_decide (is_Some (fs w !! path))).
Definition path_isfile (path : string) : M bool :=
  w ← get_world; mret (from_option is_file false (fs w !! path)).
Definition access_R_OK (path : string) : M bool :=
  w ← get_world; mret (from_option readable false (fs w !! path)).
Definition access_W_OK (path : string) : M bool :=
  w ← get_world; mret (from_option writable false (fs w !! path)).

(** [os.remove] *)
Definition os_remove (path : string) : M () := fun w =>
  if from_option unlinkable false (fs w !! path)
  then (Return (), set_fs w (delete path (fs w)))
  else (Raise (mkExc OSError ("cannot remove " +:+ path)), w).

(** [os.makedirs(d, exist_ok=True)]; the new directory is the caller's. *)
Definition os_makedirs (E : Env) (d : string) : M () := fun w =>
  if makedirs_ok E d
  then (Return (), set_fs w (<[d := mkNode false true true 0 true]> (fs w)))
  else (Raise (mkExc OSError ("cannot create " +:+ d)), w).

Definition find_ffmpeg (E : Env) : result string :=
  match which E "ffmpeg" with
  | Some p => Return p
  | None => Raise (mkExc FFmpegNotFoundError "FFmpeg not found")
  end.

Definition find_ffprobe (E : Env) : result string :=
  match which E "ffprobe" with
  | Some p => Return p
  | None => Raise (mkExc FFmpegNotFoundError "FFprobe not found")
  end.

Definition validate_input_file (path : string) : M () :=
  e ← path_exists path;
  if negb e then
    raise (mkExc InvalidInputFileError ("Input file not found: " +:+ path))
  else
    f ← path_isfile path;
    if negb f then
      raise (mkExc InvalidInputFileError ("Input path is not a file: " +:+ path))
    else
      r ← access_R_OK path;
      if negb r then
        raise (mkExc InvalidInputFileError
                 ("Input file is not readable: " +:+ path))
      else pass.

Definition validate_output_path (E : Env) (path : string) : M () :=
  let output_dir := path_output_dir E path in
  e ← path_exists output_dir;
  (if negb e then
     try_catch (os_makedirs E output_dir)
       (fun e => raise (mkExc InvalidOutputPathError
          ("Cannot create output directory: " +:+ output_dir +:+ ". Error: "
           +:+ exc_str e)))
   else pass);;
  e ← path_exists path;
  wr ← access_W_OK path;
  if e && negb wr then
    raise (mkExc InvalidOutputPathError
             ("Output file is not writable: " +:+ path))
  else
    dw ← access_W_OK output_dir;
    if negb dw then
      raise (mkExc InvalidOutputPathError
               ("Output directory is not writable: " +:+ output_dir))
    else pass.

Record VideoInfo := mkVideoInfo {
  duration : Q;
  width : Z;
  height : Z;
  source_codec : string;     (* the attribute [codec] *)
  has_alpha : bool;
  bitrate : option Z;
  video_fps : option Q       (* the attribute [fps] *)
}.

(** [needle in hay] on texts. *)
Fixpoint contains_at (needle hay : list ascii) : bool :=
  starts_with needle hay
  || match hay with
     | [] => false
     | _ :: hay' => contains_at needle hay'
     end.

Definition contains (needle hay : string) : bool :=
  contains_at (String.list_ascii_of_string needle)
              (String.list_ascii_of_string hay).

(** The extraction of the metadata in [VideoInfo.from_file], with the
    defaults of its [.get] calls. *)
Definition video_info_of (data : ProbeData) : VideoInfo :=
  let duration := default 0%Q (format_duration data) in
  let width := default 0 (stream_width data) in
  let height := default 0 (stream_height data) in
  let codec := default "unknown" (stream_codec_name data) in
  let bitrate := default 0 (format_bit_rate data) in
  let pix_fmt := default "" (stream_pix_fmt data) in
  let has_alpha :=
    contains "yuva" pix_fmt || contains "rgba" pix_fmt
    || contains "gbra" pix_fmt in
  let '(num, denom) := default (0, 1) (stream_r_frame_rate data) in
  let fps :=
    if negb (denom =? 0) then Some (inject_Z num / inject_Z denom)%Q
    else None in
  mkVideoInfo duration width height codec has_alpha (Some bitrate) fps.

(** [subprocess]: starting a process is recorded in the world. *)
Definition spawn (cmd : list string) : M () :=
  modify (fun w => set_spawned w (spawned w ++ [cmd])).

(** [VideoInfo.from_file] *)
Definition from_file (E : Env) (path : string) : M VideoInfo :=
  validate_input_file path;;
  ffprobe_path ← lift (find_ffprobe E);
  let cmd := [ffprobe_path; "-v"; "quiet"; "-print_format"; "json";
              "-show_streams"; "-show_format"; path] in
  spawn cmd;;
  w ← get_world;
  match ffprobe E cmd (fs w) with
  | ProbeExit =>
      raise (mkExc InvalidInputFileError
               ("Failed to read video metadata from " +:+ path))
  | ProbeUnparsable =>
      raise (mkExc InvalidInputFileError
               ("Failed to parse video metadata from " +:+ path))
  | ProbeNoVideo =>
      raise (mkExc InvalidInputFileError
               ("No video stream found in: " +:+ path))
  | ProbeUncaught e => raise e
  | Probed data => mret (video_info_of data)
  end.

(** [get_file_size_mb] *)
Definition get_file_size_mb (path : string) : M Q :=
  w ← get_world;
  match fs w !! path with
  | None => mret 0%Q
  | Some n => mret (inject_Z (Z.of_N (getsize n)) / inject_Z (1024 * 1024))%Q
  end.

(** ** [compressor.py] *)

Record CompressionResult := mkResult {
  success : bool;
  input_path : string;
  output_path : string;
  input_size_mb : Q;
  output_size_mb : Q;
  compression_ratio : Q;
  result_duration : Q;        (* the attribute [duration] *)
  error : option string
}.

(** A result built with the defaults of the dataclass, as the failure
    handlers of [batch.py] do. *)
Definition failed_result (input_path output_path : string) (e : PyExc)
    : CompressionResult :=
  mkResult false input_path output_path 0 0 0 0 (Some (exc_str e)).

Record VideoCompressor := mkCompressor {
  ffmpeg_path : string;
  custom_presets : gmap string nat
}.

(** [VideoCompressor.__init__] *)
Definition VideoCompressor_init (E : Env) (ffmpeg_path : option string)
    : result VideoCompressor :=
  p ← match ffmpeg_path with
      | Some p => if bool_decide (p = "") then find_ffmpeg E else Return p
      | None => find_ffmpeg E
      end;
  Return (mkCompressor p ∅).

(** [VideoCompressor.add_preset]; [preset] is a reference to the object. *)
Definition add_preset (self : VideoCompressor) (name : string) (preset : nat)
    : VideoCompressor :=
  mkCompressor (ffmpeg_path self) (<[name := preset]> (custom_presets self)).

(** [VideoCompressor.get_preset] *)
Definition compressor_get_preset (self : VideoCompressor) (name : string)
    : M nat :=
  match custom_presets self !! name with
  | Some l => mret l
  | None => get_preset name
  end.

(** The keyword arguments that [_build_command] looks up; a key that is
    not passed is [None]. *)
Record CustomOptions := mkOptions {
  opt_video_bitrate : option string;
  opt_crf : option Z;
  opt_speed : option Z;
  opt_max_resolution : option (option (Z * Z));
  opt_audio_bitrate : option string
}.

Definition no_options : CustomOptions := mkOptions None None None None None.

(** [VideoCompressor._build_command] *)
Definition _build_command (self : VideoCompressor)
    (input_path output_path : string) (preset : CompressionPreset)
    (preserve_alpha : bool) (video_info : VideoInfo)
    (custom_options : CustomOptions) : list string :=
  let cmd := [ffmpeg_path self; "-i"; input_path] in
  let cmd :=
    if bool_decide (codec preset = "vp9") then cmd ++ ["-c:v"; "libvpx-vp9"]
    else cmd ++ ["-c:v"; "libvpx"] in
  let cmd :=
    if preserve_alpha then
      cmd ++ ["-pix_fmt"; "yuva420p"; "-auto-alt-ref"; "0";
              "-metadata:s:v:0"; "alpha_mode=1"]
    else cmd in
  let cmd :=
    cmd ++ ["-b:v"; default (video_bitrate preset) (opt_video_bitrate custom_options);
            "-crf"; pretty (default (crf preset) (opt_crf custom_options))] in
  let cmd :=
    if bool_decide (codec preset = "vp9") then
      cmd ++ ["-speed"; pretty (default (speed preset) (opt_speed custom_options))]
    else
      cmd ++ ["-cpu-used"; pretty (default (speed preset) (opt_speed custom_options))] in
  let max_res :=
    default (max_resolution preset) (opt_max_resolution custom_options) in
  let cmd :=
    match max_res with
    | Some (max_width, max_height) =>
        if (max_width <? width video_info) || (max_height <? height video_info)
        then
          cmd ++ ["-vf"; "scale=min(" +:+ pretty max_width +:+ "\,iw):min("
                         +:+ pretty max_height
                         +:+ "\,ih):force_original_aspect_ratio=decrease"]
        else cmd
    | None => cmd
    end in
  let cmd :=
    if bool_decide (codec preset = "vp9") then cmd ++ ["-row-mt"; "1"]
    else cmd in
  let cmd :=
    if negb (bool_decide (audio_codec preset = "")) then
      cmd ++ ["-c:a"; audio_codec preset;
              "-b:a"; default (audio_bitrate preset) (opt_audio_bitrate custom_options)]
    else cmd in
  cmd ++ ["-y"; output_path].

(** [time.time()] *)
Definition time_time (E : Env) : M Q := fun w =>
  (Return (clock E (ticks w)), set_ticks w (S (ticks w))).

(** A method of the tracker run in the world: its events go to the sink. *)
Definition run_step (st : TrackerStep) : M ProgressTracker := fun w =>
  let w' := set_sink w (sink w ++ step_events st) in
  match step_result st with
  | Return _ => (Return (step_tracker st), w')
  | Raise e => (Raise e, w')
  end.

(** The body of the reading loop of [_run_ffmpeg], over the lines that the
    process writes before it ends. *)
Fixpoint read_lines (E : Env) (tracker : option ProgressTracker)
    (lines : list string) : M (option ProgressTracker) :=
  match lines with
  | [] => mret tracker
  | line :: lines' =>
      tracker ←
        match tracker with
        | Some t =>
            progress ← lift (parse_progress line);
            match progress with
            | Some p =>
                now ← time_time E;
                t' ← run_step (update t now (sample_current_time p)
                                      (sample_speed p));
                mret (Some t')
            | None => mret (Some t)
            end
        | None => mret None
        end;
      read_lines E tracker lines'
  end.

(** [VideoCompressor._run_ffmpeg] *)
Definition _run_ffmpeg (E : Env) (cmd : list string) (video_info : VideoInfo)
    (filename : string) (progress_callback : bool) : M () :=
  tracker ←
    (if progress_callback then
       now ← time_time E;
       mret (Some (ProgressTracker_init (duration video_info) filename
                                        progress_callback now))
     else mret None);
  spawn cmd;;
  w ← get_world;
  match ffmpeg E cmd (fs w) with
  | SpawnError => raise (mkExc OSError "cannot execute the encoder")
  | Ran stderr_lines return_code files_after =>
      modify (fun w => set_fs w files_after);;
      tracker ← read_lines E tracker stderr_lines;
      match tracker with
      | Some t => run_step (complete t);; pass
      | None => pass
      end;;
      if negb (return_code =? 0) then
        raise (mkExc CompressionFailedError
                 ("FFmpeg failed with return code " +:+ pretty return_code
                  +:+ ". Error: "))
      else pass
  end.

(** [VideoCompressor.compress], in the three parts of its body: the
    statements before the [try], the [try] block and its [except] clause. *)

(** "Validate inputs", "Get preset configuration", "Override codec if
    specified" and "Validate alpha channel request": the result is the
    reference [preset_config]. *)
Definition compress_validate (E : Env) (self : VideoCompressor)
    (input_path output_path : string) (preset : string)
    (codec_arg : option string) (preserve_alpha : bool) : M nat :=
  validate_input_file input_path;;
  validate_output_path E output_path;;
  preset_config ← compressor_get_preset self preset;
  match codec_arg with
  | Some c =>
      if negb (bool_decide (c = "")) then
        if negb (bool_decide (c = "vp8") || bool_decide (c = "vp9")) then
          raise (mkExc InvalidCodecError ("Invalid codec: " +:+ c))
        else
          modify (fun w =>
            set_heap w (<[preset_config := set_codec (heap w preset_config) c]>
                          (heap w)))
      else pass
  | None => pass
  end;;
  w ← get_world;
  (if preserve_alpha
      && negb (bool_decide (codec (heap w preset_config) = "vp9"))
   then raise (AlphaChannelNotSupported (codec (heap w preset_config)))
   else pass);;
  mret preset_config.

(** The [try] block: build the command, run the encoder, measure. *)
Definition compress_try (E : Env) (self : VideoCompressor)
    (input_path output_path : string) (preset_config : nat)
    (preserve_alpha : bool) (progress_callback : bool)
    (custom_options : CustomOptions) (video_info : VideoInfo)
    (input_size : Q) : M CompressionResult :=
  w ← get_world;
  let cmd := _build_command self input_path output_path
               (heap w preset_config) preserve_alpha video_info
               custom_options in
  _run_ffmpeg E cmd video_info (path_basename E input_path)
              progress_callback;;
  output_size ← get_file_size_mb output_path;
  let compression_ratio :=
    if Qgtb output_size 0 then (input_size / output_size)%Q else 0%Q in
  mret (mkResult true input_path output_path input_size output_size
                 compression_ratio (duration video_info) None).

(** The clause [except Exception as e]: "Clean up partial output file",
    then raise. *)
Definition compress_except (output_path : string) (e : PyExc)
    : M CompressionResult :=
  present ← path_exists output_path;
  (if (present : bool) then
     try_catch (os_remove output_path)
       (fun e' => if isinstance e' OSError then pass else raise e')
   else pass);;
  if isinstance e CompressionFailedError then raise e
  else raise (mkExc CompressionFailedError
                ("Compression failed: " +:+ exc_str e)).

Definition compress (E : Env) (self : VideoCompressor)
    (input_path output_path : string) (preset : string)
    (codec_arg : option string) (preserve_alpha : bool)
    (progress_callback : bool) (custom_options : CustomOptions)
    : M CompressionResult :=
  preset_config ← compress_validate E self input_path output_path preset
                                    codec_arg preserve_alpha;
  video_info ← from_file E input_path;
  input_size ← get_file_size_mb input_path;
  try_catch
    (compress_try E self input_path output_path preset_config preserve_alpha
                  progress_callback custom_options video_info input_size)
    (compress_except output_path).

(** ** [batch.py] *)

Record BatchCompressor := mkBatch {
  compressor : VideoCompressor;
  max_workers : Z
}.

(** An entry of [files]: an input path, or an (input, output) tuple. *)
Inductive FileItem :=
| InputOnly (input : string)
| InputOutput (input output : string).

(** [BatchCompressor._build_file_pairs] *)
Fixpoint _build_file_pairs (E : Env) (files : list FileItem)
    (output_dir : option string) : result (list (string * string)) :=
  match files with
  | [] => Return []
  | item :: files' =>
      pair ←
        match item with
        | InputOutput input_path output_path =>
            Return (input_path, output_path)
        | InputOnly input_path =>
            match output_dir with
            | None =>
                Raise (mkExc ValueError
                  "output_dir must be provided when files are input paths only")
            | Some output_dir =>
                let filename := path_basename E input_path in
                let name := (path_splitext E filename).1 in
                Return (input_path, path_join E output_dir (name +:+ ".webm"))
            end
        end;
      file_pairs ← _build_file_pairs E files' output_dir;
      Return (pair :: file_pairs)
  end.

(** [BatchCompressor._compress_single] *)
Definition _compress_single (E : Env) (self : BatchCompressor)
    (input_path output_path : string) (preset : string)
    (codec_arg : option string) (preserve_alpha : bool)
    (progress_callback : bool) (kwargs : CustomOptions)
    : M CompressionResult :=
  try_catch
    (compress E (compressor self) input_path output_path preset codec_arg
              preserve_alpha progress_callback kwargs)
    (fun e => mret (failed_result input_path output_path e)).

(** The collection loop of [compress_batch]: the pool is modelled at the
    grain of whole jobs, which it runs and completes in the order [order]
    (indices into the submitted pairs); [future.result()] gives what the
    job returned, or raises what it raised. *)
Fixpoint collect (E : Env) (self : BatchCompressor)
    (file_pairs : list (string * string)) (preset : string)
    (codec_arg : option string) (preserve_alpha : bool)
    (progress_callback : bool) (kwargs : CustomOptions)
    (order : list nat) (results : list CompressionResult)
    : M (list CompressionResult) :=
  match order with
  | [] => mret results
  | i :: order' =>
      match file_pairs !! i with
      | None =>
          collect E self file_pairs preset codec_arg preserve_alpha
                  progress_callback kwargs order' results
      | Some (input_path, output_path) =>
          result ←
            try_catch
              (_compress_single E self input_path output_path preset
                                codec_arg preserve_alpha progress_callback
                                kwargs)
              (fun e => mret (failed_result input_path output_path e));
          collect E self file_pairs preset codec_arg preserve_alpha
                  progress_callback kwargs order' (results ++ [result])
      end
  end.

(** [BatchCompressor.compress_batch]; [ThreadPoolExecutor] refuses a
    pool without workers. *)
Definition compress_batch (E : Env) (self : BatchCompressor)
    (files : list FileItem) (output_dir : option string) (preset : string)
    (codec_arg : option string) (preserve_alpha : bool)
    (progress_callback : bool) (kwargs : CustomOptions) (order : list nat)
    : M (list CompressionResult) :=
  file_pairs ← lift (_build_file_pairs E files output_dir);
  if max_workers self <=? 0 then
    raise (mkExc ValueError "max_workers must be greater than 0")
  else
    collect E self file_pairs preset codec_arg preserve_alpha
            progress_callback kwargs order [].

(** The callback of [BatchProgress.create_callback], on the events that the
    sink received. *)
Definition batch_callback (self : BatchProgress) (events : list ProgressEvent)
    : BatchProgress :=
  run_file_progress self
    (map (fun ev => (ev_filename ev, ev_percentage ev)) events).

(** ** Inputs of the examples *)

(** [s * n] on texts. *)
Fixpoint str_mul (s : string) (n : nat) : string :=
  match n with
  | O => ""
  | S n' => s +:+ str_mul s n'
  end.

(** The status line of the scenario of the specification. *)
Definition scenario_line : string :=
  "frame=  10 fps=30.0 q=28.0 size=100kB time=00:01:30.50 bitrate=900kbits/s speed=2.0x".

(** A status line whose hour field is a one followed by 309 zeros. *)
Definition long_hours_line : string :=
  "frame=1 fps=1.0 time=1" +:+ str_mul "0" 309 +:+ ":00:00.00 speed=1.0x".

(** Progress reports of two files of a batch. *)
Definition progress_calls : list (string * Q) :=
  [("a.mp4", 40%Q); ("b.mp4", 100%Q); ("a.mp4", 100%Q); ("b.mp4", 100%Q)].

(** An environment for the examples: POSIX paths that are absolute and
    normalised, a probe that finds a 10 second 4K video, and an encoder that
    prints one status line, writes its last argument as the node [written]
    and exits with [status]. *)
Fixpoint split_last (sep : ascii) (s : list ascii)
    : option (list ascii * list ascii) :=
  match s with
  | [] => None
  | c :: s' =>
      match split_last sep s' with
      | Some (a, b) => Some (c :: a, b)
      | None => if bool_decide (c = sep) then Some ([], s') else None
      end
  end.

Definition posix_basename (p : string) : string :=
  match split_last "/" (String.list_ascii_of_string p) with
  | Some (_, b) => String.string_of_list_ascii b
  | None => p
  end.

Definition posix_dirname (p : string) : string :=
  match split_last "/" (String.list_ascii_of_string p) with
  | Some (a, _) =>
      if bool_decide (a = []) then "/" else String.string_of_list_ascii a
  | None => ""
  end.

Definition posix_splitext (p : string) : string * string :=
  match split_last "." (String.list_ascii_of_string p) with
  | Some (a, b) =>
      if bool_decide (a = []) then (p, "")
      else (String.string_of_list_ascii a,
            "." +:+ String.string_of_list_ascii b)
  | None => (p, "")
  end.

Definition posix_join (a b : string) : string :=
  if starts_with ["/"%char] (String.list_ascii_of_string b) then b
  else if bool_decide (a = "") then b
  else if bool_decide (List.last (String.list_ascii_of_string a) "/"%char
                       = "/"%char)
  then a +:+ b
  else a +:+ "/" +:+ b.

Definition demo_probe : ProbeData :=
  mkProbeData (Some 10%Q) None (Some 3840) (Some 2160) (Some "h264")
              (Some "yuv420p") (Some (30, 1)).

Definition demo_env_with (probe : ProbeData) (status : Z) (written : Node)
    : Env :=
  mkEnv (fun n => 1000 + inject_Z (Z.of_nat n))%Q
        (fun program => Some ("/usr/bin/" +:+ program))
        posix_dirname posix_basename posix_splitext posix_join
        (fun _ => true)
        (fun _ _ => Probed probe)
        (fun cmd files =>
           Ran ["frame=  10 fps=30.0 q=28.0 size=100kB time=00:00:05.00 bitrate=900kbits/s speed=2.0x"]
               status (<[List.last cmd "" := written]> files)).

Definition demo_env : Z -> Node -> Env := demo_env_with demo_probe.

(** The same environment for another outcome of the probe, and the error
    of [int(None)]: a video stream whose width is null. *)
Definition env_with_probe (outcome : ProbeOutcome) : Env :=
  mkEnv (fun n => 1000 + inject_Z (Z.of_nat n))%Q
        (fun program => Some ("/usr/bin/" +:+ program))
        posix_dirname posix_basename posix_splitext posix_join
        (fun _ => true)
        (fun _ _ => outcome)
        (fun cmd files => Ran [] 0 files).

Definition null_width_error : PyExc :=
  mkExc TypeError
        "int() argument must be a string, a bytes-like object or a real number, not 'NoneType'".

(** Two videos, and an encoder that fails on the first of them. *)
Definition two_videos : gmap string Node :=
  list_to_map [("/in/a.mp4", mkNode true true true 10485760 true);
               ("/in/b.mp4", mkNode true true true 10485760 true);
               ("/in", mkNode false true true 0 true);
               ("/out", mkNode false true true 0 true)].

Definition selective_env : Env :=
  mkEnv (fun n => 1000 + inject_Z (Z.of_nat n))%Q
        (fun program => Some ("/usr/bin/" +:+ program))
        posix_dirname posix_basename posix_splitext posix_join
        (fun _ => true)
        (fun _ _ => Probed demo_probe)
        (fun cmd files =>
           Ran [] (if bool_decide ("/in/a.mp4" ∈ cmd) then 1 else 0)
               (<[List.last cmd "" := mkNode true true true 1048576 true]>
                  files)).

(** The same video when the probe reports no duration. *)
Definition probe_without_duration : ProbeData :=
  mkProbeData None None (Some 3840) (Some 2160) (Some "h264")
              (Some "yuv420p") (Some (30, 1)).

(** A readable 10 MiB video in [/in], and a writable [/out]. *)
Definition demo_files : gmap string Node :=
  list_to_map [("/in/a.mp4", mkNode true true true 10485760 true);
               ("/in", mkNode false true true 0 true);
               ("/out", mkNode false true true 0 true)].

Definition demo_world : World := initial_world demo_files.

Definition demo_compressor : VideoCompressor :=
  mkCompressor "/usr/bin/ffmpeg" ∅.

(** What the encoder leaves behind: 1 MiB that can be removed, or not. *)
Definition partial_output : Node := mkNode true true true 1048576 true.

(** ** Notions of the statements *)

(** The preset object that a name denotes for a compressor: the custom
    presets first, then the built-in table. *)
Definition lookup_preset (self : VideoCompressor) (w : World) (name : string)
    : option nat :=
  match custom_presets self !! name with
  | Some l => Some l
  | None => PRESETS w !! name
  end.

(** The codec that a call asks for: the override when one is passed (the
    empty text counts as none), else the codec of the preset. *)
Definition requested_codec (codec_arg : option string) (preset_codec : string)
    : string :=
  match codec_arg with
  | Some c => if bool_decide (c = "") then preset_codec else c
  | None => preset_codec
  end.

(** An override that the check of the codec lets pass. *)
Definition accepted_override (codec_arg : option string) : Prop :=
  match codec_arg with
  | Some c => c = "" \/ c = "vp8" \/ c = "vp9"
  | None => True
  end.

(** The codec with which a call goes on after its checks of the preset and
    of the codec, when it passes them: the override when one is given, else
    the codec of the preset.  There is none ([None]) when the name denotes
    no preset or the override is neither [vp8] nor [vp9]: the call has
    failed by then. *)
Definition effective_codec (self : VideoCompressor) (w : World)
    (preset : string) (codec_arg : option string) : option string :=
  l ← lookup_preset self w preset;
  match codec_arg with
  | Some c =>
      if bool_decide (c = "") then Some (codec (heap w l))
      else if bool_decide (c = "vp8") || bool_decide (c = "vp9") then Some c
      else None
  | None => Some (codec (heap w l))
  end.

(** The arguments of one call of [compress], and a sequence of calls on
    one compressor by a caller who goes on after a failure. *)
Record CompressCall := mkCompressCall {
  call_input : string;
  call_output : string;
  call_preset : string;
  call_codec : option string;
  call_alpha : bool;
  call_callback : bool;
  call_options : CustomOptions
}.

Definition run_call (E : Env) (self : VideoCompressor) (k : CompressCall)
    : M CompressionResult :=
  compress E self (call_input k) (call_output k) (call_preset k)
           (call_codec k) (call_alpha k) (call_callback k) (call_options k).

Definition run_calls (E : Env) (self : VideoCompressor)
    (calls : list CompressCall) (w : World) : World :=
  fold_left (fun w k => (run_call E self k w).2) calls w.

(** Two calls on the preset [web]: as it is, and with the codec [vp8]. *)
Definition call_web : CompressCall :=
  mkCompressCall "/in/a.mp4" "/out/a.webm" "web" None false false no_options.

Definition call_web_vp8 : CompressCall :=
  mkCompressCall "/in/a.mp4" "/out/a.webm" "web" (Some "vp8") false false
                 no_options.

(** The encoder commands of the preset [web] with VP9 and with VP8. *)
Definition command_web_vp9 : list string :=
  ["/usr/bin/ffmpeg"; "-i"; "/in/a.mp4"; "-c:v"; "libvpx-vp9"; "-b:v"; "1M";
   "-crf"; "31"; "-speed"; "4"; "-vf";
   "scale=min(1920\,iw):min(1080\,ih):force_original_aspect_ratio=decrease";
   "-row-mt"; "1"; "-c:a"; "libopus"; "-b:a"; "128k"; "-y"; "/out/a.webm"].

Definition command_web_vp8 : list string :=
  ["/usr/bin/ffmpeg"; "-i"; "/in/a.mp4"; "-c:v"; "libvpx"; "-b:v"; "1M";
   "-crf"; "31"; "-cpu-used"; "4"; "-vf";
   "scale=min(1920\,iw):min(1080\,ih):force_original_aspect_ratio=decrease";
   "-c:a"; "libopus"; "-b:a"; "128k"; "-y"; "/out/a.webm"].

Definition probe_command : list string :=
  ["/usr/bin/ffprobe"; "-v"; "quiet"; "-print_format"; "json";
   "-show_streams"; "-show_format"; "/in/a.mp4"].

(** The input path of an entry of a batch. *)
Definition item_input (item : FileItem) : string :=
  match item with
  | InputOnly input => input
  | InputOutput input _ => input
  end.

(** The run of one job of a batch: its pair, the world in which it started,
    what [compress] did there and the world that it left. *)
Record JobRun := mkJobRun {
  job_index : nat;
  job_input : string;
  job_output : string;
  job_before : World;
  job_outcome : result CompressionResult;
  job_after : World
}.

(** The runs of the jobs of a batch that complete in the order [order]: the
    first one runs [compress] on its pair in the world of the call, each
    other one in the world that the job before it left. *)
Fixpoint batch_runs (E : Env) (self : VideoCompressor)
    (file_pairs : list (string * string)) (preset : string)
    (codec_arg : option string) (preserve_alpha progress_callback : bool)
    (kwargs : CustomOptions) (order : list nat) (w : World) : list JobRun :=
  match order with
  | [] => []
  | i :: order' =>
      match file_pairs !! i with
      | None =>
          batch_runs E self file_pairs preset codec_arg preserve_alpha
                     progress_callback kwargs order' w
      | Some (input, output) =>
          let out := compress E self input output preset codec_arg
                              preserve_alpha progress_callback kwargs w in
          mkJobRun i input output w out.1 out.2
          :: batch_runs E self file_pairs preset codec_arg preserve_alpha
                        progress_callback kwargs order' out.2
      end
  end.

(** The world when the last of the jobs has completed. *)
Definition batch_end (w : World) (runs : list JobRun) : World :=
  fold_left (fun _ j => job_after j) runs w.

(** The result of a job for [compress_batch]: what [compress] returned in
    the run of the job, or the failed result, with the paths of the pair,
    made of what it raised there. *)
Definition job_result (j : JobRun) : CompressionResult :=
  match job_outcome j with
  | Return r => r
  | Raise e => failed_result (job_input j) (job_output j) e
  end.



(** [clamp(x, lo, hi)] as the specification writes it. *)
Definition clamp (x lo hi : Q) : Q := Qmax lo (Qmin x hi).

(** ** Notions of the proofs *)

(** Two emissions at least one throttle interval apart. *)
Definition apart (a b : Q * ProgressEvent) : Prop := (a.1 + (1 # 2) <= b.1)%Q.

(** The files that a sequence of calls reports at 100 percent or more, and
    the files that it names. *)
Fixpoint finished (calls : list (string * Q)) : gset string :=
  match calls with
  | [] => ∅
  | (f, p) :: calls' => (if Qgeb p 100 then {[f]} else ∅) ∪ finished calls'
  end.

Definition reported (calls : list (string * Q)) : gset string :=
  list_to_set calls.*1.

(** No file falls back: once a call reports a file at 100 percent or more,
    the later calls for that file do too. *)
Definition no_fall_back (calls : list (string * Q)) : Prop :=
  forall i j f p q, (i < j)%nat ->
    calls !! i = Some (f, p) -> calls !! j = Some (f, q) ->
    (100 <= p)%Q -> (100 <= q)%Q.

(** The same along the calls, from a set of files that are at 100 already. *)
Fixpoint steady (full : gset string) (calls : list (string * Q)) : Prop :=
  match calls with
  | [] => True
  | (f, p) :: calls' =>
      (f ∈ full -> (100 <= p)%Q)
      /\ steady (if Qgeb p 100 then {[f]} ∪ full else full) calls'
  end.

(** The counter is the number of files recorded at 100 percent or more. *)
Definition counts (self : BatchProgress) (full : gset string) : Prop :=
  (forall f, f ∈ full <->
             exists q, file_progress self !! f = Some q /\ (100 <= q)%Q)
  /\ completed_files self = Z.of_nat (size full).

(** Runs that follow each other: each starts in the world that the one
    before it left. *)
Fixpoint linked (w : World) (runs : list JobRun) : Prop :=
  match runs with
  | [] => True
  | j :: runs' => job_before j = w /\ linked (job_after j) runs'
  end.

(** A part of the world that a computation leaves as it found it. *)
Definition keeps {B} (part : World -> B) {A} (m : M A) : Prop :=
  forall w, part (m w).2 = part w.

(** The value that a computation returns, when it returns. *)
Definition ensures {A} (Q : A -> Prop) (m : M A) : Prop :=
  forall w a w', m w = (Return a, w') -> Q a.

(** The check of the alpha request on the preset object [l]. *)
Definition alpha_check (preserve_alpha : bool) (l : nat) (w : World)
    : result nat * World :=
  if preserve_alpha && negb (bool_decide (codec (heap w l) = "vp9"))
  then (Raise (AlphaChannelNotSupported (codec (heap w l))), w)
  else (Return l, w).

(** ** More of the sources *)

(** *** [utils.format_time] *)

(** [int(x)] on a float: the truncation toward zero. *)
Definition int_of_float (x : Q) : Z :=
  if Qle_bool 0 x then Qfloor x else Qceiling x.

(** C [fmod(x, y)], which the float operators of CPython call: exact, with
    the sign of [x]. *)
Definition fmod (x y : Q) : Q := (x - y * inject_Z (int_of_float (x / y)))%Q.

(** [x % y] and [x // y] on floats for a positive divisor, as CPython
    computes them ([float_rem] and [_float_div_mod]).  The sums, differences
    and quotients that they take are rounded to binary64: [rnd] is that
    rounding.  A remainder below zero is moved up by the divisor, and the
    quotient is snapped to the nearest integer. *)
Section float_divmod.
Variable rnd : Q -> Q.

Definition float_mod (x y : Q) : Q :=
  let m := fmod x y in
  if negb (Qeq_bool m 0) && Qltb m 0 then rnd (m + y) else m.

Definition float_floordiv (x y : Q) : Q :=
  let m := fmod x y in
  let div := rnd (rnd (x - m) / y) in
  let div :=
    if negb (Qeq_bool m 0) && Qltb m 0 then rnd (div - 1) else div in
  if negb (Qeq_bool div 0) then
    let floordiv := inject_Z (Qfloor div) in
    if Qgtb (rnd (div - floordiv)) (1 # 2) then rnd (floordiv + 1)
    else floordiv
  else 0%Q.

(** The three numbers that [format_time] prints. *)
Definition time_fields (seconds : Q) : Z * Z * Z :=
  let hours := int_of_float (float_floordiv seconds 3600) in
  let minutes := int_of_float (float_floordiv (float_mod seconds 3600) 60) in
  let secs := int_of_float (float_mod seconds 60) in
  (hours, minutes, secs).

(** The format [{n:02d}]: at least two characters, zeros on the left. *)
Definition format_02d (n : Z) : string :=
  let s := pretty n in
  if (String.length s <? 2)%nat then "0" +:+ s else s.

Definition format_time (seconds : Q) : string :=
  let '(hours, minutes, secs) := time_fields seconds in
  format_02d hours +:+ ":" +:+ format_02d minutes +:+ ":" +:+ format_02d secs.
End float_divmod.

(** *** [presets.list_presets] *)

Definition list_presets (w : World) : gmap string string :=
  (fun l => name (heap w l)) <$> PRESETS w.

(** *** [progress.create_simple_callback]

    The closure keeps [last_percentage]; what it prints is kept as the
    event that the line reports (the text of the line is a rendering of the
    event). *)

Record SimpleCallback := mkSimple {
  last_percentage : Q;
  printed : list ProgressEvent
}.

Definition create_simple_callback : SimpleCallback := mkSimple 0 [].

(** The 5 percent step of a percentage: [int(percentage / 5)]. *)
Definition step_of (percentage : Q) : Z := int_of_float (percentage / 5).

(** One call of the callback. *)
Definition simple_callback (self : SimpleCallback) (ev : ProgressEvent)
    : SimpleCallback :=
  if step_of (last_percentage self) <? step_of (ev_percentage ev) then
    mkSimple (ev_percentage ev) (printed self ++ [ev])
  else self.

(** *** [compress_async] and [compress_batch_async]

    The executor runs the call of [compress]; as for [compress_batch], the
    tasks are taken at the grain of whole jobs, completed in the order
    [order]. *)





(** *** [app.allowed_file] *)

(** [str.lower] on a code point below 256. *)
Definition char_lower (c : ascii) : ascii :=
  if ((65 <=? code c) && (code c <=? 90)
      || (192 <=? code c) && (code c <=? 222) && negb (code c =? 215))%N
  then Ascii.ascii_of_N (code c + 32)
  else c.

Definition str_lower (s : list ascii) : list ascii := char_lower <$> s.

Definition ALLOWED_EXTENSIONS : list string :=
  ["mp4"; "mov"; "avi"; "mkv"; "webm"].

(** [filename.rsplit('.', 1)[1]] when there is a dot in [filename]. *)
Definition allowed_file (filename : string) : bool :=
  match split_last "." (String.list_ascii_of_string filename) with
  | Some (_, extension) =>
      bool_decide (String.string_of_list_ascii (str_lower extension)
                   ∈ ALLOWED_EXTENSIONS)
  | None => false
  end.

(** *** Notions of the further properties *)

(** The classes and the least lengths of the groups of a pattern, in the
    order of the groups. *)
Fixpoint group_classes (p : list item) : list ((ascii -> bool) * nat) :=
  match p with
  | [] => []
  | Lit _ :: p' => group_classes p'
  | Rep cls min _ capture :: p' =>
      if capture then (cls, min) :: group_classes p' else group_classes p'
  end.

(** A group that fits a class and a least length. *)
Definition fits (g : list ascii) (c : (ascii -> bool) * nat) : Prop :=
  forallb c.1 g = true /\ (c.2 <= length g)%nat.

(** An event of the job on [file] whose video lasts [total]: tagged with
    the file, at most at 100 percent, and not below 0 when the video has a
    length. *)
Definition event_for (file : string) (total : Q) (ev : ProgressEvent) : Prop :=
  ev_filename ev = file /\ ev_total_time ev = total
  /\ (ev_percentage ev <= 100)%Q
  /\ ((0 < total)%Q -> (0 <= ev_percentage ev)%Q).

(** The event of [complete] for the job on [file]. *)
Definition final_event (file : string) (total : Q) : ProgressEvent :=
  mkEvent file 100 total total (Some 0%Q).

(** The size in MiB that [get_file_size_mb] reads off the files. *)
Definition size_mb (files : gmap string Node) (path : string) : Q :=
  match files !! path with
  | None => 0%Q
  | Some n => (inject_Z (Z.of_N (getsize n)) / inject_Z (1024 * 1024))%Q
  end.




(** An entry of a batch that names its output. *)
Definition is_pair (item : FileItem) : bool :=
  match item with
  | InputOnly _ => false
  | InputOutput _ _ => true
  end.

(** The callback of [create_simple_callback] after the events [evs]. *)
Definition run_simple_callback (evs : list ProgressEvent) : SimpleCallback :=
  fold_left simple_callback evs create_simple_callback.

(** An event in a later 5 percent step than another one. *)
Definition later_step (a b : ProgressEvent) : Prop :=
  step_of (ev_percentage a) < step_of (ev_percentage b).

(** The options of a call with the cap on the resolution taken away, as by
    [max_resolution=None]. *)
Definition without_cap (custom_options : CustomOptions) : CustomOptions :=
  mkOptions (opt_video_bitrate custom_options) (opt_crf custom_options)
            (opt_speed custom_options) (Some None)
            (opt_audio_bitrate custom_options).

(** The scale filter of [_build_command] for a cap. *)
Definition scale_filter (max_width max_height : Z) : string :=
  "scale=min(" +:+ pretty max_width +:+ "\,iw):min(" +:+ pretty max_height
  +:+ "\,ih):force_original_aspect_ratio=decrease".

(** * Properties *)

(** ** Comparisons and division on floats *)

Lemma Qltb_lt (x y : Q) : Qltb x y = true <-> (x < y)%Q.
Proof.
  unfold Qltb. rewrite negb_true_iff, <- not_true_iff_false, Qle_bool_iff.
  split; [apply Qnot_le_lt | apply Qlt_not_le].
Qed.

Lemma Qltb_ge (x y : Q) : Qltb x y = false <-> (y <= x)%Q.
Proof. unfold Qltb. rewrite negb_false_iff. apply Qle_bool_iff. Qed.

Lemma float_div_zero (a b : Q) :
  (b == 0)%Q ->
  float_div a b = Raise (mkExc ZeroDivisionError "float division by zero").
Proof.
  intros Hb. unfold float_div.
  by rewrite (proj2 (Qeq_bool_iff b 0) Hb).
Qed.

Lemma float_div_nonzero (a b : Q) :
  ~ (b == 0)%Q -> float_div a b = Return (a / b)%Q.
Proof.
  intros Hb. unfold float_div.
  destruct (Qeq_bool b 0) eqn:Hz; [|done].
  by apply Qeq_bool_iff in Hz.
Qed.

(** ** The progress parser *)

(** The scenario line parses to 90.5 seconds at speed 2.0. *)
Lemma parse_progress_scenario :
  exists s, parse_progress scenario_line = Return (Some s)
            /\ (sample_current_time s == 90.5)%Q /\ (sample_speed s == 2.0)%Q
            /\ sample_frame s = 10 /\ (sample_fps s == 30.0)%Q.
Proof. eexists. split; [vm_compute; reflexivity|]. by vm_compute. Qed.

(** A line without a match is ignored. *)
Lemma parse_progress_no_match (line : string) :
  re_search PROGRESS_PATTERN line = None -> parse_progress line = Return None.
Proof. intros H. unfold parse_progress. by rewrite H. Qed.

(** A group that is not a number is ignored too. *)
Example parse_progress_two_dots :
  parse_progress "frame=1 fps=30.0.1 time=00:00:01.00 speed=1.0x" = Return None.
Proof. vm_compute. reflexivity. Qed.

Lemma py_int_raises (s : list ascii) (e : PyExc) :
  py_int s = Raise e -> exc_cls e = ValueError.
Proof. unfold py_int. repeat case_match; naive_solver. Qed.

Lemma py_float_raises (s : list ascii) (e : PyExc) :
  py_float s = Raise e -> exc_cls e = ValueError.
Proof. unfold py_float. repeat case_match; naive_solver. Qed.

Lemma group_raises (m : list (list ascii)) (i : nat) (e : PyExc) :
  group m i = Raise e -> exc_cls e = IndexError.
Proof. unfold group. repeat case_match; naive_solver. Qed.

Lemma float_of_int_raises (n : Z) (e : PyExc) :
  float_of_int n = Raise e -> exc_cls e = OverflowError /\ float_max_int <= Z.abs n.
Proof.
  unfold float_of_int. destruct (Z.abs n <? float_max_int) eqn:Hn; [done|].
  intros [= <-]. split; [done|lia].
Qed.

Lemma conversion_caught {A} (m : list (list ascii)) (i : nat)
    (conv : list ascii -> result A) (e : PyExc) :
  (forall s e, conv s = Raise e -> exc_cls e = ValueError) ->
  group m i ≫= conv = Raise e ->
  existsb (isinstance e) [ValueError; IndexError] = true.
Proof.
  intros Hconv. destruct (group m i) as [g|e'] eqn:Hg; simpl.
  - intros He. apply Hconv in He. unfold isinstance. by rewrite He.
  - intros [= ->]. apply group_raises in Hg. unfold isinstance. by rewrite Hg.
Qed.

Lemma try_except_bind_return {A B} (a : A) (f : A -> result B)
    (classes : list exc_class) (handler : PyExc -> result B) :
  try_except (Return a ≫= f) classes handler = try_except (f a) classes handler.
Proof. reflexivity. Qed.

Lemma try_except_bind_caught {A B} (e : PyExc) (f : A -> result B)
    (classes : list exc_class) (handler : PyExc -> result B) :
  existsb (isinstance e) classes = true ->
  try_except (Raise e ≫= f) classes handler = handler e.
Proof. intros H. unfold try_except. simpl. by rewrite H. Qed.

(** An exception leaves [parse_progress] only from the sum: the line
    matches, its groups are numbers, and the whole seconds of the hours and
    minutes are out of the range of a float. *)
Lemma parse_progress_raises_sum (line : string) (e : PyExc) :
  parse_progress line = Raise e ->
  exists m hours minutes,
    re_search PROGRESS_PATTERN line = Some m
    /\ group m 3 ≫= py_int = Return hours
    /\ group m 4 ≫= py_int = Return minutes
    /\ float_max_int <= Z.abs (hours * 3600 + minutes * 60)
    /\ exc_cls e = OverflowError.
Proof.
  unfold parse_progress.
  destruct (re_search PROGRESS_PATTERN line) as [m|]; [|done].
  destruct (group m 1 ≫= py_int) as [frame|e1] eqn:H1.
  2: { by rewrite try_except_bind_caught
         by apply (conversion_caught _ _ _ _ py_int_raises H1). }
  rewrite try_except_bind_return.
  destruct (group m 2 ≫= py_float) as [fps|e2] eqn:H2.
  2: { by rewrite try_except_bind_caught
         by apply (conversion_caught _ _ _ _ py_float_raises H2). }
  rewrite try_except_bind_return.
  destruct (group m 3 ≫= py_int) as [hours|e3] eqn:H3.
  2: { by rewrite try_except_bind_caught
         by apply (conversion_caught _ _ _ _ py_int_raises H3). }
  rewrite try_except_bind_return.
  destruct (group m 4 ≫= py_int) as [minutes|e4] eqn:H4.
  2: { by rewrite try_except_bind_caught
         by apply (conversion_caught _ _ _ _ py_int_raises H4). }
  rewrite try_except_bind_return.
  destruct (group m 5 ≫= py_float) as [seconds|e5] eqn:H5.
  2: { by rewrite try_except_bind_caught
         by apply (conversion_caught _ _ _ _ py_float_raises H5). }
  rewrite try_except_bind_return.
  destruct (group m 6 ≫= py_float) as [speed|e6] eqn:H6.
  2: { by rewrite try_except_bind_caught
         by apply (conversion_caught _ _ _ _ py_float_raises H6). }
  rewrite try_except_bind_return.
  destruct (float_of_int (hours * 3600 + minutes * 60)) as [whole|e7] eqn:H7;
    [done|].
  apply float_of_int_raises in H7 as [Hcls Hbig].
  unfold try_except. simpl. unfold isinstance. rewrite Hcls. simpl.
  intros [= <-].
  by exists m, hours, minutes.
Qed.

Lemma digits_value_bound (s : list ascii) :
  forallb is_digit s = true -> 0 <= digits_value s < 10 ^ Z.of_nat (length s).
Proof.
  unfold digits_value.
  assert (forall acc, forallb is_digit s = true -> 0 <= acc ->
            0 <= fold_left (fun acc c => 10 * acc + digit_value c) s acc
            < (acc + 1) * 10 ^ Z.of_nat (length s)) as H.
  { induction s as [|c s IH]; intros acc Hs Hacc; simpl in *; [lia|].
    apply andb_prop in Hs as [Hc Hs].
    assert (0 <= digit_value c <= 9) as Hd.
    { unfold is_digit in Hc. unfold digit_value.
      apply andb_prop in Hc as [Hlo Hhi].
      apply N.leb_le in Hlo, Hhi. lia. }
    specialize (IH (10 * acc + digit_value c) Hs ltac:(lia)).
    replace (Z.of_nat (S (length s))) with (Z.of_nat (length s) + 1) by lia.
    rewrite Z.pow_add_r by lia. nia. }
  intros Hs. specialize (H 0 Hs ltac:(lia)). lia.
Qed.

Lemma py_int_bound (m : list (list ascii)) (i : nat) (n : Z) (digits : nat) :
  group m i ≫= py_int = Return n ->
  (forall g, group m i = Return g -> (length g <= digits)%nat) ->
  0 <= n < 10 ^ Z.of_nat digits.
Proof.
  destruct (group m i) as [g|] eqn:Hg; [|done]. simpl. unfold py_int.
  destruct (forallb is_digit g) eqn:Hd; [|done]. simpl.
  repeat case_match; try done. intros [= <-] Hlen.
  pose proof (digits_value_bound g Hd) as Hb.
  specialize (Hlen g eq_refl).
  assert (10 ^ Z.of_nat (length g) <= 10 ^ Z.of_nat digits)
    by (apply Z.pow_le_mono_r; lia).
  lia.
Qed.

(** So [parse_progress] returns on every line whose hour and minute fields
    have at most 300 digits. *)
Lemma parse_progress_returns (line : string) :
  (forall m g, re_search PROGRESS_PATTERN line = Some m ->
               group m 3 = Return g \/ group m 4 = Return g ->
               (length g <= 300)%nat) ->
  returns (parse_progress line).
Proof.
  intros Hshort. destruct (parse_progress line) as [s|e] eqn:Hp; [done|].
  apply parse_progress_raises_sum in Hp
    as (m & hours & minutes & Hm & Hh & Hmin & Hbig & _).
  assert (0 <= hours < 10 ^ Z.of_nat 300) as Hhours.
  { apply (py_int_bound m 3); [done|]. intros g Hg. apply (Hshort m); eauto. }
  assert (0 <= minutes < 10 ^ Z.of_nat 300) as Hminutes.
  { apply (py_int_bound m 4); [done|]. intros g Hg. apply (Hshort m); eauto. }
  assert (3660 * 10 ^ Z.of_nat 300 < float_max_int) as Hmax by by vm_compute.
  lia.
Qed.

(** C6 (the code against the claim).  [parse_progress] is not total: on a
    status line that matches the pattern and whose groups are all numeric,
    but whose hour field has 310 digits, the sum of the [int] part and the
    [float] seconds raises [OverflowError], which the handler for
    [(ValueError, IndexError)] does not catch.  The scenario line of the
    specification does parse to 90.5 seconds at speed 2.0. *)
Theorem parse_progress_long_hours_overflow :
  (exists m frame fps minutes seconds speed,
      re_search PROGRESS_PATTERN long_hours_line = Some m
      /\ group m 1 ≫= py_int = Return frame
      /\ group m 2 ≫= py_float = Return fps
      /\ group m 3 ≫= py_int = Return (10 ^ 309)
      /\ group m 4 ≫= py_int = Return minutes
      /\ group m 5 ≫= py_float = Return seconds
      /\ group m 6 ≫= py_float = Return speed)
  /\ raises (parse_progress long_hours_line) OverflowError
  /\ (exists s, parse_progress scenario_line = Return (Some s)
                /\ (sample_current_time s == 90.5)%Q
                /\ (sample_speed s == 2.0)%Q).
Proof.
  split; [|split].
  - do 6 eexists. split; [vm_compute; reflexivity|].
    repeat split; vm_compute; reflexivity.
  - by vm_compute.
  - destruct parse_progress_scenario as (s & ? & ? & ? & _). eauto.
Qed.

(** ** The progress tracker *)

(** A throttled sample is dropped: nothing is emitted and nothing is kept. *)
Lemma update_throttled (self : ProgressTracker) (now current_time speed : Q) :
  throttled self now = true ->
  update self now current_time speed = mkStep (Return ()) self [].
Proof. intros H. unfold update. by rewrite H. Qed.

(** A sample that passes the throttle moves [last_update_time] before
    anything else, also when the call raises. *)
Lemma update_passed_tracker (self : ProgressTracker) (now current_time speed : Q) :
  throttled self now = false ->
  step_tracker (update self now current_time speed)
  = set_last_update_time self now.
Proof.
  intros H. unfold update. rewrite H. by repeat case_match.
Qed.

Lemma update_events_length (self : ProgressTracker) (now current_time speed : Q) :
  (length (step_events (update self now current_time speed)) <= 1)%nat.
Proof. unfold update. repeat case_match; simpl; lia. Qed.

(** What [update] emits when it passes the throttle on a tracker with a
    duration and a sink. *)
Lemma update_passed (self : ProgressTracker) (now current_time speed : Q) :
  throttled self now = false ->
  ~ (total_duration self == 0)%Q ->
  update self now current_time speed
  = mkStep (Return ()) (set_last_update_time self now)
      (if callback self then
         [mkEvent (filename self)
            (py_min (current_time / total_duration self * 100) 100)
            current_time (total_duration self)
            (if Qgtb speed 0 && Qgtb current_time 0
             then Some ((total_duration self - current_time) / speed)%Q
             else None)]
       else []).
Proof.
  intros Hpass Hdur. unfold update. rewrite Hpass. simpl.
  rewrite float_div_nonzero by done.
  destruct (Qgtb speed 0) eqn:Hs; simpl.
  - assert (~ (speed == 0)%Q) as Hs0.
    { apply Qltb_lt in Hs. intros Hz. rewrite Hz in Hs.
      by apply Qlt_irrefl in Hs. }
    rewrite float_div_nonzero by done.
    destruct (Qgtb current_time 0); simpl; by destruct (callback self).
  - by destruct (callback self).
Qed.

Lemma py_min_spec (a b : Q) : (py_min a b == Qmin a b)%Q.
Proof.
  unfold py_min. destruct (Qltb b a) eqn:H.
  - apply Qltb_lt in H. symmetry. apply Q.min_r. by apply Qlt_le_weak.
  - apply Qltb_ge in H. symmetry. by apply Q.min_l.
Qed.

(** C10.  On a tracker whose [total_duration] is zero, every [update] that
    passes the throttle raises [ZeroDivisionError] and emits nothing, and a
    passing [update] returns exactly when [total_duration] is not zero; a
    probe without a duration gives such a tracker, as [VideoInfo.from_file]
    defaults the duration to 0. *)
Theorem update_zero_duration (self : ProgressTracker)
    (now current_time speed : Q) :
  throttled self now = false ->
  ((total_duration self == 0)%Q ->
     raises (step_result (update self now current_time speed)) ZeroDivisionError
     /\ step_events (update self now current_time speed) = [])
  /\ (returns (step_result (update self now current_time speed))
      <-> ~ (total_duration self == 0)%Q)
  /\ (forall data filename callback start,
        format_duration data = None ->
        total_duration (ProgressTracker_init (duration (video_info_of data))
                                             filename callback start) = 0%Q).
Proof.
  intros Hpass. split; [|split].
  - intros Hz. unfold update. rewrite Hpass. simpl.
    by rewrite float_div_zero.
  - split.
    + intros Hret Hz. unfold update in Hret. rewrite Hpass in Hret.
      simpl in Hret. by rewrite float_div_zero in Hret.
    + intros Hnz. by rewrite update_passed.
  - intros data f cb start Hd. unfold video_info_of. rewrite Hd. simpl.
    by destruct (default (0, 1) (stream_r_frame_rate data)).
Qed.

(** In [compress]: with a progress callback and a probe without duration,
    the first status line makes the tracker raise; the call fails with the
    message of the division, and the sink has received nothing. *)
Example compress_without_duration :
  let E := demo_env_with probe_without_duration 0 partial_output in
  let run := compress E demo_compressor "/in/a.mp4" "/out/a.webm" "web" None
                      false true no_options demo_world in
  run.1 = Raise (mkExc CompressionFailedError
                       "Compression failed: float division by zero")
  /\ sink run.2 = [].
Proof. vm_compute. split; reflexivity. Qed.

Lemma update_zero_duration_witness :
  let self := ProgressTracker_init 0 "a.mp4" true 1000 in
  throttled self 1001 = false
  /\ raises (step_result (update self 1001 5 2)) ZeroDivisionError
  /\ step_events (update self 1001 5 2) = [].
Proof.
  simpl. split; [by vm_compute|].
  apply (update_zero_duration (ProgressTracker_init 0 "a.mp4" true 1000)
                              1001 5 2); by vm_compute.
Defined.

(** C4 (the claim as stated fails).  The percentage is not clamped from
    below: a negative [current_time] gives a negative percentage. *)
Lemma update_percentage_below_zero :
  let self := ProgressTracker_init 10 "a.mp4" true 1000 in
  throttled self 1001 = false
  /\ exists ev, step_events (update self 1001 (-1) 1) = [ev]
       /\ (ev_percentage ev == -10)%Q
       /\ ~ (ev_percentage ev == clamp (-1 / 10 * 100) 0 100)%Q.
Proof.
  simpl. split; [by vm_compute|].
  eexists. split; [vm_compute; reflexivity|]. simpl. split; by vm_compute.
Qed.

(** C4 (amended).  An [update] that passes the throttle, on a tracker with a
    sink and a non-zero duration, emits one event whose percentage is
    [min(current_time / total_duration * 100, 100)] -- the clamp to
    [0, 100] whenever the quotient is not negative -- and whose ETA is
    [(total_duration - current_time) / speed] when [speed > 0] and
    [current_time > 0], and absent otherwise; at
    [current_time = total_duration > 0] and [speed = 1] the percentage is
    100 and the ETA is 0. *)
Theorem update_event (self : ProgressTracker) (now current_time speed : Q) :
  throttled self now = false ->
  ~ (total_duration self == 0)%Q ->
  callback self = true ->
  exists ev,
    update self now current_time speed
    = mkStep (Return ()) (set_last_update_time self now) [ev]
    /\ ev_filename ev = filename self
    /\ ev_current_time ev = current_time
    /\ ev_total_time ev = total_duration self
    /\ (ev_percentage ev
        == Qmin (current_time / total_duration self * 100) 100)%Q
    /\ ((0 <= current_time / total_duration self)%Q ->
        (ev_percentage ev
         == clamp (current_time / total_duration self * 100) 0 100)%Q)
    /\ match ev_eta ev with
       | Some eta =>
           (0 < speed)%Q /\ (0 < current_time)%Q
           /\ (eta == (total_duration self - current_time) / speed)%Q
       | None => ~ ((0 < speed)%Q /\ (0 < current_time)%Q)
       end
    /\ ((0 < total_duration self)%Q ->
        (current_time == total_duration self)%Q -> (speed == 1)%Q ->
        (ev_percentage ev == 100)%Q
        /\ exists eta, ev_eta ev = Some eta /\ (eta == 0)%Q).
Proof.
  intros Hpass Hdur Hcb. rewrite update_passed, Hcb by done.
  eexists. split; [reflexivity|]. simpl.
  split; [done|]. split; [done|]. split; [done|].
  split; [apply py_min_spec|]. split; [|split].
  - intros Hpos. rewrite py_min_spec. unfold clamp.
    symmetry. apply Q.max_r. apply Q.min_glb; [|done].
    set (r := (current_time / total_duration self)%Q) in *. lra.
  - destruct (Qgtb speed 0) eqn:Hs, (Qgtb current_time 0) eqn:Hc; simpl;
      unfold Qgtb in *;
      rewrite ?Qltb_lt in *; rewrite ?Qltb_ge in *;
      try (split; [done|split; [done|reflexivity]]);
      intros [? ?]; lra.
  - intros Hpos Hct Hsp.
    assert (current_time / total_duration self == 1)%Q as Hr.
    { rewrite Hct. field. done. }
    split.
    + rewrite py_min_spec, Hr. by vm_compute.
    + assert (Qgtb speed 0 && Qgtb current_time 0 = true) as ->.
      { apply andb_true_intro. unfold Qgtb. rewrite !Qltb_lt. lra. }
      eexists. split; [reflexivity|]. rewrite Hct, Hsp. field.
Qed.

Lemma update_event_witness :
  exists ev,
    update (ProgressTracker_init 10 "a.mp4" true 1000) 1001 10 1
    = mkStep (Return ())
        (set_last_update_time (ProgressTracker_init 10 "a.mp4" true 1000) 1001)
        [ev]
    /\ (ev_percentage ev == 100)%Q
    /\ exists eta, ev_eta ev = Some eta /\ (eta == 0)%Q.
Proof.
  destruct (update_event (ProgressTracker_init 10 "a.mp4" true 1000) 1001 10 1)
    as (ev & Hev & _ & _ & _ & _ & _ & _ & Hfull);
    [by vm_compute|by vm_compute|reflexivity|].
  exists ev. split; [exact Hev|].
  apply Hfull; by vm_compute.
Defined.

(** *** The throttle *)

Lemma StronglySorted_pairs {A} (R : relation A) (l : list A) (i j : nat) (a b : A) :
  StronglySorted R l -> (i < j)%nat -> l !! i = Some a -> l !! j = Some b ->
  R a b.
Proof.
  intros Hl. revert i j. induction Hl as [|x l Hl IH Hx]; intros i j Hij Hi Hj.
  - done.
  - destruct j as [|j]; [lia|]. simpl in Hj. destruct i as [|i]; simpl in Hi.
    + injection Hi as <-. by eapply Forall_lookup_1.
    + eapply (IH i j); [lia|done|done].
Qed.

(** From any tracker with the interval of [__init__]: what a sequence of
    updates emits comes at least one interval after the last update time,
    and the emissions are pairwise one interval apart. *)
Lemma run_updates_apart (calls : list UpdateCall) (self : ProgressTracker) :
  update_interval self = (1 # 2)%Q ->
  Forall (fun e => (last_update_time self + (1 # 2) <= e.1)%Q)
         (run_updates self calls).2
  /\ StronglySorted apart (run_updates self calls).2.
Proof.
  revert self. induction calls as [|c calls IH]; intros self Hint; simpl.
  - split; constructor.
  - destruct (throttled self (call_now c)) eqn:Hth.
    + rewrite update_throttled by done. simpl.
      destruct (run_updates self calls) as [self' later] eqn:Hrun. simpl.
      specialize (IH self Hint). by rewrite Hrun in IH.
    + pose proof (update_passed_tracker self (call_now c)
                    (call_current_time c) (call_speed c) Hth) as Htr.
      pose proof (update_events_length self (call_now c)
                    (call_current_time c) (call_speed c)) as Hlen.
      destruct (update self (call_now c) (call_current_time c) (call_speed c))
        as [r tr evs]. simpl in *. subst tr.
      destruct (run_updates (set_last_update_time self (call_now c)) calls)
        as [self' later] eqn:Hrun. simpl.
      specialize (IH (set_last_update_time self (call_now c)) Hint).
      rewrite Hrun in IH. simpl in IH. destruct IH as [Hall Hsorted].
      unfold throttled in Hth. apply Qltb_ge in Hth. rewrite Hint in Hth.
      assert (Forall (fun e => (last_update_time self + (1 # 2) <= e.1)%Q) later)
        as Hall'.
      { eapply Forall_impl; [|exact Hall]. intros e He. simpl in He. lra. }
      destruct evs as [|ev [|ev' evs]]; simpl in *; [done| |lia].
      split.
      * constructor; [simpl; lra|done].
      * constructor; [done|]. eapply Forall_impl; [|exact Hall].
        intros e He. unfold apart. simpl in *. done.
Qed.

(** C3.  Whatever the sequence of [update] calls on a tracker made by
    [__init__], and whatever the clock readings of the calls: two events
    emitted by [update] are at least 0.5 seconds apart; a throttled sample
    is dropped without a trace in the tracker; and [complete] hands one
    event at 100 percent to the sink whatever the last update time, which
    it does not touch. *)
Theorem update_throttle (total : Q) (file : string) (sink_given : bool)
    (start : Q) (calls : list UpdateCall) :
  let self := ProgressTracker_init total file sink_given start in
  let emitted := (run_updates self calls).2 in
  (forall i j a b, (i < j)%nat -> emitted !! i = Some a -> emitted !! j = Some b ->
                   (a.1 + 0.5 <= b.1)%Q)
  /\ (forall t now current_time speed,
        throttled t now = true ->
        update t now current_time speed = mkStep (Return ()) t [])
  /\ (forall t, callback t = true ->
        exists ev, complete t = mkStep (Return ()) t [ev]
                   /\ ev_percentage ev = 100%Q
                   /\ ev_current_time ev = total_duration t
                   /\ ev_eta ev = Some 0%Q).
Proof.
  intros self emitted. split; [|split].
  - intros i j a b Hij Hi Hj.
    destruct (run_updates_apart calls self eq_refl) as [_ Hsorted].
    pose proof (StronglySorted_pairs apart _ i j a b Hsorted Hij Hi Hj) as H.
    unfold apart in H. lra.
  - apply update_throttled.
  - intros t Ht. unfold complete. rewrite Ht. eauto.
Qed.

Lemma update_throttle_witness :
  let calls := [mkCall 1000 1 1; mkCall 1000.2 2 1; mkCall 1000.5 3 1] in
  let emitted := (run_updates (ProgressTracker_init 10 "a.mp4" true 999) calls).2 in
  length emitted = 2%nat
  /\ forall a b, emitted !! 0%nat = Some a -> emitted !! 1%nat = Some b ->
                 (a.1 + 0.5 <= b.1)%Q.
Proof.
  simpl. split; [reflexivity|]. intros a b.
  destruct (update_throttle 10 "a.mp4" true 999
              [mkCall 1000 1 1; mkCall 1000.2 2 1; mkCall 1000.5 3 1])
    as [Hapart _].
  apply (Hapart 0%nat 1%nat a b). lia.
Defined.

(** ** The batch progress *)

(** One call: the counter grows by one exactly when the recorded
    percentage of the file crosses 100 from below. *)
Lemma update_file_progress_completed (self : BatchProgress) (file : string)
    (percentage : Q) :
  completed_files (update_file_progress self file percentage)
  = completed_files self
    + (if Qltb (default 0%Q (file_progress self !! file)) 100
          && Qgeb percentage 100 then 1 else 0).
Proof. unfold update_file_progress. case_match; simpl; lia. Qed.

Lemma update_file_progress_map (self : BatchProgress) (file : string)
    (percentage : Q) :
  file_progress (update_file_progress self file percentage)
  = <[file := percentage]> (file_progress self).
Proof. unfold update_file_progress. by case_match. Qed.

Lemma update_file_progress_total (self : BatchProgress) (file : string)
    (percentage : Q) :
  total_files (update_file_progress self file percentage) = total_files self.
Proof. unfold update_file_progress. by case_match. Qed.

Lemma run_file_progress_total (calls : list (string * Q)) (self : BatchProgress) :
  total_files (run_file_progress self calls) = total_files self.
Proof.
  revert self. induction calls as [|[f p] calls IH]; intros self; simpl; [done|].
  by rewrite IH, update_file_progress_total.
Qed.

Lemma run_file_progress_monotone (calls : list (string * Q)) (self : BatchProgress) :
  completed_files self <= completed_files (run_file_progress self calls).
Proof.
  revert self. induction calls as [|[f p] calls IH]; intros self; simpl; [lia|].
  etrans; [|apply IH]. rewrite update_file_progress_completed. case_match; lia.
Qed.

(** C7 (the claim as stated fails).  A file whose percentage falls back
    below 100 and reaches it again is counted twice, and the counter passes
    [total_files]. *)
Lemma completed_files_exceeds_total :
  let bp := run_file_progress (BatchProgress_init 1)
              [("a.mp4", 100%Q); ("a.mp4", 50%Q); ("a.mp4", 100%Q)] in
  completed_files bp = 2 /\ total_files bp = 1
  /\ ~ completed_files bp <= total_files bp.
Proof. vm_compute. split; [done|]. split; [done|]. intros H. by apply H. Qed.

Lemma no_fall_back_steady (calls : list (string * Q)) (full : gset string) :
  no_fall_back calls ->
  (forall f p, (f, p) ∈ calls -> f ∈ full -> (100 <= p)%Q) ->
  steady full calls.
Proof.
  revert full. induction calls as [|[f p] calls IH]; intros full Hnf Hdone; simpl.
  - done.
  - split; [apply Hdone; left|].
    apply IH.
    + intros i j f' p' q' Hij Hi Hj. apply (Hnf (S i) (S j) f' p' q'); [lia|done..].
    + intros f' p' Hin Hf'.
      destruct (Qgeb p 100) eqn:Hp.
      * apply elem_of_union in Hf' as [Hf'|Hf'].
        -- apply elem_of_singleton in Hf' as ->.
           apply list_elem_of_lookup in Hin as [j Hj].
           apply (Hnf 0%nat (S j) f p p'); [lia|done|done|].
           by apply Qle_bool_iff in Hp.
        -- apply (Hdone f' p'); [by right|done].
      * apply (Hdone f' p'); [by right|done].
Qed.

Lemma update_file_progress_counts (self : BatchProgress) (full : gset string)
    (f : string) (p : Q) :
  counts self full -> (f ∈ full -> (100 <= p)%Q) ->
  counts (update_file_progress self f p)
         (if Qgeb p 100 then {[f]} ∪ full else full).
Proof.
  intros [Hdone Hcount] Hsteady. unfold counts.
  rewrite update_file_progress_completed, update_file_progress_map.
  destruct (Qgeb p 100) eqn:Hp.
  - assert (100 <= p)%Q as Hp' by by apply Qle_bool_iff in Hp.
    split.
    + intros f'. rewrite elem_of_union, elem_of_singleton.
      destruct (decide (f' = f)) as [->|Hne].
      * rewrite lookup_insert_eq. split; [eauto|by left].
      * rewrite lookup_insert_ne by done. rewrite <- Hdone. naive_solver.
    + destruct (decide (f ∈ full)) as [Hin|Hnin].
      * apply Hdone in Hin as Hq. destruct Hq as (q & -> & Hq). simpl.
        apply Qltb_ge in Hq. rewrite Hq. simpl.
        replace ({[f]} ∪ full) with full by set_solver. lia.
      * assert (Qltb (default 0%Q (file_progress self !! f)) 100 = true) as ->.
        { apply Qltb_lt. destruct (file_progress self !! f) as [q|] eqn:Hq; simpl.
          - apply Qnot_le_lt. intros Hle. apply Hnin, Hdone. eauto.
          - done. }
        simpl. rewrite size_union by set_solver. rewrite size_singleton. lia.
  - assert (~ (100 <= p)%Q) as Hp'.
    { intros Hle. apply Qle_bool_iff in Hle. unfold Qgeb in Hp. congruence. }
    rewrite andb_false_r. split; [|lia].
    intros f'. destruct (decide (f' = f)) as [->|Hne].
    + rewrite lookup_insert_eq. split; [intros Hin; by apply Hsteady in Hin|].
      intros (q & [= <-] & Hq). done.
    + rewrite lookup_insert_ne by done. apply Hdone.
Qed.

Lemma run_file_progress_counts (calls : list (string * Q)) (self : BatchProgress)
    (full : gset string) :
  counts self full -> steady full calls ->
  counts (run_file_progress self calls) (full ∪ finished calls).
Proof.
  revert self full. induction calls as [|[f p] calls IH]; intros self full Hc Hs.
  - simpl. by replace (full ∪ ∅) with full by set_solver.
  - simpl in *. destruct Hs as [Hf Hs].
    pose proof (update_file_progress_counts self full f p Hc Hf) as Hc'.
    specialize (IH _ _ Hc' Hs). 
    destruct (Qgeb p 100); simpl in *.
    + by replace (full ∪ ({[f]} ∪ finished calls))
        with ({[f]} ∪ full ∪ finished calls) by set_solver.
    + by replace (full ∪ (∅ ∪ finished calls))
        with (full ∪ finished calls) by set_solver.
Qed.

Lemma finished_reported (calls : list (string * Q)) :
  finished calls ⊆ reported calls.
Proof.
  unfold reported. induction calls as [|[f p] calls IH]; simpl; [done|].
  destruct (Qgeb p 100); set_solver.
Qed.

(** C7 (amended).  Along every sequence of [update_file_progress] calls the
    counter never decreases, and a call adds one to it exactly when the
    recorded percentage of its file (0 when there is none) is below 100 and
    the new one is at least 100.  When no file falls back below 100 after
    reaching it, a fresh [BatchProgress] counts each file once: the counter
    is the number of files reported at 100 or more, and it stays within
    [total_files] when the calls name at most [total_files] files. *)
Theorem completed_files_counts (self : BatchProgress)
    (calls : list (string * Q)) :
  completed_files self <= completed_files (run_file_progress self calls)
  /\ (forall f p,
        completed_files (update_file_progress self f p)
        = completed_files self
          + (if Qltb (default 0%Q (file_progress self !! f)) 100
                && Qgeb p 100 then 1 else 0))
  /\ (forall n, self = BatchProgress_init n -> no_fall_back calls ->
        completed_files (run_file_progress self calls)
        = Z.of_nat (size (finished calls))
        /\ (Z.of_nat (size (reported calls)) <= n ->
            completed_files (run_file_progress self calls)
            <= total_files (run_file_progress self calls))).
Proof.
  split; [apply run_file_progress_monotone|].
  split; [intros f p; apply update_file_progress_completed|].
  intros n -> Hnf.
  assert (counts (BatchProgress_init n) ∅) as Hinit.
  { split; [|done]. intros f. simpl. rewrite lookup_empty. set_solver. }
  assert (steady ∅ calls) as Hsteady.
  { apply no_fall_back_steady; [done|set_solver]. }
  destruct (run_file_progress_counts calls _ _ Hinit Hsteady) as [_ Hcount].
  replace (∅ ∪ finished calls) with (finished calls) in Hcount by set_solver.
  split; [done|]. intros Hn. rewrite Hcount.
  rewrite run_file_progress_total. simpl.
  pose proof (subseteq_size _ _ (finished_reported calls)). lia.
Qed.

Lemma progress_calls_no_fall_back : no_fall_back progress_calls.
Proof.
  intros i j f p q Hij Hi Hj Hp.
  destruct j as [|[|[|[|j]]]]; [lia| | | |done]; by injection Hj as <- <-.
Qed.

Lemma completed_files_counts_witness :
  no_fall_back progress_calls
  /\ completed_files (run_file_progress (BatchProgress_init 2) progress_calls)
     = Z.of_nat (size (finished progress_calls))
  /\ completed_files (run_file_progress (BatchProgress_init 2) progress_calls)
     <= total_files (run_file_progress (BatchProgress_init 2) progress_calls).
Proof.
  destruct (completed_files_counts (BatchProgress_init 2) progress_calls)
    as (_ & _ & Hfresh).
  destruct (Hfresh 2 eq_refl progress_calls_no_fall_back) as [Hcount Hbound].
  split; [exact progress_calls_no_fall_back|]. split; [exact Hcount|].
  apply Hbound. vm_compute. discriminate.
Defined.

(** ** Reasoning about stateful code *)

Lemma bind_run {A B} (m : M A) (f : A -> M B) (w : World) :
  (m ≫= f) w
  = match m w with
    | (Return a, w') => f a w'
    | (Raise e, w') => (Raise e, w')
    end.
Proof. reflexivity. Qed.

Lemma bind_return {A B} (m : M A) (f : A -> M B) (w w' : World) (a : A) :
  m w = (Return a, w') -> (m ≫= f) w = f a w'.
Proof. intros H. by rewrite bind_run, H. Qed.

Lemma bind_raise {A B} (m : M A) (f : A -> M B) (w w' : World) (e : PyExc) :
  m w = (Raise e, w') -> (m ≫= f) w = (Raise e, w').
Proof. intros H. by rewrite bind_run, H. Qed.

Lemma keeps_bind {B} (part : World -> B) {A C} (m : M A) (f : A -> M C) :
  keeps part m -> (forall a, keeps part (f a)) -> keeps part (m ≫= f).
Proof.
  intros Hm Hf w. rewrite bind_run. specialize (Hm w).
  destruct (m w) as [[a|e] w']; simpl in *; [|done].
  by rewrite Hf.
Qed.

Lemma keeps_try_catch {B} (part : World -> B) {A} (m : M A)
    (handler : PyExc -> M A) :
  keeps part m -> (forall e, keeps part (handler e)) ->
  keeps part (try_catch m handler).
Proof.
  intros Hm Hh w. unfold try_catch. specialize (Hm w).
  destruct (m w) as [[a|e] w']; simpl in *; [done|].
  by rewrite Hh.
Qed.

Lemma keeps_read_only {B} (part : World -> B) {A} (m : M A) :
  (forall w, (m w).2 = w) -> keeps part m.
Proof. intros H w. by rewrite H. Qed.

Lemma ensures_bind {A B} (Q : B -> Prop) (m : M A) (f : A -> M B) :
  (forall a, ensures Q (f a)) -> ensures Q (m ≫= f).
Proof.
  intros Hf w b w'. rewrite bind_run.
  destruct (m w) as [[a|e] w1]; [apply Hf|done].
Qed.

Lemma ensures_try_catch {A} (Q : A -> Prop) (m : M A) (handler : PyExc -> M A) :
  ensures Q m -> (forall e, ensures Q (handler e)) ->
  ensures Q (try_catch m handler).
Proof.
  intros Hm Hh w a w'. unfold try_catch.
  destruct (m w) as [[a'|e] w1] eqn:Hmw.
  - intros [= <- <-]. by eapply Hm.
  - apply Hh.
Qed.

(** Running the primitive operations of [M] in the goal. *)
Ltac run_M :=
  cbv [mbind M_bind mret M_ret get_world raise pass modify lift];
  simpl.

(** Decomposition of a computation along its binds, handlers and tests. *)
Ltac keeps_step :=
  match goal with
  | |- keeps _ (_ ≫= _) => apply keeps_bind; [|intros ?]
  | |- keeps _ (try_catch _ _) => apply keeps_try_catch; [|intros ?]
  | |- keeps _ (if ?b then _ else _) => destruct b
  | |- keeps _ (match ?x with _ => _ end) => destruct x
  | |- keeps _ _ => by (intros ?)
  end.

(** *** What each operation leaves alone *)

Lemma validate_input_file_read_only (path : string) (w : World) :
  (validate_input_file path w).2 = w.
Proof.
  revert w. change (keeps (fun w => w) (validate_input_file path)).
  unfold validate_input_file, path_exists, path_isfile, access_R_OK.
  repeat keeps_step.
Qed.

Lemma compressor_get_preset_read_only (self : VideoCompressor) (name : string)
    (w : World) :
  (compressor_get_preset self name w).2 = w.
Proof.
  revert w. change (keeps (fun w => w) (compressor_get_preset self name)).
  unfold compressor_get_preset, get_preset. repeat keeps_step.
Qed.

Lemma get_file_size_mb_read_only (path : string) (w : World) :
  (get_file_size_mb path w).2 = w.
Proof.
  revert w. change (keeps (fun w => w) (get_file_size_mb path)).
  unfold get_file_size_mb. repeat keeps_step.
Qed.

Section frames.
Context {B : Type} (part : World -> B).
Hypothesis part_fs : forall w f, part (set_fs w f) = part w.

Lemma os_remove_keeps (path : string) : keeps part (os_remove path).
Proof. intros w. unfold os_remove. case_match; simpl; [apply part_fs|done]. Qed.

Lemma os_makedirs_keeps (E : Env) (d : string) : keeps part (os_makedirs E d).
Proof. intros w. unfold os_makedirs. case_match; simpl; [apply part_fs|done]. Qed.

Lemma validate_output_path_keeps (E : Env) (path : string) :
  keeps part (validate_output_path E path).
Proof.
  unfold validate_output_path.
  repeat first [apply os_makedirs_keeps | keeps_step].
Qed.

Lemma compress_except_keeps (output_path : string) (e : PyExc) :
  keeps part (compress_except output_path e).
Proof.
  unfold compress_except. repeat first [apply os_remove_keeps | keeps_step].
Qed.
End frames.

(** The parts that neither the clock nor the sink nor the files touch. *)
Section run_frames.
Context {B : Type} (part : World -> B).
Hypothesis part_fs : forall w f, part (set_fs w f) = part w.
Hypothesis part_ticks : forall w n, part (set_ticks w n) = part w.
Hypothesis part_sink : forall w l, part (set_sink w l) = part w.

Lemma time_time_keeps (E : Env) : keeps part (time_time E).
Proof. intros w. apply part_ticks. Qed.

Lemma run_step_keeps (st : TrackerStep) : keeps part (run_step st).
Proof.
  intros w. unfold run_step. destruct (step_result st); apply part_sink.
Qed.

Lemma read_lines_keeps (E : Env) (lines : list string)
    (tracker : option ProgressTracker) :
  keeps part (read_lines E tracker lines).
Proof.
  revert tracker. induction lines as [|line lines IH]; intros tracker; simpl.
  - done.
  - apply keeps_bind; [|intros ?; apply IH].
    repeat first [apply time_time_keeps | apply run_step_keeps | keeps_step].
Qed.

(** The encoder once it is started, as [_run_ffmpeg] follows it. *)
Lemma encoder_keeps (E : Env) (tracker : option ProgressTracker)
    (run : FFmpegRun) :
  keeps part
    match run with
    | SpawnError => raise (mkExc OSError "cannot execute the encoder")
    | Ran stderr_lines return_code files_after =>
        modify (fun w => set_fs w files_after);;
        tracker ← read_lines E tracker stderr_lines;
        match tracker with
        | Some t => run_step (complete t);; pass
        | None => pass
        end;;
        if negb (return_code =? 0) then
          raise (mkExc CompressionFailedError
                   ("FFmpeg failed with return code " +:+ pretty return_code
                    +:+ ". Error: "))
        else pass
    end.
Proof.
  repeat first [apply run_step_keeps | apply read_lines_keeps
               | (intros w; apply part_fs) | keeps_step].
Qed.

(** The parts that starting a process does not touch either: the heap of
    preset objects and the table of presets. *)
Hypothesis part_spawned : forall w l, part (set_spawned w l) = part w.

Lemma spawn_keeps (cmd : list string) : keeps part (spawn cmd).
Proof. intros w. apply part_spawned. Qed.

Lemma from_file_keeps (E : Env) (path : string) :
  keeps part (from_file E path).
Proof.
  unfold from_file. apply keeps_bind; [|intros ?].
  { apply keeps_read_only, validate_input_file_read_only. }
  repeat first [apply spawn_keeps | keeps_step].
Qed.

Lemma _run_ffmpeg_keeps (E : Env) (cmd : list string) (video_info : VideoInfo)
    (file : string) (progress_callback : bool) :
  keeps part (_run_ffmpeg E cmd video_info file progress_callback).
Proof.
  unfold _run_ffmpeg.
  repeat first [apply time_time_keeps | apply spawn_keeps
               | apply encoder_keeps | keeps_step].
Qed.

Lemma compress_try_keeps (E : Env) (self : VideoCompressor)
    (input_path output_path : string) (preset_config : nat)
    (preserve_alpha progress_callback : bool) (custom_options : CustomOptions)
    (video_info : VideoInfo) (input_size : Q) :
  keeps part (compress_try E self input_path output_path preset_config
                preserve_alpha progress_callback custom_options video_info
                input_size).
Proof.
  unfold compress_try.
  repeat first [apply _run_ffmpeg_keeps
               | apply keeps_read_only, get_file_size_mb_read_only
               | keeps_step].
Qed.
End run_frames.

(** [compress_validate] starts no process. *)
Lemma compress_validate_keeps_spawned (E : Env) (self : VideoCompressor)
    (input_path output_path preset : string) (codec_arg : option string)
    (preserve_alpha : bool) :
  keeps spawned (compress_validate E self input_path output_path preset
                                   codec_arg preserve_alpha).
Proof.
  unfold compress_validate.
  repeat first [apply keeps_read_only, validate_input_file_read_only
               | apply keeps_read_only, compressor_get_preset_read_only
               | by apply validate_output_path_keeps
               | keeps_step].
Qed.

(** ** The checks of [compress] *)

Lemma compressor_get_preset_lookup (self : VideoCompressor) (w : World)
    (name : string) (l : nat) :
  lookup_preset self w name = Some l ->
  compressor_get_preset self name w = (Return l, w).
Proof.
  unfold lookup_preset, compressor_get_preset, get_preset.
  destruct (custom_presets self !! name); [by intros [= ->]|].
  intros H. rewrite bind_run. simpl. by rewrite H.
Qed.

(** A validation that returns leaves a world [w'] with the same presets. *)
Lemma validated (E : Env) (input_path output_path : string) (w : World) :
  returns (validate_input_file input_path w).1 ->
  returns (validate_output_path E output_path w).1 ->
  exists w', validate_input_file input_path w = (Return (), w)
             /\ validate_output_path E output_path w = (Return (), w')
             /\ heap w' = heap w /\ PRESETS w' = PRESETS w
             /\ spawned w' = spawned w.
Proof.
  intros Hin Hout.
  destruct (validate_input_file input_path w) as [[[]|?] w1] eqn:H1; [|done].
  pose proof (validate_input_file_read_only input_path w) as Hw1.
  rewrite H1 in Hw1. simpl in Hw1. subst w1.
  destruct (validate_output_path E output_path w) as [[[]|?] w2] eqn:H2;
    [|done].
  exists w2. split; [done|]. split; [done|].
  pose proof (validate_output_path_keeps heap (fun _ _ => eq_refl) E
                output_path w) as Hheap.
  pose proof (validate_output_path_keeps PRESETS (fun _ _ => eq_refl) E
                output_path w) as Hpresets.
  pose proof (validate_output_path_keeps spawned (fun _ _ => eq_refl) E
                output_path w) as Hspawned.
  by rewrite H2 in Hheap, Hpresets, Hspawned.
Qed.

(** [compress_validate] once the files are validated and the preset is
    found: the override writes into the preset object, then comes the check
    of the alpha request. *)
Lemma compress_validate_run (E : Env) (self : VideoCompressor)
    (input_path output_path preset : string) (codec_arg : option string)
    (preserve_alpha : bool) (w w' : World) (l : nat) :
  validate_input_file input_path w = (Return (), w) ->
  validate_output_path E output_path w = (Return (), w') ->
  lookup_preset self w' preset = Some l ->
  compress_validate E self input_path output_path preset codec_arg
                    preserve_alpha w
  = match codec_arg with
    | Some c =>
        if bool_decide (c = "") then alpha_check preserve_alpha l w'
        else if bool_decide (c = "vp8") || bool_decide (c = "vp9") then
          alpha_check preserve_alpha l
            (set_heap w' (<[l := set_codec (heap w' l) c]> (heap w')))
        else (Raise (mkExc InvalidCodecError ("Invalid codec: " +:+ c)), w')
    | None => alpha_check preserve_alpha l w'
    end.
Proof.
  intros H1 H2 Hl. unfold compress_validate, alpha_check.
  rewrite (bind_return _ _ _ _ _ H1), (bind_return _ _ _ _ _ H2).
  rewrite (bind_return _ _ _ _ _ (compressor_get_preset_lookup _ _ _ _ Hl)).
  destruct codec_arg as [c|].
  - destruct (bool_decide (c = "")); simpl.
    + run_M. by destruct (_ && _).
    + destruct (bool_decide (c = "vp8") || bool_decide (c = "vp9")); simpl;
        run_M; [by destruct (_ && _)|done].
  - run_M. by destruct (_ && _).
Qed.

(** C5 (the claim as stated fails).  A request for alpha on the VP8 preset
    whose input file does not exist fails with [InvalidInputFileError]: the
    file checks come before the check of the codec. *)
Lemma alpha_request_on_missing_input :
  let r := (compress (demo_env 0 partial_output) demo_compressor
              "/in/missing.mp4" "/out/a.webm" "vp8-legacy" None true false
              no_options demo_world).1 in
  lookup_preset demo_compressor demo_world "vp8-legacy" = Some 4%nat
  /\ requested_codec None (codec (heap demo_world 4)) = "vp8"
  /\ raises r InvalidInputFileError
  /\ ~ raises r AlphaChannelNotSupportedError.
Proof.
  vm_compute. split; [done|]. split; [done|]. split; [done|]. discriminate.
Qed.

(** The checks of the preset and of the codec come before the check of the
    alpha request as well: with files that pass their checks, a name that
    denotes no preset fails with [InvalidPresetError], and an override that
    is neither [vp8] nor [vp9] with [InvalidCodecError], whether alpha is
    requested or not, and before any process is started. *)
Lemma unknown_preset_first (E : Env) (self : VideoCompressor)
    (input_path output_path preset : string) (codec_arg : option string)
    (preserve_alpha progress_callback : bool) (custom_options : CustomOptions)
    (w : World) :
  returns (validate_input_file input_path w).1 ->
  returns (validate_output_path E output_path w).1 ->
  lookup_preset self w preset = None ->
  exists e w',
    compress E self input_path output_path preset codec_arg preserve_alpha
             progress_callback custom_options w = (Raise e, w')
    /\ exc_cls e = InvalidPresetError /\ spawned w' = spawned w.
Proof.
  intros Hin Hout Hl.
  destruct (validated E input_path output_path w Hin Hout)
    as (w2 & H1 & H2 & Hheap & Hpresets & Hspawned).
  eexists _, w2. split; [|split; [|done]].
  - unfold compress, compress_validate.
    rewrite bind_run, bind_run, H1, bind_run, H2, bind_run.
    unfold lookup_preset in Hl. unfold compressor_get_preset, get_preset.
    destruct (custom_presets self !! preset); [done|].
    rewrite bind_run. simpl. rewrite Hpresets, Hl. reflexivity.
  - done.
Qed.

Lemma invalid_codec_first (E : Env) (self : VideoCompressor)
    (input_path output_path preset c : string)
    (preserve_alpha progress_callback : bool) (custom_options : CustomOptions)
    (w : World) (l : nat) :
  returns (validate_input_file input_path w).1 ->
  returns (validate_output_path E output_path w).1 ->
  lookup_preset self w preset = Some l ->
  ~ accepted_override (Some c) ->
  exists w',
    compress E self input_path output_path preset (Some c) preserve_alpha
             progress_callback custom_options w
    = (Raise (mkExc InvalidCodecError ("Invalid codec: " +:+ c)), w')
    /\ spawned w' = spawned w.
Proof.
  intros Hin Hout Hl Hc.
  destruct (validated E input_path output_path w Hin Hout)
    as (w2 & H1 & H2 & Hheap & Hpresets & Hspawned).
  assert (lookup_preset self w2 preset = Some l) as Hl2.
  { unfold lookup_preset in *. by rewrite Hpresets. }
  pose proof (compress_validate_run E self input_path output_path preset
                (Some c) preserve_alpha w w2 l H1 H2 Hl2) as Hv.
  simpl in Hc. cbv beta iota in Hv.
  rewrite !bool_decide_eq_false_2 in Hv by tauto.
  exists w2. split; [|done].
  unfold compress. by rewrite (bind_raise _ _ _ _ _ Hv).
Qed.

(** C5 (amended).  When the input file and the output path pass their
    validation, the preset name denotes a preset and the override of the
    codec, if there is one, is [vp8] or [vp9], a request for alpha whose
    codec -- the override, else the codec of the preset -- is not vp9 fails
    with [AlphaChannelNotSupportedError], whatever the other options, and no
    external process has been started when it fails. *)
Theorem alpha_unsupported (E : Env) (self : VideoCompressor)
    (input_path output_path preset : string) (codec_arg : option string)
    (progress_callback : bool) (custom_options : CustomOptions) (w : World)
    (l : nat) :
  returns (validate_input_file input_path w).1 ->
  returns (validate_output_path E output_path w).1 ->
  lookup_preset self w preset = Some l ->
  accepted_override codec_arg ->
  requested_codec codec_arg (codec (heap w l)) <> "vp9" ->
  exists w',
    compress E self input_path output_path preset codec_arg true
             progress_callback custom_options w
    = (Raise (AlphaChannelNotSupported
                (requested_codec codec_arg (codec (heap w l)))), w')
    /\ spawned w' = spawned w.
Proof.
  intros Hin Hout Hl Hok Hc.
  destruct (validated E input_path output_path w Hin Hout)
    as (w2 & H1 & H2 & Hheap & Hpresets & Hspawned).
  assert (lookup_preset self w2 preset = Some l) as Hl2.
  { unfold lookup_preset in *. by rewrite Hpresets. }
  pose proof (compress_validate_run E self input_path output_path preset
                codec_arg true w w2 l H1 H2 Hl2) as Hv.
  assert (exists w', compress_validate E self input_path output_path preset
                       codec_arg true w
                     = (Raise (AlphaChannelNotSupported
                                 (requested_codec codec_arg
                                    (codec (heap w l)))), w')
                     /\ spawned w' = spawned w) as (w' & Hv' & Hs).
  { rewrite Hv. unfold alpha_check, requested_codec in *.
    destruct codec_arg as [c'|].
    - destruct (bool_decide_reflect (c' = "")) as [Hempty|Hempty].
      + rewrite Hheap. rewrite bool_decide_eq_false_2 by done. simpl. eauto.
      + assert (bool_decide (c' = "vp8") || bool_decide (c' = "vp9") = true)
          as ->.
        { simpl in Hok. destruct Hok as [?|[->| ->]]; [done|done|].
          apply orb_true_r. }
        simpl. rewrite fn_lookup_insert. simpl.
        rewrite bool_decide_eq_false_2 by done. simpl. eauto.
    - rewrite Hheap. rewrite bool_decide_eq_false_2 by done. simpl. eauto. }
  exists w'. split; [|done].
  unfold compress. by rewrite (bind_raise _ _ _ _ _ Hv').
Qed.

Lemma alpha_unsupported_witness :
  exists w',
    compress (demo_env 0 partial_output) demo_compressor "/in/a.mp4"
             "/out/a.webm" "web" (Some "vp8") true true no_options demo_world
    = (Raise (AlphaChannelNotSupported "vp8"), w')
    /\ spawned w' = spawned demo_world.
Proof.
  apply (alpha_unsupported (demo_env 0 partial_output) demo_compressor
           "/in/a.mp4" "/out/a.webm" "web" (Some "vp8") true no_options
           demo_world 0%nat).
  - by vm_compute.
  - by vm_compute.
  - reflexivity.
  - simpl. tauto.
  - discriminate.
Defined.

(** ** The preset objects across calls *)

(** After its checks, [compress] leaves the preset objects and the table of
    presets alone. *)
Lemma compress_after_validate {B} (part : World -> B) (E : Env)
    (self : VideoCompressor) (input_path output_path preset : string)
    (codec_arg : option string) (preserve_alpha progress_callback : bool)
    (custom_options : CustomOptions) (w : World) :
  (forall w f, part (set_fs w f) = part w) ->
  (forall w n, part (set_ticks w n) = part w) ->
  (forall w l, part (set_sink w l) = part w) ->
  (forall w l, part (set_spawned w l) = part w) ->
  part (compress E self input_path output_path preset codec_arg preserve_alpha
                 progress_callback custom_options w).2
  = part (compress_validate E self input_path output_path preset codec_arg
                            preserve_alpha w).2.
Proof.
  intros Hfs Hticks Hsink Hspawned. unfold compress. rewrite bind_run.
  destruct (compress_validate _ _ _ _ _ _ _ w) as [[l|e] w1]; [|done].
  simpl.
  match goal with |- part (?m w1).2 = _ => assert (keeps part m) as Hk end.
  { repeat first [by apply from_file_keeps
                 | apply keeps_read_only, get_file_size_mb_read_only
                 | by apply compress_try_keeps
                 | by apply compress_except_keeps
                 | keeps_step]. }
  apply Hk.
Qed.

Lemma compress_validate_keeps_PRESETS (E : Env) (self : VideoCompressor)
    (input_path output_path preset : string) (codec_arg : option string)
    (preserve_alpha : bool) :
  keeps PRESETS (compress_validate E self input_path output_path preset
                                   codec_arg preserve_alpha).
Proof.
  unfold compress_validate.
  repeat first [apply keeps_read_only, validate_input_file_read_only
               | apply keeps_read_only, compressor_get_preset_read_only
               | by apply validate_output_path_keeps
               | keeps_step].
Qed.

(** Without a codec argument the checks write nothing into the heap. *)
Lemma compress_validate_keeps_heap (E : Env) (self : VideoCompressor)
    (input_path output_path preset : string) (preserve_alpha : bool) :
  keeps heap (compress_validate E self input_path output_path preset None
                                preserve_alpha).
Proof.
  unfold compress_validate.
  repeat first [apply keeps_read_only, validate_input_file_read_only
               | apply keeps_read_only, compressor_get_preset_read_only
               | by apply validate_output_path_keeps
               | keeps_step].
Qed.

Lemma run_call_keeps_PRESETS (E : Env) (self : VideoCompressor)
    (k : CompressCall) (w : World) :
  PRESETS (run_call E self k w).2 = PRESETS w.
Proof.
  unfold run_call. rewrite (compress_after_validate PRESETS) by done.
  apply compress_validate_keeps_PRESETS.
Qed.

Lemma run_call_keeps_heap (E : Env) (self : VideoCompressor)
    (k : CompressCall) (w : World) :
  call_codec k = None -> heap (run_call E self k w).2 = heap w.
Proof.
  intros Hk. unfold run_call. rewrite (compress_after_validate heap) by done.
  rewrite Hk. apply compress_validate_keeps_heap.
Qed.

Lemma run_calls_keeps (E : Env) (self : VideoCompressor)
    (calls : list CompressCall) (w : World) :
  Forall (fun k => call_codec k = None) calls ->
  heap (run_calls E self calls w) = heap w
  /\ PRESETS (run_calls E self calls w) = PRESETS w.
Proof.
  intros Hcalls. revert w.
  induction Hcalls as [|k calls Hk _ IH]; intros w; simpl; [done|].
  destruct (IH (run_call E self k w).2) as [-> ->].
  by rewrite run_call_keeps_heap, run_call_keeps_PRESETS.
Qed.

(** *** The processes that a call starts *)

Lemma from_file_spawned (E : Env) (path : string) (w : World) :
  exists extra,
    spawned (from_file E path w).2 = spawned w ++ extra
    /\ (length extra <= 1)%nat
    /\ (returns (from_file E path w).1 -> length extra = 1%nat).
Proof.
  unfold from_file. rewrite bind_run.
  pose proof (validate_input_file_read_only path w) as Hw.
  destruct (validate_input_file path w) as [[[]|?] w1]; simpl in Hw; subst w1.
  2: { exists []. rewrite app_nil_r. simpl. split; [done|]. split; [lia|done]. }
  unfold lift. rewrite bind_run.
  destruct (find_ffprobe E) as [ffprobe_path|?].
  2: { exists []. rewrite app_nil_r. simpl. split; [done|]. split; [lia|done]. }
  eexists [_]. run_M. unfold spawn. run_M.
  split; [|split; [simpl; lia|done]].
  by destruct (ffprobe E _ _).
Qed.

Lemma _run_ffmpeg_spawned (E : Env) (cmd : list string) (video_info : VideoInfo)
    (file : string) (progress_callback : bool) (w : World) :
  spawned (_run_ffmpeg E cmd video_info file progress_callback w).2
  = spawned w ++ [cmd].
Proof.
  unfold _run_ffmpeg. rewrite bind_run.
  match goal with |- context [(if progress_callback then ?a else ?b) w] =>
    assert (exists t w0, (if progress_callback then a else b) w = (Return t, w0)
                         /\ spawned w0 = spawned w) as (t & w0 & -> & <-)
  end.
  { destruct progress_callback; run_M; unfold time_time; simpl; eauto. }
  rewrite bind_run. unfold spawn at 1. simpl.
  match goal with |- spawned (?m ?w1).2 = _ =>
    assert (keeps spawned m) as Hk
  end.
  { apply keeps_bind; [done|]. intros w'. by apply encoder_keeps. }
  by rewrite Hk.
Qed.

(** A call that starts two processes has passed its checks, and the second
    process is the encoder, with the command built from the preset object
    as the checks left it. *)
Lemma compress_spawned (E : Env) (self : VideoCompressor)
    (input_path output_path preset : string) (codec_arg : option string)
    (preserve_alpha progress_callback : bool) (custom_options : CustomOptions)
    (w : World) (probe cmd : list string) :
  spawned (compress E self input_path output_path preset codec_arg
             preserve_alpha progress_callback custom_options w).2
  = spawned w ++ [probe; cmd] ->
  exists l w1 video_info,
    compress_validate E self input_path output_path preset codec_arg
                      preserve_alpha w = (Return l, w1)
    /\ cmd = _build_command self input_path output_path (heap w1 l)
                            preserve_alpha video_info custom_options.
Proof.
  unfold compress. rewrite bind_run.
  pose proof (compress_validate_keeps_spawned E self input_path output_path
                preset codec_arg preserve_alpha w) as Hv.
  destruct (compress_validate _ _ _ _ _ _ _ w) as [[l|e] w1]; simpl in Hv.
  2: { simpl. rewrite Hv. intros H. apply (f_equal length) in H.
       rewrite length_app in H. simpl in H. lia. }
  rewrite bind_run.
  destruct (from_file_spawned E input_path w1) as (extra & Hextra & Hlen & Hret).
  assert (keeps heap (from_file E input_path)) as Hheap
    by by apply from_file_keeps.
  specialize (Hheap w1).
  destruct (from_file E input_path w1) as [[video_info|e] w2];
    simpl in Hextra, Hret, Hheap.
  2: { simpl. rewrite Hextra, Hv. intros H. apply (f_equal length) in H.
       rewrite !length_app in H. simpl in H. lia. }
  rewrite bind_run.
  pose proof (get_file_size_mb_read_only input_path w2) as Hsize.
  destruct (get_file_size_mb input_path w2) as [[input_size|e] w3];
    simpl in Hsize; subst w3.
  2: { simpl. rewrite Hextra, Hv. intros H. apply (f_equal length) in H.
       rewrite !length_app in H. simpl in H. lia. }
  intros Hspawned. exists l, w1, video_info. split; [done|].
  assert (spawned
            (compress_try E self input_path output_path l preserve_alpha
               progress_callback custom_options video_info input_size w2).2
          = spawned w2
            ++ [_build_command self input_path output_path (heap w2 l)
                  preserve_alpha video_info custom_options]) as Htry.
  { unfold compress_try. rewrite bind_run. simpl. rewrite bind_run.
    pose proof (_run_ffmpeg_spawned E
      (_build_command self input_path output_path (heap w2 l) preserve_alpha
         video_info custom_options)
      video_info (path_basename E input_path) progress_callback w2) as Hrun.
    destruct (_run_ffmpeg _ _ _ _ _ w2) as [[[]|e] w3]; simpl in Hrun; [|done].
    rewrite bind_run.
    pose proof (get_file_size_mb_read_only output_path w3) as Hsize.
    by destruct (get_file_size_mb output_path w3) as [[?|?] w4];
      simpl in Hsize; subst w4. }
  unfold try_catch in Hspawned.
  destruct (compress_try _ _ _ _ _ _ _ _ _ _ w2) as [[r|e] w3];
    simpl in Htry.
  2: { assert (keeps spawned (compress_except output_path e)) as Hexc
         by by apply compress_except_keeps.
       rewrite Hexc in Hspawned.
       rewrite Htry, Hextra, Hv in Hspawned.
       destruct extra as [|probe' [|]]; simpl in Hlen; [by specialize (Hret I)| |lia].
       rewrite <- app_assoc in Hspawned. simpl in Hspawned.
       apply app_inv_head in Hspawned. injection Hspawned as _ <-.
       by rewrite Hheap. }
  simpl in Hspawned. rewrite Htry, Hextra, Hv in Hspawned.
  destruct extra as [|probe' [|]]; simpl in Hlen; [by specialize (Hret I)| |lia].
  rewrite <- app_assoc in Hspawned. simpl in Hspawned.
  apply app_inv_head in Hspawned. injection Hspawned as _ <-.
  by rewrite Hheap.
Qed.

Lemma compressor_get_preset_returns (self : VideoCompressor) (name : string)
    (w w' : World) (l : nat) :
  compressor_get_preset self name w = (Return l, w') ->
  lookup_preset self w name = Some l.
Proof.
  unfold lookup_preset, compressor_get_preset, get_preset.
  destruct (custom_presets self !! name); [by intros [= -> _]|].
  rewrite bind_run. simpl. destruct (PRESETS w !! name); [|done].
  by intros [= -> _].
Qed.

(** The reference that the checks return is the one that the name denotes. *)
Lemma compress_validate_returns (E : Env) (self : VideoCompressor)
    (input_path output_path preset : string) (codec_arg : option string)
    (preserve_alpha : bool) (w w' : World) (l : nat) :
  compress_validate E self input_path output_path preset codec_arg
                    preserve_alpha w = (Return l, w') ->
  lookup_preset self w preset = Some l.
Proof.
  unfold compress_validate. rewrite bind_run.
  pose proof (validate_input_file_read_only input_path w) as Hw.
  destruct (validate_input_file input_path w) as [[[]|?] w1]; [|done].
  simpl in Hw. subst w1. rewrite bind_run.
  assert (keeps PRESETS (validate_output_path E output_path)) as Hp
    by by apply validate_output_path_keeps.
  specialize (Hp w).
  destruct (validate_output_path E output_path w) as [[[]|?] w2]; [|done].
  simpl in Hp. rewrite bind_run.
  destruct (compressor_get_preset self preset w2) as [[l0|?] w3] eqn:Hget;
    [|done].
  apply compressor_get_preset_returns in Hget.
  assert (lookup_preset self w preset = Some l0) as ->.
  { unfold lookup_preset in *. by rewrite <- Hp. }
  destruct codec_arg as [c|]; run_M.
  - destruct (negb (bool_decide (c = ""))); simpl.
    + destruct (negb (bool_decide (c = "vp8") || bool_decide (c = "vp9")));
        simpl; [done|].
      destruct (_ && _); simpl; [done|]. by intros [= -> _].
    + destruct (_ && _); simpl; [done|]. by intros [= -> _].
  - destruct (_ && _); simpl; [done|]. by intros [= -> _].
Qed.

(** C9.  A [compress] call with a codec override that passes the file
    checks writes the codec into the preset object that the name denotes --
    the object of the table itself -- whatever the outcome of the call.
    The object keeps it through every later call without a codec argument,
    and such a call naming the preset builds the command of its encoder from
    the overridden codec. *)
Theorem codec_override_persists (E : Env) (self : VideoCompressor)
    (input_path output_path preset c : string)
    (preserve_alpha progress_callback : bool) (custom_options : CustomOptions)
    (w : World) (l : nat) (calls : list CompressCall) (later : CompressCall) :
  returns (validate_input_file input_path w).1 ->
  returns (validate_output_path E output_path w).1 ->
  lookup_preset self w preset = Some l ->
  c = "vp8" \/ c = "vp9" ->
  Forall (fun k => call_codec k = None) calls ->
  call_preset later = preset ->
  call_codec later = None ->
  let w1 := (compress E self input_path output_path preset (Some c)
                      preserve_alpha progress_callback custom_options w).2 in
  let w2 := run_calls E self calls w1 in
  let w3 := (run_call E self later w2).2 in
  heap w1 = <[l := set_codec (heap w l) c]> (heap w)
  /\ lookup_preset self w1 preset = Some l
  /\ codec (heap w2 l) = c
  /\ effective_codec self w2 preset None = Some c
  /\ (forall probe cmd,
        spawned w3 = spawned w2 ++ [probe; cmd] ->
        exists video_info,
          cmd = _build_command self (call_input later) (call_output later)
                  (set_codec (heap w l) c) (call_alpha later) video_info
                  (call_options later)).
Proof.
  intros Hin Hout Hl Hc Hcalls Hpreset Hcodec w1 w2 w3.
  destruct (validated E input_path output_path w Hin Hout)
    as (w' & H1 & H2 & Hheap & Hpresets & _).
  assert (lookup_preset self w' preset = Some l) as Hl'.
  { unfold lookup_preset in *. by rewrite Hpresets. }
  assert (heap w1 = <[l := set_codec (heap w l) c]> (heap w)) as Hw1.
  { unfold w1. rewrite (compress_after_validate heap) by done.
    rewrite (compress_validate_run E self input_path output_path preset
               (Some c) preserve_alpha w w' l H1 H2 Hl').
    assert (bool_decide (c = "") = false) as ->.
    { apply bool_decide_eq_false_2. by destruct Hc as [-> | ->]. }
    assert (bool_decide (c = "vp8") || bool_decide (c = "vp9") = true) as ->.
    { destruct Hc as [-> | ->]; by vm_compute. }
    unfold alpha_check. rewrite <- Hheap. by destruct (_ && _). }
  assert (PRESETS w1 = PRESETS w) as Hp1.
  { unfold w1. rewrite (compress_after_validate PRESETS) by done.
    apply compress_validate_keeps_PRESETS. }
  destruct (run_calls_keeps E self calls w1 Hcalls) as [Hheap2 Hp2].
  fold w2 in Hheap2, Hp2.
  assert (lookup_preset self w1 preset = Some l) as Hl1.
  { unfold lookup_preset in *. by rewrite Hp1. }
  assert (lookup_preset self w2 preset = Some l) as Hl2.
  { unfold lookup_preset in *. by rewrite Hp2, Hp1. }
  assert (heap w2 l = set_codec (heap w l) c) as Hobj.
  { by rewrite Hheap2, Hw1, fn_lookup_insert. }
  split; [done|]. split; [done|]. split; [by rewrite Hobj|].
  split; [unfold effective_codec; rewrite Hl2; simpl; by rewrite Hobj|].
  intros probe cmd Hspawned. unfold w3, run_call in Hspawned.
  apply compress_spawned in Hspawned as (l' & w4 & video_info & Hv & ->).
  exists video_info. rewrite Hcodec, Hpreset in Hv.
  pose proof (compress_validate_returns _ _ _ _ _ _ _ _ _ _ Hv) as Hl4.
  rewrite Hl2 in Hl4. injection Hl4 as <-.
  pose proof (compress_validate_keeps_heap E self (call_input later)
                (call_output later) preset (call_alpha later) w2) as Hk.
  rewrite Hv in Hk. simpl in Hk. by rewrite Hk, Hobj.
Qed.

Lemma codec_override_persists_witness :
  let E := demo_env 0 partial_output in
  let w1 := (run_call E demo_compressor call_web_vp8 demo_world).2 in
  let w2 := run_calls E demo_compressor [call_web] w1 in
  heap w1 = <[0%nat := set_codec preset_web "vp8"]> (heap demo_world)
  /\ codec (heap w2 0%nat) = "vp8"
  /\ effective_codec demo_compressor w2 "web" None = Some "vp8".
Proof.
  intros E w1 w2.
  destruct (codec_override_persists E demo_compressor "/in/a.mp4"
              "/out/a.webm" "web" "vp8" false false no_options demo_world
              0%nat [call_web] call_web)
    as (Hheap & _ & Hcodec & Heff & _);
    [exact I|exact I|reflexivity|by left
    |by repeat constructor|reflexivity|reflexivity|].
  repeat split; assumption.
Defined.

(** ** The command of the encoder *)

(** C2 (the code against the claim).  On one compressor, the call
    [compress(preset='web')] builds the VP9 command; after a call with
    [codec='vp8'] on the same preset, the same call with the same arguments
    and the same metadata builds the VP8 command: the order and the values
    of the arguments depend on the calls made before. *)
Theorem build_command_depends_on_history :
  let E := demo_env 0 partial_output in
  let w1 := (run_call E demo_compressor call_web demo_world).2 in
  let w2 := (run_call E demo_compressor call_web_vp8 w1).2 in
  let w3 := (run_call E demo_compressor call_web w2).2 in
  spawned w1 = [probe_command; command_web_vp9]
  /\ spawned w3 = spawned w2 ++ [probe_command; command_web_vp8]
  /\ command_web_vp9 <> command_web_vp8
  /\ returns (run_call E demo_compressor call_web demo_world).1
  /\ returns (run_call E demo_compressor call_web w2).1.
Proof.
  vm_compute. split; [reflexivity|]. split; [reflexivity|].
  split; [discriminate|]. split; exact I.
Qed.

(** ** Failures and the partial output *)

(** The handler of [compress]: it removes the output when it exists and can
    be removed, swallows the failure of the removal, and raises a
    [CompressionFailedError]. *)
Lemma compress_except_run (output_path : string) (e : PyExc) (w : World) :
  compress_except output_path e w
  = (Raise (if isinstance e CompressionFailedError then e
            else mkExc CompressionFailedError
                       ("Compression failed: " +:+ exc_str e)),
     match fs w !! output_path with
     | Some n =>
         if unlinkable n then set_fs w (delete output_path (fs w)) else w
     | None => w
     end).
Proof.
  unfold compress_except, path_exists, try_catch, os_remove. run_M.
  destruct (fs w !! output_path) as [n|] eqn:Hn; simpl.
  - rewrite Hn. simpl.
    destruct (unlinkable n); simpl; by destruct (isinstance e _).
  - by destruct (isinstance e _).
Qed.





(** ** The batch *)

(** What [compress] returns is a success that carries the paths of the
    call. *)
Lemma compress_returns (E : Env) (self : VideoCompressor)
    (input output preset : string) (codec_arg : option string)
    (preserve_alpha progress_callback : bool) (custom_options : CustomOptions) :
  ensures (fun r => success r = true /\ input_path r = input
                    /\ output_path r = output)
    (compress E self input output preset codec_arg preserve_alpha
              progress_callback custom_options).
Proof.
  unfold compress.
  apply ensures_bind; intros l. apply ensures_bind; intros video_info.
  apply ensures_bind; intros input_size. apply ensures_try_catch.
  - unfold compress_try. apply ensures_bind; intros w.
    apply ensures_bind; intros []. apply ensures_bind; intros output_size.
    by intros w0 r w1 [= <- _].
  - intros e w r w'. by rewrite compress_except_run.
Qed.

(** The per-job boundary: [_compress_single] never raises. *)
Lemma _compress_single_returns (E : Env) (self : BatchCompressor)
    (input output preset : string) (codec_arg : option string)
    (preserve_alpha progress_callback : bool) (kwargs : CustomOptions)
    (w : World) :
  exists r w',
    _compress_single E self input output preset codec_arg preserve_alpha
                     progress_callback kwargs w = (Return r, w')
    /\ input_path r = input /\ output_path r = output
    /\ match (compress E (compressor self) input output preset codec_arg
                       preserve_alpha progress_callback kwargs w).1 with
       | Return r' => r = r'
       | Raise e => r = failed_result input output e
       end.
Proof.
  unfold _compress_single, try_catch.
  destruct (compress _ _ _ _ _ _ _ _ _ w) as [[r|e] w'] eqn:Hc.
  - exists r, w'. apply compress_returns in Hc as (_ & ? & ?). done.
  - by exists (failed_result input output e), w'.
Qed.

(** The per-job boundary, as a function of what [compress] does. *)
Lemma _compress_single_run (E : Env) (self : BatchCompressor)
    (input output preset : string) (codec_arg : option string)
    (preserve_alpha progress_callback : bool) (kwargs : CustomOptions)
    (w : World) :
  _compress_single E self input output preset codec_arg preserve_alpha
                   progress_callback kwargs w
  = (Return match (compress E (compressor self) input output preset codec_arg
                     preserve_alpha progress_callback kwargs w).1 with
            | Return r => r
            | Raise e => failed_result input output e
            end,
     (compress E (compressor self) input output preset codec_arg
        preserve_alpha progress_callback kwargs w).2).
Proof.
  unfold _compress_single, try_catch.
  by destruct (compress _ _ _ _ _ _ _ _ _ w) as [[r|e] w'].
Qed.


(** The collection loop gives the results of the runs of the jobs, in the
    order in which they complete, and leaves the world of the last one. *)
Lemma collect_runs (E : Env) (self : BatchCompressor)
    (file_pairs : list (string * string)) (preset : string)
    (codec_arg : option string) (preserve_alpha progress_callback : bool)
    (kwargs : CustomOptions) (order : list nat)
    (results : list CompressionResult) (w : World) :
  collect E self file_pairs preset codec_arg preserve_alpha progress_callback
          kwargs order results w
  = (Return (results
             ++ (job_result
                   <$> batch_runs E (compressor self) file_pairs preset
                         codec_arg preserve_alpha progress_callback kwargs
                         order w)),
     batch_end w (batch_runs E (compressor self) file_pairs preset codec_arg
                    preserve_alpha progress_callback kwargs order w)).
Proof.
  revert results w. induction order as [|i order IH]; intros results w; simpl.
  - by rewrite app_nil_r.
  - destruct (file_pairs !! i) as [[input output]|]; [|apply IH].
    rewrite bind_run. unfold try_catch at 1.
    rewrite _compress_single_run, IH, <- app_assoc. done.
Qed.

(** Each run of a batch is the run of [compress] on its pair, and the runs
    follow each other. *)
Lemma batch_runs_jobs (E : Env) (self : VideoCompressor)
    (file_pairs : list (string * string)) (preset : string)
    (codec_arg : option string) (preserve_alpha progress_callback : bool)
    (kwargs : CustomOptions) (order : list nat) (w : World) :
  Forall (fun j =>
            file_pairs !! job_index j = Some (job_input j, job_output j)
            /\ compress E self (job_input j) (job_output j) preset codec_arg
                 preserve_alpha progress_callback kwargs (job_before j)
               = (job_outcome j, job_after j))
         (batch_runs E self file_pairs preset codec_arg preserve_alpha
                     progress_callback kwargs order w)
  /\ linked w (batch_runs E self file_pairs preset codec_arg preserve_alpha
                          progress_callback kwargs order w).
Proof.
  revert w. induction order as [|i order IH]; intros w; simpl.
  - split; [constructor|done].
  - destruct (file_pairs !! i) as [[input output]|] eqn:Hpair; [|apply IH].
    destruct (IH (compress E self input output preset codec_arg
                    preserve_alpha progress_callback kwargs w).2)
      as [Hjobs Hlinked].
    split; [|done]. constructor; [|done]. simpl. split; [done|].
    by destruct (compress _ _ _ _ _ _ _ _ _ w).
Qed.

(** When every index of the order names a pair, every job of the order is
    run. *)
Lemma batch_runs_indices (E : Env) (self : VideoCompressor)
    (file_pairs : list (string * string)) (preset : string)
    (codec_arg : option string) (preserve_alpha progress_callback : bool)
    (kwargs : CustomOptions) (order : list nat) (w : World) :
  Forall (fun i => (i < length file_pairs)%nat) order ->
  job_index <$> batch_runs E self file_pairs preset codec_arg preserve_alpha
                           progress_callback kwargs order w
  = order.
Proof.
  intros Horder. revert w.
  induction Horder as [|i order Hi _ IH]; intros w; simpl; [done|].
  destruct (lookup_lt_is_Some_2 _ _ Hi) as [[input output] ->].
  rewrite fmap_cons. simpl. by rewrite IH.
Qed.

(** The result of a job carries the paths of its pair. *)
Lemma job_result_paths (E : Env) (self : VideoCompressor)
    (preset : string) (codec_arg : option string)
    (preserve_alpha progress_callback : bool) (kwargs : CustomOptions)
    (j : JobRun) :
  compress E self (job_input j) (job_output j) preset codec_arg preserve_alpha
           progress_callback kwargs (job_before j)
  = (job_outcome j, job_after j) ->
  input_path (job_result j) = job_input j
  /\ output_path (job_result j) = job_output j.
Proof.
  intros Hrun. unfold job_result.
  destruct (job_outcome j) as [r|e]; [|done].
  by apply compress_returns in Hrun as (_ & ? & ?).
Qed.

Lemma _build_file_pairs_inputs (E : Env) (files : list FileItem)
    (output_dir : option string) (file_pairs : list (string * string)) :
  _build_file_pairs E files output_dir = Return file_pairs ->
  file_pairs.*1 = item_input <$> files.
Proof.
  revert file_pairs. induction files as [|item files IH]; intros file_pairs; simpl.
  - by intros [= <-].
  - destruct item as [input|input output]; simpl.
    + destruct output_dir as [d|]; [|done]. simpl.
      destruct (_build_file_pairs E files (Some d)) as [ps|]; [|done].
      intros [= <-]. rewrite fmap_cons. simpl. by rewrite (IH ps).
    + destruct (_build_file_pairs E files output_dir) as [ps|]; [|done].
      intros [= <-]. rewrite fmap_cons. simpl. by rewrite (IH ps).
Qed.

Lemma lookup_all_indices (file_pairs : list (string * string)) :
  (fun i => default "" (fst <$> file_pairs !! i)) <$> seq 0 (length file_pairs)
  = file_pairs.*1.
Proof.
  apply list_eq. intros i. rewrite !list_lookup_fmap.
  destruct (decide (i < length file_pairs)%nat) as [Hi|Hi].
  - rewrite lookup_seq_lt by done. simpl.
    destruct (lookup_lt_is_Some_2 _ _ Hi) as [p ->]. done.
  - rewrite lookup_seq_ge by lia. rewrite lookup_ge_None_2 by lia. done.
Qed.

Lemma job_results_inputs (E : Env) (self : VideoCompressor)
    (file_pairs : list (string * string)) (preset : string)
    (codec_arg : option string) (preserve_alpha progress_callback : bool)
    (kwargs : CustomOptions) (runs : list JobRun) :
  Forall (fun j =>
            file_pairs !! job_index j = Some (job_input j, job_output j)
            /\ compress E self (job_input j) (job_output j) preset codec_arg
                 preserve_alpha progress_callback kwargs (job_before j)
               = (job_outcome j, job_after j)) runs ->
  input_path <$> (job_result <$> runs)
  = (fun i => default "" (fst <$> file_pairs !! i)) <$> (job_index <$> runs).
Proof.
  induction 1 as [|j runs [Hpair Hrun] _ IH]; [done|].
  rewrite !fmap_cons, IH, Hpair. simpl.
  by apply job_result_paths in Hrun as [-> _].
Qed.

(** C1.  When the pairs of the batch can be built and the pool has a worker,
    every job is submitted, and whatever the jobs do and in whatever order
    they complete, [compress_batch] returns.  Its results are the results
    of the runs of the jobs, in the order in which they complete; each job
    of the batch is run once, on its pair, in the world that the job before
    it left; the result of a job is what [compress] returned in that run, or
    the failed result made of the exception that it raised there; it
    carries the input path of its entry.  So there is one result for each
    entry, and the input paths of the results are those of the entries. *)
Theorem compress_batch_results (E : Env) (self : BatchCompressor)
    (files : list FileItem) (output_dir : option string) (preset : string)
    (codec_arg : option string) (preserve_alpha progress_callback : bool)
    (kwargs : CustomOptions) (order : list nat) (w : World)
    (file_pairs : list (string * string)) :
  _build_file_pairs E files output_dir = Return file_pairs ->
  0 < max_workers self ->
  order ≡ₚ seq 0 (length file_pairs) ->
  let runs := batch_runs E (compressor self) file_pairs preset codec_arg
                         preserve_alpha progress_callback kwargs order w in
  compress_batch E self files output_dir preset codec_arg preserve_alpha
                 progress_callback kwargs order w
  = (Return (job_result <$> runs), batch_end w runs)
  /\ length runs = length files
  /\ job_index <$> runs = order
  /\ Forall (fun j =>
               file_pairs !! job_index j = Some (job_input j, job_output j)
               /\ compress E (compressor self) (job_input j) (job_output j)
                    preset codec_arg preserve_alpha progress_callback kwargs
                    (job_before j)
                  = (job_outcome j, job_after j)
               /\ input_path (job_result j) = job_input j) runs
  /\ linked w runs
  /\ input_path <$> (job_result <$> runs) ≡ₚ item_input <$> files.
Proof.
  intros Hpairs Hworkers Horder runs.
  assert (Forall (fun i => (i < length file_pairs)%nat) order) as Hvalid.
  { rewrite Horder. apply Forall_seq. lia. }
  pose proof (batch_runs_indices E (compressor self) file_pairs preset
                codec_arg preserve_alpha progress_callback kwargs order w
                Hvalid) as Hindices.
  destruct (batch_runs_jobs E (compressor self) file_pairs preset codec_arg
              preserve_alpha progress_callback kwargs order w)
    as [Hjobs Hlinked].
  pose proof (_build_file_pairs_inputs E files output_dir file_pairs Hpairs)
    as Hinputs.
  fold runs in Hindices, Hjobs, Hlinked.
  assert (input_path <$> (job_result <$> runs)
          = (fun i => default "" (fst <$> file_pairs !! i)) <$> order)
    as Htags.
  { rewrite <- Hindices. by eapply job_results_inputs. }
  split; [|split; [|split; [|split; [|split]]]].
  - unfold compress_batch, lift. rewrite bind_run, Hpairs.
    assert ((max_workers self <=? 0) = false) as -> by lia.
    by rewrite collect_runs.
  - apply (f_equal length) in Hindices. apply (f_equal length) in Hinputs.
    rewrite length_fmap in Hindices. rewrite !length_fmap in Hinputs.
    by rewrite Hindices, Horder, length_seq.
  - done.
  - eapply List.Forall_impl; [|exact Hjobs].
    intros j [Hpair Hrun]. split; [done|]. split; [done|].
    by apply job_result_paths in Hrun as [? _].
  - done.
  - by rewrite Htags, Horder, lookup_all_indices, Hinputs.
Qed.

(** A batch of two entries in which the job completed first fails (its
    input does not exist) and the other one succeeds. *)
Example compress_batch_mixed :
  let E := demo_env 0 partial_output in
  let files := [InputOnly "/in/a.mp4"; InputOnly "/in/b.mp4"] in
  exists r_b r_a w',
    compress_batch E (mkBatch demo_compressor 2) files (Some "/out") "web"
                   None false false no_options [1%nat; 0%nat] demo_world
    = (Return [r_b; r_a], w')
    /\ r_b = failed_result "/in/b.mp4" "/out/b.webm"
              (mkExc InvalidInputFileError "Input file not found: /in/b.mp4")
    /\ success r_a = true /\ input_path r_a = "/in/a.mp4"
    /\ output_path r_a = "/out/a.webm".
Proof. do 3 eexists. vm_compute. repeat split; reflexivity. Qed.

Lemma compress_batch_results_witness :
  let E := demo_env 0 partial_output in
  let files := [InputOnly "/in/a.mp4"; InputOnly "/in/b.mp4"] in
  exists results w',
    compress_batch E (mkBatch demo_compressor 2) files (Some "/out") "web"
                   None false false no_options [1%nat; 0%nat] demo_world
    = (Return results, w')
    /\ length results = 2%nat
    /\ input_path <$> results ≡ₚ ["/in/a.mp4"; "/in/b.mp4"].
Proof.
  intros E files.
  destruct (compress_batch_results E (mkBatch demo_compressor 2) files
              (Some "/out") "web" None false false no_options
              [1%nat; 0%nat] demo_world
              [("/in/a.mp4", "/out/a.webm"); ("/in/b.mp4", "/out/b.webm")])
    as (Hrun & Hlen & _ & _ & _ & Hperm);
    [reflexivity|reflexivity|apply perm_swap|].
  eexists _, _. split; [exact Hrun|]. split; [|exact Hperm].
  rewrite length_fmap. exact Hlen.
Defined.

(** ** The cleanup of a failed job *)




(** Two entries of a batch with the same output path: the first job fails
    and its partial output is removed, the job that completes after it
    writes the path again.  The file that is there when the batch returns
    is the output of the second job. *)
Example later_job_writes_output :
  exists r_a r_b w',
    compress_batch selective_env (mkBatch demo_compressor 2)
                   [InputOutput "/in/a.mp4" "/out/a.webm";
                    InputOutput "/in/b.mp4" "/out/a.webm"]
                   None "web" None false false no_options [0%nat; 1%nat]
                   (initial_world two_videos)
    = (Return [r_a; r_b], w')
    /\ success r_a = false /\ success r_b = true
    /\ is_Some (fs w' !! "/out/a.webm").
Proof. do 3 eexists. vm_compute. repeat split; eauto. Qed.




(** * Further properties *)

(** ** The pattern and its groups *)

Lemma first_some_Some {A B} (f : A -> option B) (l : list A) (b : B) :
  first_some f l = Some b -> exists a, a ∈ l /\ f a = Some b.
Proof.
  induction l as [|a l IH]; simpl; [done|].
  destruct (f a) as [b'|] eqn:Hfa.
  - intros [= ->]. exists a. split; [left|done].
  - intros H. destruct (IH H) as (a' & Ha' & Hfa'). exists a'.
    split; [by right|done].
Qed.

Lemma take_while_forallb (cls : ascii -> bool) (s : list ascii) :
  forallb cls (take_while cls s) = true.
Proof.
  induction s as [|c s IH]; simpl; [done|].
  destruct (cls c) eqn:Hc; simpl; [by rewrite Hc|done].
Qed.

Lemma take_while_prefix (cls : ascii -> bool) (s : list ascii) (k : nat) :
  (k <= span cls s)%nat ->
  take k s = take k (take_while cls s) /\ length (take k s) = k.
Proof.
  unfold span. revert k. induction s as [|c s IH]; intros k; simpl.
  - intros Hk. assert (k = 0%nat) as -> by lia. done.
  - destruct (cls c); simpl.
    + destruct k as [|k]; [done|]. intros Hk. simpl.
      destruct (IH k ltac:(lia)) as [-> ->]. done.
    + intros Hk. assert (k = 0%nat) as -> by lia. done.
Qed.

Lemma forallb_take {A} (f : A -> bool) (l : list A) (k : nat) :
  forallb f l = true -> forallb f (take k l) = true.
Proof.
  revert k. induction l as [|a l IH]; intros [|k]; simpl; try done.
  intros [Ha Hl]%andb_prop. by rewrite Ha, IH.
Qed.

(** The groups of a match fit the classes of the pattern. *)
Lemma match_here_groups (p : list item) (s : list ascii)
    (groups : list (list ascii)) :
  match_here p s = Some groups -> Forall2 fits groups (group_classes p).
Proof.
  revert s groups. induction p as [|it p IH]; intros s groups; simpl.
  - intros [= <-]. constructor.
  - destruct it as [l|cls min greedy capture].
    + destruct (starts_with _ s); [apply IH|done].
    + intros H. apply first_some_Some in H as (k & Hk & H).
      destruct (match_here p (drop k s)) as [gs|] eqn:Hgs; [|done].
      injection H as <-. specialize (IH _ _ Hgs).
      assert (min <= k <= span cls s)%nat as Hrange.
      { destruct greedy; [rewrite elem_of_reverse in Hk|];
          apply elem_of_seq in Hk; lia. }
      destruct capture; [|done]. constructor; [|done].
      destruct (take_while_prefix cls s k ltac:(lia)) as [Heq Hlen].
      split; simpl; [|lia].
      rewrite Heq. apply forallb_take, take_while_forallb.
Qed.

Lemma re_search_groups (p : list item) (line : string)
    (m : list (list ascii)) :
  re_search p line = Some m -> Forall2 fits m (group_classes p).
Proof.
  unfold re_search. intros H. apply first_some_Some in H as (i & _ & H).
  by eapply match_here_groups.
Qed.

(** X1.  A match of [PROGRESS_PATTERN] has six groups, none of them empty:
    the first, third and fourth are made of digits, the others of digits
    and dots.  So [match.group(1)] to [match.group(6)] exist. *)
Theorem progress_pattern_groups (line : string) (m : list (list ascii)) :
  re_search PROGRESS_PATTERN line = Some m ->
  exists g1 g2 g3 g4 g5 g6,
    m = [g1; g2; g3; g4; g5; g6]
    /\ (forall i, (1 <= i <= 6)%nat -> returns (group m i))
    /\ Forall (fun g => g <> [] /\ forallb is_digit g = true) [g1; g3; g4]
    /\ Forall (fun g => g <> [] /\ forallb is_digit_or_dot g = true)
              [g2; g5; g6].
Proof.
  intros H. apply re_search_groups in H. simpl in H.
  repeat match goal with
  | H : Forall2 _ _ (_ :: _) |- _ =>
      apply Forall2_cons_inv_r in H as (? & ? & [? ?] & ? & ->)
  | H : Forall2 _ _ [] |- _ => apply Forall2_nil_inv_r in H as ->
  end.
  do 6 eexists. split; [reflexivity|]. simpl in *.
  assert (forall g : list ascii, (1 <= length g)%nat -> g <> []) as Hne.
  { intros [|] ?; simpl in *; [lia|done]. }
  split; [|split].
  - intros i Hi.
    assert (i = 1 \/ i = 2 \/ i = 3 \/ i = 4 \/ i = 5 \/ i = 6)%nat
      as [->|[->|[->|[->|[->| ->]]]]] by lia; done.
  - repeat constructor; auto.
  - repeat constructor; auto.
Qed.

Lemma progress_pattern_groups_witness :
  exists g1 g2 g3 g4 g5 g6,
    re_search PROGRESS_PATTERN scenario_line = Some [g1; g2; g3; g4; g5; g6].
Proof.
  destruct (re_search PROGRESS_PATTERN scenario_line) as [m|] eqn:Hm;
    [|by vm_compute in Hm].
  destruct (progress_pattern_groups scenario_line m Hm)
    as (g1 & g2 & g3 & g4 & g5 & g6 & -> & _).
  by exists g1, g2, g3, g4, g5, g6.
Defined.

(** ** The samples of the parser *)

Lemma digits_value_nonneg (s : list ascii) :
  forallb is_digit s = true -> 0 <= digits_value s.
Proof. intros H. apply digits_value_bound in H. lia. Qed.

Lemma py_int_nonneg (s : list ascii) (n : Z) : py_int s = Return n -> 0 <= n.
Proof.
  unfold py_int. destruct (forallb is_digit s) eqn:Hd; [|done]. simpl.
  repeat case_match; try done. intros [= <-]. by apply digits_value_nonneg.
Qed.

Lemma forallb_app_2 {A} (f : A -> bool) (l1 l2 : list A) :
  forallb f l1 = true -> forallb f l2 = true -> forallb f (l1 ++ l2) = true.
Proof. intros H1 H2. rewrite forallb_app. by rewrite H1, H2. Qed.

Lemma py_float_nonneg (s : list ascii) (q : Q) :
  py_float s = Return q -> (0 <= q)%Q.
Proof.
  unfold py_float.
  pose proof (take_while_forallb is_digit s) as Hint.
  destruct (drop_while is_digit s) as [|c frac].
  - case_match; [done|]. intros [= <-].
    apply digits_value_nonneg in Hint.
    change 0%Q with (inject_Z 0). by rewrite <- Zle_Qle.
  - destruct (negb (code c =? 46)%N) eqn:Hc; [done|]. simpl.
    destruct (forallb is_digit frac) eqn:Hfrac; [|done]. simpl.
    case_match; [done|]. intros [= <-].
    assert (0 <= digits_value (take_while is_digit s ++ frac)) as Hnum
      by by apply digits_value_nonneg, forallb_app_2.
    assert (0 < 10 ^ Z.of_nat (length frac)) as Hden by lia.
    apply Qle_shift_div_l.
    + change 0%Q with (inject_Z 0). by rewrite <- Zlt_Qlt.
    + rewrite Qmult_0_l. change 0%Q with (inject_Z 0). by rewrite <- Zle_Qle.
Qed.

Lemma bind_nonneg_int (m : list (list ascii)) (i : nat) (n : Z) :
  group m i ≫= py_int = Return n -> 0 <= n.
Proof. destruct (group m i); [apply py_int_nonneg|done]. Qed.

Lemma bind_nonneg_float (m : list (list ascii)) (i : nat) (q : Q) :
  group m i ≫= py_float = Return q -> (0 <= q)%Q.
Proof. destruct (group m i); [apply py_float_nonneg|done]. Qed.

(** A sample comes from a match whose six groups are numbers. *)
Lemma parse_progress_sample (line : string) (s : ProgressSample) :
  parse_progress line = Return (Some s) ->
  exists m frame fps hours minutes seconds speed,
    re_search PROGRESS_PATTERN line = Some m
    /\ group m 1 ≫= py_int = Return frame
    /\ group m 2 ≫= py_float = Return fps
    /\ group m 3 ≫= py_int = Return hours
    /\ group m 4 ≫= py_int = Return minutes
    /\ group m 5 ≫= py_float = Return seconds
    /\ group m 6 ≫= py_float = Return speed
    /\ s = mkSample frame fps
             (inject_Z (hours * 3600 + minutes * 60) + seconds) speed.
Proof.
  unfold parse_progress.
  destruct (re_search PROGRESS_PATTERN line) as [m|]; [|done].
  destruct (group m 1 ≫= py_int) as [frame|e1] eqn:H1.
  2: { by rewrite try_except_bind_caught
         by apply (conversion_caught _ _ _ _ py_int_raises H1). }
  rewrite try_except_bind_return.
  destruct (group m 2 ≫= py_float) as [fps|e2] eqn:H2.
  2: { by rewrite try_except_bind_caught
         by apply (conversion_caught _ _ _ _ py_float_raises H2). }
  rewrite try_except_bind_return.
  destruct (group m 3 ≫= py_int) as [hours|e3] eqn:H3.
  2: { by rewrite try_except_bind_caught
         by apply (conversion_caught _ _ _ _ py_int_raises H3). }
  rewrite try_except_bind_return.
  destruct (group m 4 ≫= py_int) as [minutes|e4] eqn:H4.
  2: { by rewrite try_except_bind_caught
         by apply (conversion_caught _ _ _ _ py_int_raises H4). }
  rewrite try_except_bind_return.
  destruct (group m 5 ≫= py_float) as [seconds|e5] eqn:H5.
  2: { by rewrite try_except_bind_caught
         by apply (conversion_caught _ _ _ _ py_float_raises H5). }
  rewrite try_except_bind_return.
  destruct (group m 6 ≫= py_float) as [speed|e6] eqn:H6.
  2: { by rewrite try_except_bind_caught
         by apply (conversion_caught _ _ _ _ py_float_raises H6). }
  rewrite try_except_bind_return.
  unfold float_of_int.
  destruct (Z.abs (hours * 3600 + minutes * 60) <? float_max_int).
  - simpl. intros [= <-]. by exists m, frame, fps, hours, minutes, seconds, speed.
  - unfold try_except. simpl. done.
Qed.

Lemma parse_progress_sample_nonneg (line : string) (s : ProgressSample) :
  parse_progress line = Return (Some s) ->
  0 <= sample_frame s /\ (0 <= sample_fps s)%Q
  /\ (0 <= sample_current_time s)%Q /\ (0 <= sample_speed s)%Q.
Proof.
  intros H. apply parse_progress_sample in H
    as (m & frame & fps & hours & minutes & seconds & speed & _ & Hf & Hfps
        & Hh & Hm & Hs & Hsp & ->).
  apply bind_nonneg_int in Hf, Hh, Hm.
  apply bind_nonneg_float in Hfps, Hs, Hsp. simpl.
  split; [done|]. split; [done|]. split; [|done].
  assert (0 <= inject_Z (hours * 3600 + minutes * 60))%Q as Hwhole.
  { change 0%Q with (inject_Z 0). rewrite <- Zle_Qle. lia. }
  lra.
Qed.

(** X2.  A sample that [parse_progress] returns is read off the groups of
    the match: its time is the whole seconds of the hour and minute groups
    plus the seconds group, its speed is the last group, and none of its
    numbers is negative. *)
Theorem parse_progress_sample_fields (line : string) (s : ProgressSample) :
  parse_progress line = Return (Some s) ->
  (exists m hours minutes seconds,
      re_search PROGRESS_PATTERN line = Some m
      /\ group m 3 ≫= py_int = Return hours
      /\ group m 4 ≫= py_int = Return minutes
      /\ group m 5 ≫= py_float = Return seconds
      /\ group m 6 ≫= py_float = Return (sample_speed s)
      /\ (sample_current_time s
          == inject_Z hours * 3600 + inject_Z minutes * 60 + seconds)%Q)
  /\ 0 <= sample_frame s /\ (0 <= sample_fps s)%Q
  /\ (0 <= sample_current_time s)%Q /\ (0 <= sample_speed s)%Q.
Proof.
  intros H. split; [|by apply parse_progress_sample_nonneg in H].
  apply parse_progress_sample in H
    as (m & frame & fps & hours & minutes & seconds & speed & Hm & _ & _
        & Hh & Hmin & Hs & Hsp & ->).
  exists m, hours, minutes, seconds. simpl.
  repeat (split; [done|]).
  rewrite inject_Z_plus, !inject_Z_mult. reflexivity.
Qed.

Lemma parse_progress_sample_fields_witness :
  exists s, parse_progress scenario_line = Return (Some s)
            /\ (0 <= sample_current_time s)%Q /\ (0 <= sample_speed s)%Q.
Proof.
  destruct (parse_progress scenario_line) as [[s|]|] eqn:Hs;
    [|by vm_compute in Hs..].
  exists s. split; [done|].
  destruct (parse_progress_sample_fields scenario_line s Hs)
    as (_ & _ & _ & Ht & Hsp).
  done.
Defined.

(** ** The events of a job *)

Lemma update_tracker_identity (self : ProgressTracker)
    (now current_time speed : Q) :
  let t := step_tracker (update self now current_time speed) in
  total_duration t = total_duration self /\ filename t = filename self
  /\ callback t = callback self /\ update_interval t = update_interval self.
Proof.
  destruct (throttled self now) eqn:Hth.
  - by rewrite update_throttled.
  - by rewrite update_passed_tracker.
Qed.

Lemma py_min_le (a b : Q) : (py_min a b <= b)%Q.
Proof. rewrite py_min_spec. apply Q.le_min_r. Qed.

Lemma update_events_for (self : ProgressTracker) (now current_time speed : Q) :
  (0 <= current_time)%Q ->
  Forall (event_for (filename self) (total_duration self))
         (step_events (update self now current_time speed)).
Proof.
  intros Hct. unfold update. destruct (throttled self now); [constructor|].
  simpl. unfold float_div at 1.
  destruct (Qeq_bool (total_duration self) 0) eqn:Hz; [constructor|].
  cbv zeta.
  match goal with |- context [match ?r with Return _ => _ | Raise _ => _ end] =>
    destruct r as [remaining|]; [|constructor]
  end.
  destruct (callback self); [|constructor].
  constructor; [|constructor].
  split; [done|]. split; [done|]. split; [apply py_min_le|]. simpl.
  intros Hpos. rewrite py_min_spec. apply Q.min_glb; [|lra].
  assert (0 <= current_time / total_duration self)%Q.
  { apply Qle_shift_div_l; [done|]. lra. }
  lra.
Qed.

Lemma update_raises (self : ProgressTracker) (now current_time speed : Q)
    (e : PyExc) :
  step_result (update self now current_time speed) = Raise e ->
  exc_cls e = ZeroDivisionError.
Proof.
  unfold update. destruct (throttled self now); [done|]. simpl.
  unfold float_div.
  destruct (Qeq_bool (total_duration self) 0); [by intros [= <-]|].
  destruct (Qgtb speed 0 && Qgtb current_time 0); simpl;
    [|by destruct (callback self)].
  destruct (Qeq_bool speed 0); simpl;
    [by intros [= <-]|by destruct (callback self)].
Qed.

(** Without a tracker the reading loop does nothing. *)
Lemma read_lines_None (E : Env) (lines : list string) (w : World) :
  read_lines E None lines w = (Return None, w).
Proof. induction lines as [|line lines IH]; simpl; [done|]. by rewrite bind_run. Qed.

(** One turn of the loop with a tracker. *)
Lemma read_lines_cons (E : Env) (t : ProgressTracker) (line : string)
    (lines : list string) (w : World) :
  read_lines E (Some t) (line :: lines) w =
  match parse_progress line with
  | Return (Some p) =>
      let st := update t (clock E (ticks w)) (sample_current_time p)
                       (sample_speed p) in
      let w1 := set_sink (set_ticks w (S (ticks w)))
                         (sink w ++ step_events st) in
      match step_result st with
      | Return _ => read_lines E (Some (step_tracker st)) lines w1
      | Raise e => (Raise e, w1)
      end
  | Return None => read_lines E (Some t) lines w
  | Raise e => (Raise e, w)
  end.
Proof.
  simpl. rewrite !bind_run. unfold lift at 1.
  destruct (parse_progress line) as [[p|]|e]; [|done..].
  rewrite !bind_run. unfold time_time at 1, run_step at 1. simpl.
  by destruct (step_result _).
Qed.

(** With a tracker: the loop hands events of the job to the sink, keeps a
    tracker of the same job, and can only raise what the parser or the
    division of [update] raise. *)
Lemma read_lines_sink (E : Env) (lines : list string) (t : ProgressTracker)
    (w : World) :
  exists evs,
    sink (read_lines E (Some t) lines w).2 = sink w ++ evs
    /\ Forall (event_for (filename t) (total_duration t)) evs
    /\ match (read_lines E (Some t) lines w).1 with
       | Return (Some t') =>
           total_duration t' = total_duration t /\ filename t' = filename t
           /\ callback t' = callback t
       | Return None => False
       | Raise e => exc_cls e = ZeroDivisionError \/ exc_cls e = OverflowError
       end.
Proof.
  revert t w. induction lines as [|line lines IH]; intros t w.
  - exists []. simpl. by rewrite app_nil_r.
  - rewrite read_lines_cons.
    destruct (parse_progress line) as [[p|]|e] eqn:Hparse.
    + apply parse_progress_sample_nonneg in Hparse as (_ & _ & Hct & _).
      set (now := clock E (ticks w)).
      pose proof (update_events_for t now (sample_current_time p)
                    (sample_speed p) Hct) as Hevs.
      pose proof (update_tracker_identity t now (sample_current_time p)
                    (sample_speed p)) as (Hd & Hf & Hc & _).
      cbv zeta.
      destruct (step_result (update t now _ _)) as [[]|e] eqn:Hr.
      * match goal with |- context [read_lines E (Some ?t1) lines ?w1] =>
          destruct (IH t1 w1) as (evs' & Hsink & Hall & Hres)
        end.
        eexists (_ ++ evs'). rewrite Hsink. simpl. rewrite <- app_assoc.
        split; [done|]. rewrite Hd, Hf in Hall.
        split; [by apply Forall_app|].
        destruct (read_lines E _ lines _).1 as [[t''|]|]; try done.
        destruct Hres as (? & ? & ?). repeat split; congruence.
      * eexists. split; [done|]. split; [done|]. simpl.
        left. by eapply update_raises.
    + apply IH.
    + exists []. rewrite app_nil_r. split; [done|].
      split; [constructor|]. right.
      apply parse_progress_raises_sum in Hparse. naive_solver.
Qed.

(** The events of one run of the encoder. *)
Lemma _run_ffmpeg_sink (E : Env) (cmd : list string) (video_info : VideoInfo)
    (file : string) (progress_callback : bool) (w : World) :
  exists evs,
    sink (_run_ffmpeg E cmd video_info file progress_callback w).2
    = sink w ++ evs
    /\ Forall (event_for file (duration video_info)) evs
    /\ (progress_callback = false -> evs = [])
    /\ (progress_callback = true ->
        returns (_run_ffmpeg E cmd video_info file progress_callback w).1
        \/ raises (_run_ffmpeg E cmd video_info file progress_callback w).1
                  CompressionFailedError ->
        exists evs0, evs = evs0 ++ [final_event file (duration video_info)]).
Proof.
  unfold _run_ffmpeg. destruct progress_callback.
  - rewrite !bind_run. unfold time_time at 1. simpl.
    unfold spawn at 1. run_M.
    destruct (ffmpeg E cmd (fs w)) as [|lines rc files_after].
    { exists []. simpl. rewrite app_nil_r. split; [done|].
      split; [constructor|]. split; [done|]. by intros _ [[]|[=]]. }
    match goal with |- context [read_lines E (Some ?t0) lines ?w2] =>
      destruct (read_lines_sink E lines t0 w2) as (evs1 & Hsink & Hall & Hres);
      destruct (read_lines E (Some t0) lines w2) as [[[t'|]|e] w3]
    end; simpl in Hsink, Hall, Hres; [|done|].
    + destruct Hres as (Hd & Hf & Hc). unfold run_step, complete.
      rewrite Hc, Hd, Hf. simpl.
      exists (evs1 ++ [final_event file (duration video_info)]).
      assert (Forall (event_for file (duration video_info))
                (evs1 ++ [final_event file (duration video_info)])) as Hfor.
      { apply Forall_app. split; [done|]. constructor; [|constructor].
        unfold event_for, final_event. simpl. repeat split; lra. }
      destruct (negb (rc =? 0)); simpl; rewrite Hsink, <- app_assoc;
        (split; [done|]); (split; [done|]); (split; [done|]); eauto.
    + exists evs1. simpl. split; [done|]. split; [done|]. split; [done|].
      intros _ [[]|Hcls]. simpl in Hcls. destruct Hres; congruence.
  - rewrite !bind_run. unfold spawn at 1. run_M.
    exists []. rewrite app_nil_r.
    destruct (ffmpeg E cmd (fs w)) as [|lines rc files_after]; [done|].
    rewrite read_lines_None. by destruct (negb (rc =? 0)).
Qed.

(** ** The course of [compress] *)

Lemma get_file_size_mb_run (path : string) (w : World) :
  get_file_size_mb path w = (Return (size_mb (fs w) path), w).
Proof.
  unfold get_file_size_mb, size_mb. run_M. by destruct (fs w !! path).
Qed.

(** The [try] block follows the encoder. *)
Lemma compress_try_run (E : Env) (self : VideoCompressor)
    (input_path output_path : string) (l : nat)
    (preserve_alpha progress_callback : bool) (custom_options : CustomOptions)
    (video_info : VideoInfo) (input_size : Q) (w : World) :
  compress_try E self input_path output_path l preserve_alpha
               progress_callback custom_options video_info input_size w
  = match _run_ffmpeg E
            (_build_command self input_path output_path (heap w l)
                            preserve_alpha video_info custom_options)
            video_info (path_basename E input_path) progress_callback w with
    | (Return _, w') =>
        let output_size := size_mb (fs w') output_path in
        (Return (mkResult true input_path output_path input_size output_size
                   (if Qgtb output_size 0 then (input_size / output_size)%Q
                    else 0%Q)
                   (duration video_info) None), w')
    | (Raise e, w') => (Raise e, w')
    end.
Proof.
  unfold compress_try. rewrite bind_run. simpl. rewrite bind_run.
  destruct (_run_ffmpeg _ _ _ _ _ w) as [[[]|e] w']; [|done].
  by rewrite bind_run, get_file_size_mb_run.
Qed.

(** The three stages of [compress]: the checks, the probe, the attempt. *)
Lemma compress_run (E : Env) (self : VideoCompressor)
    (input_path output_path preset : string) (codec_arg : option string)
    (preserve_alpha progress_callback : bool) (custom_options : CustomOptions)
    (w : World) :
  compress E self input_path output_path preset codec_arg preserve_alpha
           progress_callback custom_options w
  = match compress_validate E self input_path output_path preset codec_arg
                            preserve_alpha w with
    | (Return l, w1) =>
        match from_file E input_path w1 with
        | (Return video_info, w2) =>
            try_catch
              (compress_try E self input_path output_path l preserve_alpha
                            progress_callback custom_options video_info
                            (size_mb (fs w2) input_path))
              (compress_except output_path) w2
        | (Raise e, w2) => (Raise e, w2)
        end
    | (Raise e, w1) => (Raise e, w1)
    end.
Proof.
  unfold compress. rewrite bind_run.
  destruct (compress_validate _ _ _ _ _ _ _ w) as [[l|e] w1]; [|done].
  rewrite bind_run.
  destruct (from_file E input_path w1) as [[video_info|e] w2]; [|done].
  by rewrite bind_run, get_file_size_mb_run.
Qed.

(** The handler always raises [CompressionFailedError]. *)
Lemma compress_except_raises (output_path : string) (e : PyExc) (w : World) :
  raises (compress_except output_path e w).1 CompressionFailedError.
Proof.
  unfold compress_except. rewrite bind_run. unfold path_exists. run_M.
  assert (forall w0, raises
            ((if isinstance e CompressionFailedError then raise e
              else raise (mkExc CompressionFailedError
                            ("Compression failed: " +:+ exc_str e)))
               w0 : result CompressionResult * World).1
            CompressionFailedError) as Hlast.
  { intros w0. unfold isinstance.
    destruct (bool_decide_reflect (exc_cls e = CompressionFailedError));
      by run_M. }
  destruct (bool_decide _); simpl.
  - unfold try_catch, os_remove.
    destruct (from_option unlinkable false (fs w !! output_path)); simpl;
      apply Hlast.
  - apply Hlast.
Qed.

(** ** The exceptions of [compress] *)










(** ** What a call reports *)

Section check_frames.
Context {B : Type} (part : World -> B).
Hypothesis part_fs : forall w f, part (set_fs w f) = part w.
Hypothesis part_heap : forall w h, part (set_heap w h) = part w.

Lemma compress_validate_keeps (E : Env) (self : VideoCompressor)
    (input_path output_path preset : string) (codec_arg : option string)
    (preserve_alpha : bool) :
  keeps part (compress_validate E self input_path output_path preset
                                codec_arg preserve_alpha).
Proof.
  unfold compress_validate.
  repeat first [apply keeps_read_only, validate_input_file_read_only
               | apply keeps_read_only, compressor_get_preset_read_only
               | by apply validate_output_path_keeps
               | (intros w; apply part_heap)
               | keeps_step].
Qed.
End check_frames.

(** Without a callback the encoder is followed without a look at the
    clock. *)
Lemma _run_ffmpeg_quiet {B} (part : World -> B) (E : Env) (cmd : list string)
    (video_info : VideoInfo) (file : string) :
  (forall w f, part (set_fs w f) = part w) ->
  (forall w l, part (set_spawned w l) = part w) ->
  keeps part (_run_ffmpeg E cmd video_info file false).
Proof.
  intros Hfs Hspawned w. unfold _run_ffmpeg. rewrite !bind_run.
  unfold spawn at 1. run_M.
  destruct (ffmpeg E cmd (fs w)) as [|lines rc files_after]; simpl; [done|].
  rewrite read_lines_None.
  destruct (negb (rc =? 0)); simpl; by rewrite Hfs, Hspawned.
Qed.

(** X3.  Whatever a call of [compress] hands to the callback is an event of
    its input file: every event carries the base name of the input path, no
    percentage is above 100, and none is below 0 when the total time of the
    event is positive.  What the sink held before the call stays in front. *)
Theorem compress_events (E : Env) (self : VideoCompressor)
    (input_path output_path preset : string) (codec_arg : option string)
    (preserve_alpha progress_callback : bool) (custom_options : CustomOptions)
    (w : World) :
  exists evs,
    sink (compress E self input_path output_path preset codec_arg
                   preserve_alpha progress_callback custom_options w).2
    = sink w ++ evs
    /\ Forall (fun ev =>
                 ev_filename ev = path_basename E input_path
                 /\ (ev_percentage ev <= 100)%Q
                 /\ ((0 < ev_total_time ev)%Q -> (0 <= ev_percentage ev)%Q))
              evs.
Proof.
  rewrite compress_run.
  pose proof (compress_validate_keeps sink (fun _ _ => eq_refl)
                (fun _ _ => eq_refl) E self input_path output_path preset
                codec_arg preserve_alpha w) as Hv.
  destruct (compress_validate _ _ _ _ _ _ _ w) as [[l|e] w1]; simpl in Hv.
  2: { exists []. simpl. by rewrite app_nil_r, Hv. }
  pose proof (from_file_keeps sink (fun _ _ => eq_refl) E input_path w1) as Hp.
  destruct (from_file E input_path w1) as [[video_info|e] w2]; simpl in Hp.
  2: { exists []. simpl. by rewrite app_nil_r, Hp, Hv. }
  unfold try_catch. rewrite compress_try_run.
  match goal with |- context [_run_ffmpeg E ?cmd video_info ?file _ w2] =>
    destruct (_run_ffmpeg_sink E cmd video_info file progress_callback w2)
      as (evs & Hsink & Hall & _);
    destruct (_run_ffmpeg E cmd video_info file progress_callback w2)
      as [[[]|e] w3]
  end; simpl in Hsink; exists evs.
  - simpl. rewrite Hsink, Hp, Hv. split; [done|].
    eapply List.Forall_impl; [|exact Hall].
    intros ev (? & Htotal & ? & Hpos). rewrite Htotal. auto.
  - rewrite (compress_except_keeps sink (fun _ _ => eq_refl)).
    simpl. rewrite Hsink, Hp, Hv. split; [done|].
    eapply List.Forall_impl; [|exact Hall].
    intros ev (? & Htotal & ? & Hpos). rewrite Htotal. auto.
Qed.

(** X4.  With a callback, a run of the encoder that [_run_ffmpeg] reads to
    its end closes with the event of [complete]: 100 percent, at the full
    duration, with nothing left to wait for.  This holds when the run
    returns, and also when it raises [CompressionFailedError] for the exit
    status of the encoder: the failed run is reported as complete first. *)
Theorem _run_ffmpeg_final_event (E : Env) (cmd : list string)
    (video_info : VideoInfo) (file : string) (w : World) :
  returns (_run_ffmpeg E cmd video_info file true w).1
  \/ raises (_run_ffmpeg E cmd video_info file true w).1
            CompressionFailedError ->
  list.last (sink (_run_ffmpeg E cmd video_info file true w).2)
  = Some (final_event file (duration video_info)).
Proof.
  intros Hend.
  destruct (_run_ffmpeg_sink E cmd video_info file true w)
    as (evs & -> & _ & _ & Hfinal).
  destruct (Hfinal eq_refl Hend) as (evs0 & ->).
  by rewrite app_assoc, last_snoc.
Qed.

Lemma _run_ffmpeg_final_event_witness :
  raises (_run_ffmpeg (demo_env 1 partial_output) command_web_vp9
            (video_info_of demo_probe) "a.mp4" true demo_world).1
         CompressionFailedError
  /\ list.last (sink (_run_ffmpeg (demo_env 1 partial_output) command_web_vp9
                   (video_info_of demo_probe) "a.mp4" true demo_world).2)
     = Some (final_event "a.mp4" 10).
Proof.
  split; [vm_compute; reflexivity|].
  apply (_run_ffmpeg_final_event (demo_env 1 partial_output) command_web_vp9
           (video_info_of demo_probe) "a.mp4" demo_world).
  right. vm_compute. reflexivity.
Defined.

(** X5.  A call of [compress] without a callback neither reads the clock
    nor hands anything to a callback, whatever its outcome. *)
Theorem compress_without_callback (E : Env) (self : VideoCompressor)
    (input_path output_path preset : string) (codec_arg : option string)
    (preserve_alpha : bool) (custom_options : CustomOptions) (w : World) :
  ticks (compress E self input_path output_path preset codec_arg
                  preserve_alpha false custom_options w).2 = ticks w
  /\ sink (compress E self input_path output_path preset codec_arg
                    preserve_alpha false custom_options w).2 = sink w.
Proof.
  assert (forall {B} (part : World -> B),
            (forall w f, part (set_fs w f) = part w) ->
            (forall w h, part (set_heap w h) = part w) ->
            (forall w l, part (set_spawned w l) = part w) ->
            keeps part (compress E self input_path output_path preset
                          codec_arg preserve_alpha false custom_options))
    as Hkeeps.
  { intros B part Hfs Hheap Hspawned. unfold compress.
    apply keeps_bind; [by apply compress_validate_keeps|intros l].
    apply keeps_bind; [by apply from_file_keeps|intros video_info].
    apply keeps_bind;
      [apply keeps_read_only, get_file_size_mb_read_only|intros input_size].
    apply keeps_try_catch; [|intros e; by apply compress_except_keeps].
    unfold compress_try. apply keeps_bind; [done|intros w0].
    apply keeps_bind; [by apply _run_ffmpeg_quiet|intros []].
    apply keeps_bind;
      [apply keeps_read_only, get_file_size_mb_read_only|by intros ?]. }
  split; by apply Hkeeps.
Qed.


(** A video stream whose width is null: [int(None)] raises [TypeError]
    under the [try] of [from_file], no clause catches it, and it leaves
    [compress] as it is. *)
Example compress_probe_type_error :
  raises (compress (env_with_probe (ProbeUncaught null_width_error))
            demo_compressor "/in/a.mp4" "/out/a.webm" "web" None false true
            no_options demo_world).1 TypeError.
Proof. vm_compute. reflexivity. Qed.


(** ** A call that succeeds *)

Lemma compress_validate_fs (E : Env) (self : VideoCompressor)
    (input_path output_path preset : string) (codec_arg : option string)
    (preserve_alpha : bool) (w w1 : World) (l : nat) :
  compress_validate E self input_path output_path preset codec_arg
                    preserve_alpha w = (Return l, w1) ->
  validate_input_file input_path w = (Return (), w)
  /\ fs w1 = fs (validate_output_path E output_path w).2.
Proof.
  unfold compress_validate. rewrite bind_run.
  pose proof (validate_input_file_read_only input_path w) as Hw.
  destruct (validate_input_file input_path w) as [[[]|?] w0]; [|done].
  simpl in Hw. subst w0. rewrite bind_run.
  destruct (validate_output_path E output_path w) as [[[]|?] w2]; [|done].
  intros Hrest. split; [done|]. simpl.
  match type of Hrest with ?m w2 = _ =>
    assert (keeps fs m) as Hk
  end.
  { repeat first [apply keeps_read_only, compressor_get_preset_read_only
                 | keeps_step]. }
  specialize (Hk w2). by rewrite Hrest in Hk.
Qed.

(** The files after a run of the encoder are those that it leaves, and a
    run that returns has seen the exit status 0. *)
Lemma _run_ffmpeg_files (E : Env) (cmd : list string) (video_info : VideoInfo)
    (file : string) (progress_callback : bool) (w : World) :
  match ffmpeg E cmd (fs w) with
  | SpawnError =>
      fs (_run_ffmpeg E cmd video_info file progress_callback w).2 = fs w
      /\ raises (_run_ffmpeg E cmd video_info file progress_callback w).1
                OSError
  | Ran lines rc files_after =>
      fs (_run_ffmpeg E cmd video_info file progress_callback w).2
      = files_after
      /\ (returns (_run_ffmpeg E cmd video_info file progress_callback w).1
          -> rc = 0)
  end.
Proof.
  unfold _run_ffmpeg. rewrite bind_run.
  match goal with |- context [(if progress_callback then ?a else ?b) w] =>
    assert (exists t w0, (if progress_callback then a else b) w = (Return t, w0)
                         /\ fs w0 = fs w) as (t & w0 & Ht & Hfs)
  end.
  { destruct progress_callback; run_M; unfold time_time; simpl; eauto. }
  rewrite Ht, bind_run. unfold spawn at 1. run_M. rewrite Hfs.
  destruct (ffmpeg E cmd (fs w)) as [|lines rc files_after]; [done|].
  match goal with |- context [read_lines E t lines ?w2] =>
    pose proof (read_lines_keeps fs (fun _ _ => eq_refl) (fun _ _ => eq_refl)
                  E lines t w2) as Hread;
    destruct (read_lines E t lines w2) as [[t'|e] w3]
  end; simpl in Hread; [|done].
  destruct t' as [t0|].
  - unfold run_step, complete.
    destruct (callback t0); simpl;
      destruct (rc =? 0) eqn:Hrc; simpl; rewrite ?Hread;
      (split; [done|]); (done || lia).
  - destruct (rc =? 0) eqn:Hrc; simpl; rewrite ?Hread;
      (split; [done|]); (done || lia).
Qed.

(** The check of the output path changes the world at most by the
    directory that it makes. *)
Lemma validate_output_path_files (E : Env) (path : string) (w : World) :
  (validate_output_path E path w).2 = w
  \/ (fs w !! path_output_dir E path = None
      /\ (validate_output_path E path w).2
         = set_fs w (<[path_output_dir E path := mkNode false true true 0 true]>
                       (fs w))).
Proof.
  unfold validate_output_path. cbv zeta. rewrite bind_run.
  unfold path_exists at 1. rewrite bind_run. simpl.
  match goal with |- ((_ ≫= ?tail) w).2 = w \/ _ =>
    assert (forall w0, (tail () w0).2 = w0) as Htail
  end.
  { change (keeps (fun w => w)
              (e ← path_exists path;
               wr ← access_W_OK path;
               if e && negb wr then
                 raise (mkExc InvalidOutputPathError
                          ("Output file is not writable: " +:+ path))
               else
                 dw ← access_W_OK (path_output_dir E path);
                 if negb dw then
                   raise (mkExc InvalidOutputPathError
                            ("Output directory is not writable: "
                             +:+ path_output_dir E path))
                 else pass)).
    unfold path_exists, access_W_OK. repeat keeps_step. }
  rewrite bind_run.
  destruct (fs w !! path_output_dir E path) as [n|] eqn:Hd; simpl.
  - left. apply Htail.
  - unfold try_catch, os_makedirs.
    destruct (makedirs_ok E (path_output_dir E path)); simpl.
    + right. split; [done|]. apply Htail.
    + by left.
Qed.

Lemma validate_input_file_returns (path : string) (w w' : World) :
  validate_input_file path w = (Return (), w') ->
  exists n, fs w !! path = Some n /\ is_file n = true /\ readable n = true.
Proof.
  unfold validate_input_file, path_exists, path_isfile, access_R_OK. run_M.
  destruct (bool_decide (is_Some (fs w !! path))) eqn:Hex; simpl; [|done].
  apply bool_decide_eq_true in Hex as [n Hn]. rewrite Hn. simpl.
  destruct (is_file n) eqn:Hf; simpl; [|intros [=]].
  rewrite ?Hn. simpl.
  destruct (readable n) eqn:Hr; simpl; [|intros [=]]. intros _. by exists n.
Qed.

(** X7.  What a successful call of [compress] has done and reports.  The
    input size is the size of the input file before the call, the output
    size that of the output file after it, and the ratio is their quotient,
    or 0 when the output is empty or missing: no division by zero.  The
    call has started exactly two processes, the probe and the encoder; the
    encoder has ended with the exit status 0, and the files after the call
    are those that it left. *)
Theorem compress_success (E : Env) (self : VideoCompressor)
    (input_path output_path preset : string) (codec_arg : option string)
    (preserve_alpha progress_callback : bool) (custom_options : CustomOptions)
    (w w' : World) (r : CompressionResult) :
  compress E self input_path output_path preset codec_arg preserve_alpha
           progress_callback custom_options w = (Return r, w') ->
  input_size_mb r = size_mb (fs w) input_path
  /\ output_size_mb r = size_mb (fs w') output_path
  /\ compression_ratio r
     = (if Qgtb (output_size_mb r) 0
        then (input_size_mb r / output_size_mb r)%Q else 0%Q)
  /\ error r = None
  /\ exists probe cmd lines,
       spawned w' = spawned w ++ [probe; cmd]
       /\ ffmpeg E cmd (fs (validate_output_path E output_path w).2)
          = Ran lines 0 (fs w').
Proof.
  rewrite compress_run.
  pose proof (compress_validate_keeps_spawned E self input_path output_path
                preset codec_arg preserve_alpha w) as Hvs.
  destruct (compress_validate _ _ _ _ _ _ _ w) as [[l|?] w1] eqn:Hv; [|done].
  apply compress_validate_fs in Hv as [Hin Hfs1]. simpl in Hvs.
  destruct (from_file_spawned E input_path w1) as (extra & Hextra & _ & Hone).
  pose proof (from_file_keeps fs (fun _ _ => eq_refl) E input_path w1) as Hfs2.
  destruct (from_file E input_path w1) as [[video_info|?] w2]; [|done].
  simpl in Hextra, Hone, Hfs2. specialize (Hone I).
  destruct extra as [|probe [|]]; try done. clear Hone.
  unfold try_catch. rewrite compress_try_run.
  match goal with |- context [_run_ffmpeg E ?cmd video_info ?file _ w2] =>
    pose proof (_run_ffmpeg_files E cmd video_info file progress_callback w2)
      as Hfiles;
    pose proof (_run_ffmpeg_spawned E cmd video_info file progress_callback w2)
      as Hspawned;
    destruct (_run_ffmpeg E cmd video_info file progress_callback w2)
      as [[[]|e] w3]
  end.
  2: { intros Hexc.
       pose proof (compress_except_raises output_path e w3) as Hcls.
       by rewrite Hexc in Hcls. }
  cbv zeta. intros [= <- <-]. simpl.
  split; [|split; [done|split; [done|split; [done|]]]].
  - rewrite Hfs2, Hfs1.
    destruct (validate_output_path_files E output_path w) as [->|[Hd ->]];
      [done|].
    apply validate_input_file_returns in Hin as (n & Hn & _).
    unfold size_mb. simpl. rewrite lookup_insert_ne; [done|].
    intros Heq. rewrite Heq in Hd. congruence.
  - simpl in Hspawned.
    destruct (ffmpeg E _ (fs w2)) as [|lines rc files_after] eqn:Hrun.
    + by destruct Hfiles as [_ ?].
    + destruct Hfiles as [Hafter Hrc]. simpl in Hafter, Hrc.
      eexists probe, _, lines.
      rewrite Hspawned, Hextra, Hvs, <- app_assoc. split; [done|].
      by rewrite <- Hfs1, <- Hfs2, Hrun, (Hrc I), Hafter.
Qed.

Lemma compress_success_witness :
  exists r w',
    compress (demo_env 0 partial_output) demo_compressor "/in/a.mp4"
             "/out/a.webm" "web" None false true no_options demo_world
    = (Return r, w')
    /\ input_size_mb r = size_mb (fs demo_world) "/in/a.mp4"
    /\ output_size_mb r = size_mb (fs w') "/out/a.webm".
Proof.
  eexists _, _. split; [vm_compute; reflexivity|].
  match goal with |- input_size_mb ?r = _ /\ output_size_mb _ = size_mb (fs ?w') _ =>
    destruct (compress_success (demo_env 0 partial_output) demo_compressor
                "/in/a.mp4" "/out/a.webm" "web" None false true no_options
                demo_world w' r) as (Hin & Hout & _)
  end; [vm_compute; reflexivity|].
  split; [exact Hin|exact Hout].
Defined.

(** ** The batch: its pairs and its failures *)

Lemma _build_file_pairs_cons (E : Env) (item : FileItem)
    (files : list FileItem) (output_dir : option string) :
  _build_file_pairs E (item :: files) output_dir
  = match item, output_dir with
    | InputOnly _, None =>
        Raise (mkExc ValueError
                 "output_dir must be provided when files are input paths only")
    | InputOnly input, Some d =>
        match _build_file_pairs E files output_dir with
        | Return file_pairs =>
            Return ((input,
                     path_join E d
                       ((path_splitext E (path_basename E input)).1
                        +:+ ".webm")) :: file_pairs)
        | Raise e => Raise e
        end
    | InputOutput input output, _ =>
        match _build_file_pairs E files output_dir with
        | Return file_pairs => Return ((input, output) :: file_pairs)
        | Raise e => Raise e
        end
    end.
Proof.
  simpl. destruct item as [input|input output]; simpl.
  - destruct output_dir as [d|]; [|done]. simpl.
    by destruct (_build_file_pairs E files (Some d)).
  - by destruct (_build_file_pairs E files output_dir).
Qed.

Lemma _build_file_pairs_raises (E : Env) (files : list FileItem)
    (output_dir : option string) (e : PyExc) :
  _build_file_pairs E files output_dir = Raise e ->
  exc_cls e = ValueError /\ output_dir = None
  /\ Exists (fun item => is_pair item = false) files.
Proof.
  induction files as [|item files IH]; [done|].
  rewrite _build_file_pairs_cons.
  destruct item as [input|input output].
  - destruct output_dir as [d|].
    + destruct (_build_file_pairs E files (Some d)); [done|].
      intros [= ->]. by destruct (IH eq_refl) as (_ & ? & _).
    + intros [= <-]. repeat split. by left.
  - destruct (_build_file_pairs E files output_dir); [done|].
    intros [= ->]. destruct (IH eq_refl) as (? & ? & ?).
    repeat split; [done..|]. by right.
Qed.

(** X8.  [_build_file_pairs] fails exactly when an entry is a bare input
    path and no output directory is given; it then raises [ValueError],
    wherever the entry stands.  Otherwise it returns one pair for each
    entry, in the order of the entries: a tuple is passed on as it is, and a
    bare input path gets the output directory joined with the stem of its
    base name and [.webm] -- so two inputs with the same base name, or the
    same stem under two extensions, get the same output path. *)
Theorem _build_file_pairs_spec (E : Env) (files : list FileItem)
    (output_dir : option string) :
  match _build_file_pairs E files output_dir with
  | Return file_pairs =>
      (is_Some output_dir \/ Forall (fun item => is_pair item = true) files)
      /\ Forall2 (fun item p =>
                    match item with
                    | InputOutput input output => p = (input, output)
                    | InputOnly input =>
                        exists d, output_dir = Some d
                          /\ p = (input,
                                  path_join E d
                                    ((path_splitext E
                                        (path_basename E input)).1
                                     +:+ ".webm"))
                    end) files file_pairs
  | Raise e =>
      exc_cls e = ValueError /\ output_dir = None
      /\ Exists (fun item => is_pair item = false) files
  end.
Proof.
  destruct (_build_file_pairs E files output_dir) as [file_pairs|e] eqn:Hrun;
    [|by apply (_build_file_pairs_raises E)].
  revert file_pairs Hrun.
  induction files as [|item files IH]; intros file_pairs.
  - intros [= <-]. split; [by right|constructor].
  - rewrite _build_file_pairs_cons.
    destruct item as [input|input output].
    + destruct output_dir as [d|]; [|done].
      destruct (_build_file_pairs E files (Some d)) as [ps|]; [|done].
      intros [= <-]. destruct (IH ps eq_refl) as [_ Hall].
      split; [by left|]. constructor; [by exists d|done].
    + destruct (_build_file_pairs E files output_dir) as [ps|]; [|done].
      intros [= <-]. destruct (IH ps eq_refl) as [Hsome Hall].
      split; [|by constructor].
      destruct Hsome as [?|?]; [by left|right]. by constructor.
Qed.

(** The collection loop returns, whatever the jobs do. *)
Lemma collect_returns (E : Env) (self : BatchCompressor)
    (file_pairs : list (string * string)) (preset : string)
    (codec_arg : option string) (preserve_alpha progress_callback : bool)
    (kwargs : CustomOptions) (order : list nat)
    (results : list CompressionResult) (w : World) :
  returns (collect E self file_pairs preset codec_arg preserve_alpha
                   progress_callback kwargs order results w).1.
Proof.
  revert results w. induction order as [|i order IH]; intros results w; simpl.
  - done.
  - destruct (file_pairs !! i) as [[input output]|]; [|apply IH].
    rewrite bind_run. unfold try_catch at 1.
    destruct (_compress_single_returns E self input output preset codec_arg
                preserve_alpha progress_callback kwargs w)
      as (r & w1 & -> & _). apply IH.
Qed.

(** X9.  [compress_batch] raises nothing but [ValueError], and only for a
    batch that is set up wrongly -- a bare input path without an output
    directory, or a pool without workers.  It does so before any job is
    started: the world is as it was.  No failure of a job leaves
    [compress_batch] as an exception. *)
Theorem compress_batch_raises (E : Env) (self : BatchCompressor)
    (files : list FileItem) (output_dir : option string) (preset : string)
    (codec_arg : option string) (preserve_alpha progress_callback : bool)
    (kwargs : CustomOptions) (order : list nat) (w w' : World) (e : PyExc) :
  compress_batch E self files output_dir preset codec_arg preserve_alpha
                 progress_callback kwargs order w = (Raise e, w') ->
  exc_cls e = ValueError /\ w' = w
  /\ ((output_dir = None /\ Exists (fun item => is_pair item = false) files)
      \/ max_workers self <= 0).
Proof.
  unfold compress_batch, lift. rewrite bind_run.
  destruct (_build_file_pairs E files output_dir) as [file_pairs|e0] eqn:Hp.
  - destruct (max_workers self <=? 0) eqn:Hworkers.
    + intros [= <- <-]. repeat split. right. lia.
    + intros Hrun.
      pose proof (collect_returns E self file_pairs preset codec_arg
                    preserve_alpha progress_callback kwargs order [] w) as Hr.
      by rewrite Hrun in Hr.
  - intros [= <- <-].
    apply _build_file_pairs_raises in Hp as (? & ? & ?). auto.
Qed.

Lemma compress_batch_raises_witness :
  (compress_batch (demo_env 0 partial_output) (mkBatch demo_compressor 0)
     [InputOutput "/in/a.mp4" "/out/a.webm"] None "web" None false false
     no_options [0%nat] demo_world).2 = demo_world.
Proof.
  destruct (compress_batch_raises (demo_env 0 partial_output)
              (mkBatch demo_compressor 0)
              [InputOutput "/in/a.mp4" "/out/a.webm"] None "web" None false
              false no_options [0%nat] demo_world
              (compress_batch (demo_env 0 partial_output)
                 (mkBatch demo_compressor 0)
                 [InputOutput "/in/a.mp4" "/out/a.webm"] None "web" None
                 false false no_options [0%nat] demo_world).2
              (mkExc ValueError "max_workers must be greater than 0"))
    as (_ & Hw & _); [reflexivity|exact Hw].
Defined.




(** ** The progress of a batch *)

Lemma total_progress_bound (m : gmap string Q) :
  map_Forall (fun _ p => (0 <= p <= 100)%Q) m ->
  (0 <= map_fold (fun _ p acc => (acc + p)%Q) 0%Q m
   <= 100 * inject_Z (Z.of_nat (size m)))%Q.
Proof.
  apply (map_fold_weak_ind
           (fun r (m : gmap string Q) =>
              map_Forall (fun _ p => (0 <= p <= 100)%Q) m ->
              (0 <= r <= 100 * inject_Z (Z.of_nat (size m)))%Q)).
  - intros _. rewrite map_size_empty.
    change (inject_Z (Z.of_nat 0)) with 0%Q. lra.
  - intros f p m' r Hf IH Hall.
    apply map_Forall_insert in Hall as [Hp Hall]; [|done].
    specialize (IH Hall). rewrite map_size_insert_None by done.
    rewrite Nat2Z.inj_succ, <- Z.add_1_r, inject_Z_plus. simpl in Hp.
    change (inject_Z 1) with 1%Q. lra.
Qed.

Lemma run_file_progress_dom (calls : list (string * Q)) (self : BatchProgress) :
  dom (file_progress (run_file_progress self calls))
  = dom (file_progress self) ∪ reported calls.
Proof.
  revert self. induction calls as [|[f p] calls IH]; intros self.
  - unfold reported. simpl. set_solver.
  - change (run_file_progress self ((f, p) :: calls))
      with (run_file_progress (update_file_progress self f p) calls).
    rewrite IH, update_file_progress_map, dom_insert_L.
    unfold reported. simpl. set_solver.
Qed.

Lemma run_file_progress_Forall (P : Q -> Prop) (calls : list (string * Q))
    (self : BatchProgress) :
  map_Forall (fun _ => P) (file_progress self) ->
  Forall (fun c => P c.2) calls ->
  map_Forall (fun _ => P) (file_progress (run_file_progress self calls)).
Proof.
  intros Hself Hcalls. revert self Hself.
  induction Hcalls as [|[f p] calls Hp _ IH]; intros self Hself; [done|].
  change (run_file_progress self ((f, p) :: calls))
    with (run_file_progress (update_file_progress self f p) calls).
  apply IH. rewrite update_file_progress_map.
  by apply map_Forall_insert_2.
Qed.

(** X11.  A batch progress made for [n] files that is told percentages
    between 0 and 100, of at most [n] different files, has an overall
    percentage: the property returns, and what it returns lies between 0 and
    100.  ([n] is below the bound from which its conversion to a float
    fails.) *)
Theorem overall_percentage_range (n : Z) (calls : list (string * Q)) :
  Forall (fun c => (0 <= c.2 <= 100)%Q) calls ->
  Z.of_nat (size (reported calls)) <= n ->
  n < float_max_int ->
  exists q,
    overall_percentage (run_file_progress (BatchProgress_init n) calls)
    = Return q
    /\ (0 <= q <= 100)%Q.
Proof.
  intros Hcalls Hsize _. unfold overall_percentage.
  rewrite run_file_progress_total.
  pose proof (run_file_progress_dom calls (BatchProgress_init n)) as Hdom.
  pose proof (run_file_progress_Forall (fun p => (0 <= p <= 100)%Q) calls
                (BatchProgress_init n) (map_Forall_empty _) Hcalls) as Hall.
  set (m := file_progress (run_file_progress (BatchProgress_init n) calls))
    in *.
  case_bool_decide as Hempty; [exists 0%Q; split; [done|lra]|].
  apply total_progress_bound in Hall.
  assert (size m = size (reported calls)) as Hm.
  { rewrite <- size_dom, Hdom. simpl. rewrite dom_empty_L.
    f_equal. set_solver. }
  assert (size m <> 0%nat) as Hpos by by apply map_size_non_empty_iff.
  assert (1 <= inject_Z (Z.of_nat (size m)) <= inject_Z n)%Q as [Hone Hn].
  { split.
    - change 1%Q with (inject_Z 1). rewrite <- Zle_Qle. lia.
    - rewrite <- Zle_Qle. lia. }
  simpl. rewrite float_div_nonzero by lra.
  eexists. split; [done|]. split.
  - apply Qle_shift_div_l; lra.
  - apply Qle_shift_div_r; [lra|]. nra.
Qed.

Lemma overall_percentage_range_witness :
  exists q,
    overall_percentage (run_file_progress (BatchProgress_init 2) progress_calls)
    = Return q
    /\ (0 <= q <= 100)%Q.
Proof.
  apply overall_percentage_range.
  - unfold progress_calls. repeat constructor; simpl; lra.
  - vm_compute. discriminate.
  - reflexivity.
Defined.

(** ** Presets *)

(** X12.  A custom preset shadows the built-in preset of its name and
    changes the meaning of no other name: after [add_preset name preset],
    the compressor answers [name] with the added object, whatever the table
    of built-in presets holds, and answers every other name as before. *)
Theorem add_preset_get_preset (self : VideoCompressor) (n n' : string)
    (l : nat) (w : World) :
  compressor_get_preset (add_preset self n l) n' w
  = if bool_decide (n' = n) then (Return l, w)
    else compressor_get_preset self n' w.
Proof.
  unfold compressor_get_preset, add_preset. simpl.
  case_bool_decide as Hn.
  - subst n'. by rewrite lookup_insert_eq.
  - by rewrite lookup_insert_ne.
Qed.

(** X13.  [list_presets] lists the names that [get_preset] accepts, each
    with the [name] attribute of the object that [get_preset] returns for
    it. *)
Theorem list_presets_get_preset (w : World) (n d : string) :
  list_presets w !! n = Some d
  <-> exists l, get_preset n w = (Return l, w) /\ name (heap w l) = d.
Proof.
  unfold list_presets, get_preset. rewrite lookup_fmap. run_M.
  destruct (PRESETS w !! n) as [l|]; simpl.
  - split.
    + intros [= <-]. by exists l.
    + intros (l' & [= <-] & <-). done.
  - split; [done|]. by intros (l' & [=] & _).
Qed.

Lemma compress_validate_keeps_name (E : Env) (self : VideoCompressor)
    (input_path output_path preset : string) (codec_arg : option string)
    (preserve_alpha : bool) (l0 : nat) :
  keeps (fun w => name (heap w l0))
        (compress_validate E self input_path output_path preset codec_arg
                           preserve_alpha).
Proof.
  unfold compress_validate.
  repeat first [apply keeps_read_only, validate_input_file_read_only
               | apply keeps_read_only, compressor_get_preset_read_only
               | by apply validate_output_path_keeps
               | keeps_step].
  intros w. simpl. unfold insert, fn_insert.
  by destruct (decide _) as [->|].
Qed.

(** X14.  No call of [compress] changes what [list_presets] returns: a
    codec override writes into a preset object, but neither into the table
    of presets nor into the [name] of an object. *)
Theorem list_presets_stable (E : Env) (self : VideoCompressor)
    (input_path output_path preset : string) (codec_arg : option string)
    (preserve_alpha progress_callback : bool) (custom_options : CustomOptions)
    (w : World) :
  list_presets (compress E self input_path output_path preset codec_arg
                         preserve_alpha progress_callback custom_options w).2
  = list_presets w.
Proof.
  unfold list_presets.
  rewrite (compress_after_validate PRESETS) by done.
  rewrite compress_validate_keeps_PRESETS.
  apply map_fmap_ext. intros n l _.
  rewrite (compress_after_validate (fun w => name (heap w l))) by done.
  apply compress_validate_keeps_name.
Qed.

Lemma post_init_returns (p : CompressionPreset) :
  post_init p = Return ()
  <-> (codec p = "vp8" \/ codec p = "vp9")
      /\ 0 <= crf p <= 63
      /\ (codec p = "vp9" -> 0 <= speed p <= 5)
      /\ (codec p = "vp8" -> 0 <= speed p <= 16)
      /\ format p = "webm".
Proof.
  unfold post_init.
  destruct (bool_decide_reflect (codec p = "vp8")) as [H8|H8];
    destruct (bool_decide_reflect (codec p = "vp9")) as [H9|H9];
    try congruence;
    destruct (bool_decide_reflect (format p = "webm")) as [Hf|Hf];
    destruct (Z.leb_spec 0 (crf p)), (Z.leb_spec (crf p) 63),
             (Z.leb_spec 0 (speed p)), (Z.leb_spec (speed p) 5),
             (Z.leb_spec (speed p) 16);
    simpl;
    (split; [first [discriminate | intros _]|intros (Hc & ? & H5 & H16 & ?)]);
    try done;
    try (repeat split; first [lia | congruence | tauto]);
    try (destruct Hc; done);
    try (specialize (H5 eq_refl)); try (specialize (H16 eq_refl));
    try (specialize (H5 H9)); try (specialize (H16 H8)); try lia.
Qed.

(** X15.  The codec override of [compress] writes the codec without the
    checks of [__post_init__].  For a preset that has passed them, the
    object stays one that would pass them under the override [vp8], and
    under the override [vp9] exactly when its speed is at most 5: a VP8
    preset with a speed from 6 to 16 becomes a VP9 preset that
    [__post_init__] rejects. *)
Theorem codec_override_validity (p : CompressionPreset) (c : string) :
  post_init p = Return () ->
  c = "vp8" \/ c = "vp9" ->
  (post_init (set_codec p c) = Return () <-> (c = "vp9" -> speed p <= 5)).
Proof.
  rewrite !post_init_returns. simpl.
  intros (Hcodec & Hcrf & Hvp9 & Hvp8 & Hformat) Hc.
  split.
  - intros (_ & _ & Hspeed & _) Hc9. specialize (Hspeed Hc9). lia.
  - intros Hspeed. split; [done|]. split; [done|].
    split; [|split; [|done]].
    + intros Hc9. specialize (Hspeed Hc9).
      destruct Hcodec as [H8|H9]; [specialize (Hvp8 H8)|specialize (Hvp9 H9)];
        lia.
    + intros Hc8.
      destruct Hcodec as [H8|H9]; [specialize (Hvp8 H8)|specialize (Hvp9 H9)];
        lia.
Qed.

Lemma codec_override_validity_witness :
  raises (post_init (set_codec (mkPreset "Fast" "vp8" "1M" "128k" 10 8 "webm"
                                         false None "libopus") "vp9"))
         ValueError.
Proof.
  destruct (codec_override_validity
              (mkPreset "Fast" "vp8" "1M" "128k" 10 8 "webm" false None
                        "libopus") "vp9") as [Hvalid _];
    [reflexivity|by right|].
  destruct (post_init _) as [[]|e] eqn:Hpost.
  - specialize (Hvalid eq_refl eq_refl). simpl in Hvalid. lia.
  - revert Hpost. vm_compute. by intros [= <-].
Defined.

(** ** The simple callback *)

Lemma Qdiv_mult (x c : Q) : ~ (c == 0)%Q -> (x == x / c * c)%Q.
Proof. intros Hc. field. exact Hc. Qed.

Lemma int_of_float_ge_1 (x : Q) : 1 <= int_of_float x -> (1 <= x)%Q.
Proof.
  unfold int_of_float. destruct (Qle_bool 0 x) eqn:Hx; intros Hone.
  - pose proof (Qfloor_le x) as Hfloor.
    assert (inject_Z 1 <= inject_Z (Qfloor x))%Q by by rewrite <- Zle_Qle.
    change (inject_Z 1) with 1%Q in *. lra.
  - assert (~ (0 <= x)%Q) as Hneg.
    { intros Hle. apply Qle_bool_iff in Hle. congruence. }
    pose proof (Qceiling_lt x) as Hceil.
    assert (inject_Z 0 <= inject_Z (Qceiling x - 1))%Q
      by (rewrite <- Zle_Qle; lia).
    change (inject_Z 0) with 0%Q in *. lra.
Qed.

Lemma int_of_float_le (x : Q) (k : Z) :
  (x <= inject_Z k)%Q -> 0 <= k -> int_of_float x <= k.
Proof.
  intros Hx Hk. unfold int_of_float. destruct (Qle_bool 0 x) eqn:H0.
  - rewrite <- (Qfloor_Z k). by apply Qfloor_resp_le.
  - assert (~ (0 <= x)%Q) as Hneg.
    { intros Hle. apply Qle_bool_iff in Hle. congruence. }
    assert (Qceiling x <= Qceiling 0) by (apply Qceiling_resp_le; lra).
    change (Qceiling 0) with 0 in *. lia.
Qed.

Lemma step_of_0 : step_of 0 = 0.
Proof. reflexivity. Qed.

(** What holds of the callback between two calls. *)
Lemma simple_callback_invariant (self : SimpleCallback) (ev : ProgressEvent) :
  Z.of_nat (length (printed self)) <= step_of (last_percentage self)
  /\ StronglySorted later_step (printed self)
  /\ Forall (fun p => step_of (ev_percentage p)
                      <= step_of (last_percentage self)) (printed self)
  /\ Forall (fun p => 1 <= step_of (ev_percentage p)) (printed self) ->
  let self' := simple_callback self ev in
  Z.of_nat (length (printed self')) <= step_of (last_percentage self')
  /\ StronglySorted later_step (printed self')
  /\ Forall (fun p => step_of (ev_percentage p)
                      <= step_of (last_percentage self')) (printed self')
  /\ Forall (fun p => 1 <= step_of (ev_percentage p)) (printed self').
Proof.
  intros (Hlen & Hsorted & Hbelow & Hone). unfold simple_callback.
  destruct (Z.ltb_spec (step_of (last_percentage self))
                       (step_of (ev_percentage ev))) as [Hlt|Hge]; [|done].
  simpl. rewrite length_app. simpl.
  split; [lia|]. split; [|split].
  - apply StronglySorted_app_2; [|done|repeat constructor].
    intros a b Ha Hb. apply list_elem_of_singleton in Hb as ->.
    unfold later_step.
    pose proof (proj1 (List.Forall_forall _ _) Hbelow a) as Ha'.
    apply list_elem_of_In in Ha. specialize (Ha' Ha). simpl in Ha'. lia.
  - apply Forall_app. split.
    + eapply List.Forall_impl; [|exact Hbelow]. intros a Ha. simpl in *. lia.
    + repeat constructor. lia.
  - apply Forall_app. split; [done|]. repeat constructor.
    pose proof (Zle_0_nat (length (printed self))). lia.
Qed.

Lemma fold_simple_callback (evs : list ProgressEvent) (self : SimpleCallback) :
  Z.of_nat (length (printed self)) <= step_of (last_percentage self)
  /\ StronglySorted later_step (printed self)
  /\ Forall (fun p => step_of (ev_percentage p)
                      <= step_of (last_percentage self)) (printed self)
  /\ Forall (fun p => 1 <= step_of (ev_percentage p)) (printed self) ->
  let self' := fold_left simple_callback evs self in
  (Z.of_nat (length (printed self')) <= step_of (last_percentage self')
   /\ StronglySorted later_step (printed self')
   /\ Forall (fun p => step_of (ev_percentage p)
                       <= step_of (last_percentage self')) (printed self')
   /\ Forall (fun p => 1 <= step_of (ev_percentage p)) (printed self'))
  /\ (exists extra, printed self' = printed self ++ extra
                    /\ extra `sublist_of` evs)
  /\ ((last_percentage self <= 100)%Q ->
      Forall (fun p => (ev_percentage p <= 100)%Q) evs ->
      (last_percentage self' <= 100)%Q).
Proof.
  revert self. induction evs as [|ev evs IH]; intros self Hinv; simpl.
  - split; [done|]. split; [|done]. exists []. by rewrite app_nil_r.
  - destruct (IH (simple_callback self ev)
                 (simple_callback_invariant self ev Hinv))
      as (Hinv' & (extra & Hextra & Hsub) & Hbound).
    cbv zeta. split; [exact Hinv'|]. split.
    + rewrite Hextra. unfold simple_callback.
      destruct (_ <? _); simpl.
      * exists (ev :: extra). rewrite <- app_assoc. split; [done|].
        by apply sublist_skip.
      * exists extra. split; [done|]. by apply sublist_cons.
    + intros Hlast Hall. apply list.Forall_cons in Hall as [Hev Hall].
      apply Hbound; [|done]. unfold simple_callback.
      by destruct (_ <? _).
Qed.

(** X16.  What the callback of [create_simple_callback] prints over the
    events of its life: a selection of the events, in their order, each in a
    higher 5 percent step than the one printed before it, and none below 5
    percent.  So when no percentage is above 100, at most 20 lines are
    printed. *)
Theorem simple_callback_prints (evs : list ProgressEvent) :
  printed (run_simple_callback evs) `sublist_of` evs
  /\ StronglySorted later_step (printed (run_simple_callback evs))
  /\ Forall (fun p => (5 <= ev_percentage p)%Q)
            (printed (run_simple_callback evs))
  /\ (Forall (fun p => (ev_percentage p <= 100)%Q) evs ->
      (length (printed (run_simple_callback evs)) <= 20)%nat).
Proof.
  unfold run_simple_callback.
  destruct (fold_simple_callback evs create_simple_callback)
    as ((Hlen & Hsorted & _ & Hone) & (extra & Hextra & Hsub) & Hbound).
  { simpl. rewrite step_of_0. repeat split; (lia || constructor). }
  split; [by rewrite Hextra|]. split; [done|]. split.
  - eapply List.Forall_impl; [|exact Hone]. intros p Hp. simpl in Hp.
    apply int_of_float_ge_1 in Hp.
    pose proof (Qdiv_mult (ev_percentage p) 5) as Heq.
    rewrite Heq by done. lra.
  - intros Hall.
    assert (step_of (last_percentage
                       (fold_left simple_callback evs create_simple_callback))
            <= 20) as Hstep.
    { apply int_of_float_le; [|lia].
      assert (last_percentage
                (fold_left simple_callback evs create_simple_callback)
              <= 100)%Q as Hlast by (apply Hbound; [simpl; lra|done]).
      apply Qle_shift_div_r; [lra|]. change (inject_Z 20) with 20%Q. lra. }
    lia.
Qed.

(** ** [format_time] *)

Lemma int_of_float_Z (k : Z) : int_of_float (inject_Z k) = k.
Proof.
  unfold int_of_float. destruct (Qle_bool 0 (inject_Z k));
    [apply Qfloor_Z|apply Qceiling_Z].
Qed.

Lemma int_of_float_nonneg (x : Q) : (0 <= x)%Q -> int_of_float x = Qfloor x.
Proof.
  intros Hx. unfold int_of_float. apply Qle_bool_iff in Hx. by rewrite Hx.
Qed.

(** The floor, by its bounds. *)
Lemma Qfloor_bounds (x : Q) :
  (inject_Z (Qfloor x) <= x < inject_Z (Qfloor x) + 1)%Q.
Proof.
  pose proof (Qfloor_le x). pose proof (Qlt_floor x) as Hlt.
  rewrite inject_Z_plus in Hlt. change (inject_Z 1) with 1%Q in Hlt. lra.
Qed.

Lemma Qfloor_div_bounds (x : Q) (c : Z) :
  0 < c ->
  (inject_Z c * inject_Z (Qfloor (x / inject_Z c)) <= x
   < inject_Z c * inject_Z (Qfloor (x / inject_Z c)) + inject_Z c)%Q.
Proof.
  intros Hc.
  assert (0 < inject_Z c)%Q as Hpos.
  { change 0%Q with (inject_Z 0). by rewrite <- Zlt_Qlt. }
  pose proof (Qfloor_bounds (x / inject_Z c)) as [Hlo Hhi].
  pose proof (Qdiv_mult x (inject_Z c)) as Heq.
  assert (~ inject_Z c == 0)%Q as Hne by lra. specialize (Heq Hne).
  set (q := (x / inject_Z c)%Q) in *. clearbody q.
  set (k := inject_Z (Qfloor q)) in *. clearbody k.
  rewrite Heq. split; nra.
Qed.

Lemma int_of_float_comp (x y : Q) :
  (x == y)%Q -> int_of_float x = int_of_float y.
Proof.
  intros Hxy. unfold int_of_float.
  assert (Qle_bool 0 x = Qle_bool 0 y) as ->.
  { apply eq_true_iff_eq. rewrite !Qle_bool_iff. by rewrite Hxy. }
  destruct (Qle_bool 0 y); [by apply Qfloor_comp|by apply Qceiling_comp].
Qed.

(** On a non-negative argument the remainder needs no correction. *)
Lemma fmod_nonneg (x : Q) (c : Z) :
  (0 <= x)%Q -> 0 < c ->
  fmod x (inject_Z c)
  = (x - inject_Z c * inject_Z (Qfloor (x / inject_Z c)))%Q
  /\ (0 <= fmod x (inject_Z c) < inject_Z c)%Q.
Proof.
  intros Hx Hc.
  assert (0 < inject_Z c)%Q as Hpos.
  { change 0%Q with (inject_Z 0). by rewrite <- Zlt_Qlt. }
  assert (fmod x (inject_Z c)
          = (x - inject_Z c * inject_Z (Qfloor (x / inject_Z c)))%Q) as Heq.
  { unfold fmod. rewrite int_of_float_nonneg; [done|].
    apply Qle_shift_div_l; lra. }
  split; [done|]. rewrite Heq.
  pose proof (Qfloor_div_bounds x c Hc). lra.
Qed.

Lemma float_mod_nonneg (rnd : Q -> Q) (x : Q) (c : Z) :
  (0 <= x)%Q -> 0 < c -> float_mod rnd x (inject_Z c) = fmod x (inject_Z c).
Proof.
  intros Hx Hc. unfold float_mod.
  destruct (fmod_nonneg x c Hx Hc) as [_ [Hm _]].
  apply Qltb_ge in Hm. by rewrite Hm, andb_false_r.
Qed.

(** On a non-negative argument below [2^53] every rounding of the floor
    division meets an integer below [2^53], which is a binary64. *)
Lemma float_floordiv_nonneg (rnd : Q -> Q) (x : Q) (c : Z) :
  Proper (Qeq ==> Qeq) rnd ->
  (forall k : Z, 0 <= k < 2 ^ 53 -> (rnd (inject_Z k) == inject_Z k)%Q) ->
  (0 <= x < inject_Z (2 ^ 53))%Q -> 0 < c ->
  (float_floordiv rnd x (inject_Z c) == inject_Z (Qfloor (x / inject_Z c)))%Q.
Proof.
  intros Hproper Hint [Hx Hlt] Hc. unfold float_floordiv.
  assert (0 < inject_Z c)%Q as Hpos.
  { change 0%Q with (inject_Z 0). by rewrite <- Zlt_Qlt. }
  destruct (fmod_nonneg x c Hx Hc) as [Hm [Hm0 _]].
  pose proof (Qfloor_div_bounds x c Hc) as [Hlo Hhi].
  set (F := Qfloor (x / inject_Z c)) in *.
  assert (0 <= F) as HF.
  { unfold F. change 0 with (Qfloor 0). apply Qfloor_resp_le.
    apply Qle_shift_div_l; lra. }
  assert (c * F < 2 ^ 53) as HcF.
  { rewrite Zlt_Qlt, inject_Z_mult. lra. }
  assert (x - fmod x (inject_Z c) == inject_Z (c * F))%Q as Hdiff.
  { rewrite Hm, inject_Z_mult. ring. }
  assert (rnd (rnd (x - fmod x (inject_Z c)) / inject_Z c) == inject_Z F)%Q
    as Hdiv.
  { rewrite Hdiff, Hint by nia. rewrite inject_Z_mult.
    assert (inject_Z c * inject_Z F / inject_Z c == inject_Z F)%Q as ->
      by (field; lra).
    apply Hint. nia. }
  apply Qltb_ge in Hm0. rewrite Hm0, andb_false_r. cbv zeta.
  set (div := rnd (rnd (x - fmod x (inject_Z c)) / inject_Z c)%Q) in *.
  destruct (Qeq_bool div 0) eqn:Hzero; simpl.
  - apply Qeq_bool_iff in Hzero. by rewrite <- Hdiv, Hzero.
  - assert (Qfloor div = F) as -> by (rewrite Hdiv; apply Qfloor_Z).
    assert (rnd (div - inject_Z F)%Q == 0)%Q as Hrest.
    { assert (div - inject_Z F == inject_Z 0)%Q as ->
        by (rewrite Hdiv; simpl; ring).
      apply (Hint 0). lia. }
    assert (Qgtb (rnd (div - inject_Z F)%Q) (1 # 2) = false) as ->.
    { apply Qltb_ge. rewrite Hrest. lra. }
    reflexivity.
Qed.

(** X17.  The three numbers that [format_time] prints for a number of
    seconds from 0 up to [2^53], whatever the rounding of binary64 is, as
    long as it leaves the integers below [2^53] as they are: the hours are
    not negative, the minutes and the seconds lie between 0 and 59, and the
    three add up to the whole seconds -- hours times 3600 plus minutes
    times 60 plus seconds is the floor of the argument. *)
Theorem time_fields_spec (rnd : Q -> Q) (seconds : Q) :
  Proper (Qeq ==> Qeq) rnd ->
  (forall k : Z, 0 <= k < 2 ^ 53 -> (rnd (inject_Z k) == inject_Z k)%Q) ->
  (0 <= seconds < inject_Z (2 ^ 53))%Q ->
  let '(hours, minutes, secs) := time_fields rnd seconds in
  hours * 3600 + minutes * 60 + secs = Qfloor seconds
  /\ 0 <= hours /\ 0 <= minutes < 60 /\ 0 <= secs < 60.
Proof.
  intros Hproper Hint [Hs0 Hs53]. unfold time_fields.
  change 3600%Q with (inject_Z 3600). change 60%Q with (inject_Z 60).
  rewrite !float_mod_nonneg by done.
  destruct (fmod_nonneg seconds 3600 Hs0 eq_refl) as [Hv [Hv0 Hv3600]].
  destruct (fmod_nonneg seconds 60 Hs0 eq_refl) as [Hr [Hr0 Hr60]].
  rewrite (int_of_float_comp _ _
             (float_floordiv_nonneg rnd seconds 3600 Hproper Hint
                (conj Hs0 Hs53) eq_refl)).
  assert (fmod seconds (inject_Z 3600) < inject_Z (2 ^ 53))%Q as Hv53.
  { eapply Qlt_trans; [exact Hv3600|]. by rewrite <- Zlt_Qlt. }
  rewrite (int_of_float_comp _ _
             (float_floordiv_nonneg rnd (fmod seconds (inject_Z 3600)) 60
                Hproper Hint (conj Hv0 Hv53) eq_refl)).
  rewrite !int_of_float_Z, (int_of_float_nonneg _ Hr0).
  rewrite Hv, Hr in *.
  pose proof (Qfloor_div_bounds seconds 3600 eq_refl) as Hh.
  pose proof (Qfloor_div_bounds seconds 60 eq_refl) as Hk.
  set (H := Qfloor (seconds / inject_Z 3600)) in *. clearbody H.
  set (K := Qfloor (seconds / inject_Z 60)) in *. clearbody K.
  pose proof (Qfloor_div_bounds (seconds - inject_Z 3600 * inject_Z H) 60
                eq_refl) as Hm.
  set (m := Qfloor ((seconds - inject_Z 3600 * inject_Z H) / inject_Z 60))
    in *. clearbody m.
  pose proof (Qfloor_bounds (seconds - inject_Z 60 * inject_Z K)) as Hsec.
  set (s := Qfloor (seconds - inject_Z 60 * inject_Z K)) in *. clearbody s.
  pose proof (Qfloor_bounds seconds) as Hf.
  set (F := Qfloor seconds) in *. clearbody F.
  change (inject_Z 3600) with 3600%Q in *.
  change (inject_Z 60) with 60%Q in *.
  assert (forall a b : Z, (inject_Z a < inject_Z b + 1)%Q -> a <= b) as Hlt.
  { intros a b Hab. apply Z.lt_succ_r. rewrite <- Z.add_1_r, Zlt_Qlt.
    rewrite inject_Z_plus. exact Hab. }
  assert (K = m + 60 * H) as HK.
  { apply Z.le_antisymm; apply Hlt;
      rewrite ?inject_Z_plus, ?inject_Z_mult;
      change (inject_Z 60) with 60%Q; lra. }
  assert (F = s + 60 * K) as HF.
  { apply Z.le_antisymm; apply Hlt;
      rewrite ?inject_Z_plus, ?inject_Z_mult;
      change (inject_Z 60) with 60%Q; lra. }
  assert (0 <= H) as HH0.
  { apply (Hlt 0 H). change (inject_Z 0) with 0%Q. lra. }
  assert (0 <= m) as Hm0.
  { apply (Hlt 0 m). change (inject_Z 0) with 0%Q. lra. }
  assert (m <= 59) as Hm59.
  { apply (Hlt m 59). change (inject_Z 59) with 59%Q. lra. }
  assert (0 <= s) as Hsec0.
  { apply (Hlt 0 s). change (inject_Z 0) with 0%Q. lra. }
  assert (s <= 59) as Hsec59.
  { apply (Hlt s 59). change (inject_Z 59) with 59%Q. lra. }
  lia.
Qed.

Lemma time_fields_spec_witness :
  time_fields (fun x => x) (7325 + (1 # 2)) = (2, 2, 5).
Proof.
  pose proof (time_fields_spec (fun x => x) (7325 + (1 # 2))) as Hspec.
  destruct (time_fields (fun x => x) (7325 + (1 # 2))) as [[hours minutes] secs]
    eqn:Hfields.
  destruct Hspec as (Hsum & Hh & Hm & Hs).
  - by intros x y Hxy.
  - by intros k _.
  - split; [done|]. reflexivity.
  - vm_compute in Hfields. by injection Hfields as <- <- <-.
Defined.

(** For an argument just below zero the remainder is rounded up to the
    divisor itself: a rounding that takes [3600 - 2^-70] and [60 - 2^-70]
    to [3600] and [60] gives 60 minutes and 60 seconds. *)
Example time_fields_below_zero :
  let rnd (x : Q) : Q :=
    (if Qeq_bool x (3600 - 1 / inject_Z (2 ^ 70)) then 3600
     else if Qeq_bool x (60 - 1 / inject_Z (2 ^ 70)) then 60
     else x)%Q in
  time_fields rnd (- (1 / inject_Z (2 ^ 70)))%Q = (-1, 60, 60).
Proof. vm_compute. reflexivity. Qed.

(** ** [allowed_file] *)

Lemma split_last_None (sep : ascii) (s : list ascii) :
  sep ∉ s -> split_last sep s = None.
Proof.
  induction s as [|c s IH]; [done|]. intros Hs. simpl.
  rewrite IH by set_solver. rewrite bool_decide_false; [done|set_solver].
Qed.

Lemma split_last_app (sep : ascii) (a b : list ascii) :
  sep ∉ b -> split_last sep (a ++ sep :: b) = Some (a, b).
Proof.
  intros Hb. induction a as [|c a IH]; simpl.
  - rewrite split_last_None by done. by rewrite bool_decide_true.
  - by rewrite IH.
Qed.

(** X18.  [allowed_file] looks at what follows the last dot of the name,
    whatever its case: a name without a dot is refused, and a name
    [stem.ext], where [ext] holds no dot, is accepted exactly when [ext] in
    lower case is one of the five extensions.  What stands before the last
    dot plays no part: the stem may be empty, and it may end in another
    extension. *)
Theorem allowed_file_spec (filename : string) :
  ("."%char ∉ String.list_ascii_of_string filename ->
   allowed_file filename = false)
  /\ (forall stem ext : list ascii,
        String.list_ascii_of_string filename = stem ++ "."%char :: ext ->
        "."%char ∉ ext ->
        allowed_file filename
        = bool_decide (String.string_of_list_ascii (str_lower ext)
                       ∈ ALLOWED_EXTENSIONS)).
Proof.
  unfold allowed_file. split.
  - intros Hdot. by rewrite split_last_None.
  - intros stem ext -> Hext. by rewrite split_last_app.
Qed.

Lemma allowed_file_spec_witness :
  allowed_file "clip.webm.MP4" = true /\ allowed_file "clip_mp4" = false.
Proof.
  destruct (allowed_file_spec "clip.webm.MP4") as [_ Hext].
  destruct (allowed_file_spec "clip_mp4") as [Hnone _].
  split.
  - rewrite (Hext (String.list_ascii_of_string "clip.webm")
                  (String.list_ascii_of_string "MP4")); [done|done|].
    vm_compute. set_solver.
  - apply Hnone. vm_compute. set_solver.
Defined.

(** ** The command of the encoder *)

(** The command of the encoder depends on the preset only through its
    codec, its bitrates, its CRF, its speed, its cap on the resolution and
    its audio codec, and on the video only through its width and height.  In
    particular the [two_pass] flag of a preset changes nothing: the command
    is the same one-pass command with and without it; and whether the
    source has an alpha channel plays no part. *)
Lemma _build_command_ignores (self : VideoCompressor)
    (input_path output_path : string) (p : CompressionPreset)
    (preserve_alpha : bool) (video_info : VideoInfo)
    (custom_options : CustomOptions)
    (name' format' : string) (two_pass' : bool)
    (duration' : Q) (codec' : string) (has_alpha' : bool)
    (bitrate' : option Z) (fps' : option Q) :
  _build_command self input_path output_path
    (mkPreset name' (codec p) (video_bitrate p) (audio_bitrate p) (crf p)
              (speed p) format' two_pass' (max_resolution p) (audio_codec p))
    preserve_alpha
    (mkVideoInfo duration' (width video_info) (height video_info) codec'
                 has_alpha' bitrate' fps')
    custom_options
  = _build_command self input_path output_path p preserve_alpha video_info
                   custom_options.
Proof. reflexivity. Qed.

(** The command, segment by segment. *)
Lemma _build_command_segments (self : VideoCompressor)
    (input_path output_path : string) (p : CompressionPreset)
    (preserve_alpha : bool) (video_info : VideoInfo)
    (custom_options : CustomOptions) :
  _build_command self input_path output_path p preserve_alpha video_info
                 custom_options
  = ([ffmpeg_path self; "-i"; input_path]
     ++ (if bool_decide (codec p = "vp9") then ["-c:v"; "libvpx-vp9"]
         else ["-c:v"; "libvpx"])
     ++ (if preserve_alpha then
           ["-pix_fmt"; "yuva420p"; "-auto-alt-ref"; "0";
            "-metadata:s:v:0"; "alpha_mode=1"]
         else [])
     ++ ["-b:v"; default (video_bitrate p) (opt_video_bitrate custom_options);
         "-crf"; pretty (default (crf p) (opt_crf custom_options))]
     ++ (if bool_decide (codec p = "vp9") then
           ["-speed"; pretty (default (speed p) (opt_speed custom_options))]
         else
           ["-cpu-used"; pretty (default (speed p) (opt_speed custom_options))]))
    ++ match default (max_resolution p) (opt_max_resolution custom_options) with
       | Some (max_width, max_height) =>
           if (max_width <? width video_info)
              || (max_height <? height video_info)
           then ["-vf"; scale_filter max_width max_height]
           else []
       | None => []
       end
    ++ ((if bool_decide (codec p = "vp9") then ["-row-mt"; "1"] else [])
        ++ (if negb (bool_decide (audio_codec p = "")) then
              ["-c:a"; audio_codec p;
               "-b:a"; default (audio_bitrate p)
                               (opt_audio_bitrate custom_options)]
            else [])
        ++ ["-y"; output_path]).
Proof.
  unfold _build_command, scale_filter.
  destruct (bool_decide (codec p = "vp9")), preserve_alpha,
    (default (max_resolution p) (opt_max_resolution custom_options))
    as [[max_width max_height]|],
    (negb (bool_decide (audio_codec p = "")));
    try destruct (_ || _); reflexivity.
Qed.

(** X19.  The scale filter is the only trace of the cap on the resolution,
    and it is there exactly when the video exceeds the cap: for a video
    that is within the cap in width and in height, the command is the one
    built without a cap; for a video that exceeds it in width or in height,
    the command is that one with [-vf] and the filter of the cap put in,
    after the speed option. *)
Theorem _build_command_scale (self : VideoCompressor)
    (input_path output_path : string) (p : CompressionPreset)
    (preserve_alpha : bool) (video_info : VideoInfo)
    (custom_options : CustomOptions) (max_width max_height : Z) :
  default (max_resolution p) (opt_max_resolution custom_options)
  = Some (max_width, max_height) ->
  let cmd := _build_command self input_path output_path p preserve_alpha
                            video_info custom_options in
  let plain := _build_command self input_path output_path p preserve_alpha
                              video_info (without_cap custom_options) in
  (width video_info <= max_width /\ height video_info <= max_height ->
   cmd = plain)
  /\ (max_width < width video_info \/ max_height < height video_info ->
      exists front back,
        plain = front ++ back
        /\ cmd = front ++ ["-vf"; scale_filter max_width max_height] ++ back).
Proof.
  intros Hcap cmd plain. subst cmd plain.
  rewrite !_build_command_segments.
  cbn [without_cap opt_video_bitrate opt_crf opt_speed opt_max_resolution
       opt_audio_bitrate default from_option id].
  rewrite Hcap.
  split.
  - intros [Hw Hh].
    assert ((max_width <? width video_info) = false) as -> by lia.
    assert ((max_height <? height video_info) = false) as -> by lia.
    done.
  - intros Hexceeds.
    assert ((max_width <? width video_info)
            || (max_height <? height video_info) = true) as ->.
    { apply orb_true_iff. lia. }
    eexists _, _. split; reflexivity.
Qed.

Lemma _build_command_scale_witness :
  exists front back,
    _build_command demo_compressor "/in/a.mp4" "/out/a.webm" preset_web false
                   (video_info_of demo_probe) (without_cap no_options)
    = front ++ back
    /\ command_web_vp9 = front ++ ["-vf"; scale_filter 1920 1080] ++ back.
Proof.
  destruct (_build_command_scale demo_compressor "/in/a.mp4" "/out/a.webm"
              preset_web false (video_info_of demo_probe) no_options
              1920 1080 eq_refl) as [_ Hexceeds].
  apply Hexceeds. left. reflexivity.
Defined.

(** ** The check of the output path *)

(** The checks that follow the making of the directory. *)
Lemma output_checks_returns (E : Env) (path : string) (w w' : World) :
  (e ← path_exists path;
   wr ← access_W_OK path;
   if e && negb wr then
     raise (mkExc InvalidOutputPathError
              ("Output file is not writable: " +:+ path))
   else
     dw ← access_W_OK (path_output_dir E path);
     if negb dw then
       raise (mkExc InvalidOutputPathError
                ("Output directory is not writable: "
                 +:+ path_output_dir E path))
     else pass) w = (Return (), w') ->
  w' = w
  /\ (exists n, fs w !! path_output_dir E path = Some n /\ writable n = true)
  /\ (forall n, fs w !! path = Some n -> writable n = true).
Proof.
  unfold path_exists, access_W_OK. run_M.
  destruct (fs w !! path) as [n|] eqn:Hn; simpl.
  - destruct (writable n) eqn:Hwr; simpl; [|intros [=]].
    destruct (fs w !! path_output_dir E path) as [nd|] eqn:Hd; simpl;
      [|intros [=]].
    destruct (writable nd) eqn:Hwd; simpl; [|intros [=]].
    intros [= <-]. split; [done|]. split; [by exists nd|].
    by intros n' [= <-].
  - destruct (fs w !! path_output_dir E path) as [nd|] eqn:Hd; simpl;
      [|intros [=]].
    destruct (writable nd) eqn:Hwd; simpl; [|intros [=]].
    intros [= <-]. split; [done|]. split; [by exists nd|done].
Qed.

(** X20.  When [validate_output_path] returns, the directory of the output
    path exists and is writable, and the output path, if it exists, is
    writable.  Whatever existed before the call is still there, as it was. *)
Theorem validate_output_path_returns (E : Env) (path : string) (w w' : World) :
  validate_output_path E path w = (Return (), w') ->
  fs w ⊆ fs w'
  /\ (exists n, fs w' !! path_output_dir E path = Some n
                /\ writable n = true)
  /\ (forall n, fs w' !! path = Some n -> writable n = true).
Proof.
  unfold validate_output_path. cbv zeta. rewrite bind_run.
  unfold path_exists at 1. rewrite bind_run. simpl. rewrite bind_run.
  destruct (fs w !! path_output_dir E path) as [n|] eqn:Hd; simpl.
  - intros Hchecks. apply output_checks_returns in Hchecks as (-> & ? & ?).
    done.
  - unfold try_catch, os_makedirs.
    destruct (makedirs_ok E (path_output_dir E path)); simpl; [|intros [=]].
    intros Hchecks. apply output_checks_returns in Hchecks as (-> & ? & ?).
    split; [|done]. simpl. by apply insert_subseteq.
Qed.

Lemma validate_output_path_returns_witness :
  exists n,
    fs (validate_output_path (demo_env 0 partial_output) "/new/a.webm"
          demo_world).2 !! "/new" = Some n
    /\ writable n = true.
Proof.
  destruct (validate_output_path_returns (demo_env 0 partial_output)
              "/new/a.webm" demo_world
              (validate_output_path (demo_env 0 partial_output) "/new/a.webm"
                 demo_world).2) as (_ & Hdir & _);
    [vm_compute; reflexivity|exact Hdir].
Defined.

(** ** A call that fails early *)

Lemma compress_validate_files (E : Env) (self : VideoCompressor)
    (input_path output_path preset : string) (codec_arg : option string)
    (preserve_alpha : bool) (w : World) :
  let w1 := (compress_validate E self input_path output_path preset codec_arg
                               preserve_alpha w).2 in
  fs w1 = fs w
  \/ (fs w !! path_output_dir E output_path = None
      /\ fs w1 = <[path_output_dir E output_path :=
                     mkNode false true true 0 true]> (fs w)).
Proof.
  cbv zeta. unfold compress_validate. rewrite bind_run.
  pose proof (validate_input_file_read_only input_path w) as Hw.
  destruct (validate_input_file input_path w) as [[[]|?] w0];
    simpl in Hw; subst w0; [|by left].
  rewrite bind_run.
  pose proof (validate_output_path_files E output_path w) as Hout.
  destruct (validate_output_path E output_path w) as [[[]|?] w2];
    simpl in Hout.
  2: { simpl. destruct Hout as [->|[? ->]]; [by left|by right]. }
  match goal with |- fs (?m w2).2 = _ \/ _ => assert (keeps fs m) as Hk end.
  { repeat first [apply keeps_read_only, compressor_get_preset_read_only
                 | keeps_step]. }
  rewrite Hk. destruct Hout as [->|[? ->]]; [by left|by right].
Qed.

(** X21.  A call of [compress] that fails with another exception than
    [CompressionFailedError] has failed before the encoder: at most one
    process was started, the probe; nothing was handed to the callback and
    the clock was not read; and whatever existed before the call is still
    there, as it was. *)
Theorem compress_early_failure (E : Env) (self : VideoCompressor)
    (input_path output_path preset : string) (codec_arg : option string)
    (preserve_alpha progress_callback : bool) (custom_options : CustomOptions)
    (w w' : World) (e : PyExc) :
  compress E self input_path output_path preset codec_arg preserve_alpha
           progress_callback custom_options w = (Raise e, w') ->
  exc_cls e <> CompressionFailedError ->
  (exists extra, spawned w' = spawned w ++ extra /\ (length extra <= 1)%nat)
  /\ sink w' = sink w /\ ticks w' = ticks w
  /\ fs w ⊆ fs w'.
Proof.
  rewrite compress_run.
  pose proof (compress_validate_keeps_spawned E self input_path output_path
                preset codec_arg preserve_alpha w) as Hspawned.
  pose proof (compress_validate_keeps sink (fun _ _ => eq_refl)
                (fun _ _ => eq_refl) E self input_path output_path preset
                codec_arg preserve_alpha w) as Hsink.
  pose proof (compress_validate_keeps ticks (fun _ _ => eq_refl)
                (fun _ _ => eq_refl) E self input_path output_path preset
                codec_arg preserve_alpha w) as Hticks.
  assert (fs w ⊆ fs (compress_validate E self input_path output_path preset
                       codec_arg preserve_alpha w).2) as Hfiles.
  { destruct (compress_validate_files E self input_path output_path preset
                codec_arg preserve_alpha w) as [->|[? ->]];
      [done|by apply insert_subseteq]. }
  destruct (compress_validate _ _ _ _ _ _ _ w) as [[l|e0] w1];
    simpl in Hspawned, Hsink, Hticks, Hfiles.
  2: { intros [= <- <-] _. split; [|done].
       exists []. rewrite app_nil_r. split; [done|simpl; lia]. }
  destruct (from_file_spawned E input_path w1) as (extra & Hextra & Hlen & _).
  pose proof (from_file_keeps sink (fun _ _ => eq_refl) E input_path w1)
    as Hsink2.
  pose proof (from_file_keeps ticks (fun _ _ => eq_refl) E input_path w1)
    as Hticks2.
  pose proof (from_file_keeps fs (fun _ _ => eq_refl) E input_path w1)
    as Hfs2.
  destruct (from_file E input_path w1) as [[video_info|e0] w2];
    simpl in Hextra, Hsink2, Hticks2, Hfs2.
  2: { intros [= <- <-] _. rewrite Hextra, Hspawned, Hsink2, Hticks2, Hfs2.
       split; [by exists extra|done]. }
  unfold try_catch.
  destruct (compress_try _ _ _ _ _ _ _ _ _ _ w2) as [[r|e0] w3]; [done|].
  intros Hexc Hcls.
  pose proof (compress_except_raises output_path e0 w3) as Hraises.
  rewrite Hexc in Hraises. done.
Qed.

Lemma compress_early_failure_witness :
  sink (compress (demo_env 0 partial_output) demo_compressor "/in/b.mp4"
          "/new/b.webm" "web" None false true no_options demo_world).2 = []
  /\ fs (compress (demo_env 0 partial_output) demo_compressor "/in/b.mp4"
           "/new/b.webm" "web" None false true no_options demo_world).2
     !! "/in/a.mp4" = Some (mkNode true true true 10485760 true).
Proof.
  destruct (compress_early_failure (demo_env 0 partial_output)
              demo_compressor "/in/b.mp4" "/new/b.webm" "web" None false true
              no_options demo_world
              (compress (demo_env 0 partial_output) demo_compressor
                 "/in/b.mp4" "/new/b.webm" "web" None false true no_options
                 demo_world).2
              (mkExc InvalidInputFileError "Input file not found: /in/b.mp4"))
    as (_ & Hsink & _ & Hfiles); [vm_compute; reflexivity|done|].
  split; [exact Hsink|].
  eapply lookup_weaken; [|exact Hfiles]. reflexivity.
Defined.

(** ** What a call writes into the presets *)

Lemma compress_validate_heap (E : Env) (self : VideoCompressor)
    (input_path output_path preset : string) (codec_arg : option string)
    (preserve_alpha : bool) (w : World) :
  let w1 := (compress_validate E self input_path output_path preset codec_arg
                               preserve_alpha w).2 in
  heap w1 = heap w
  \/ exists l c,
       lookup_preset self w preset = Some l
       /\ codec_arg = Some c /\ (c = "vp8" \/ c = "vp9")
       /\ heap w1 = <[l := set_codec (heap w l) c]> (heap w).
Proof.
  cbv zeta. unfold compress_validate. rewrite bind_run.
  pose proof (validate_input_file_read_only input_path w) as Hw.
  destruct (validate_input_file input_path w) as [[[]|?] w0];
    simpl in Hw; subst w0; [|by left].
  rewrite bind_run.
  pose proof (validate_output_path_keeps heap (fun _ _ => eq_refl) E
                output_path w) as Hheap.
  pose proof (validate_output_path_keeps PRESETS (fun _ _ => eq_refl) E
                output_path w) as Hpresets.
  destruct (validate_output_path E output_path w) as [[[]|?] w2];
    simpl in Hheap, Hpresets; [|by left].
  rewrite bind_run.
  pose proof (compressor_get_preset_read_only self preset w2) as Hw2.
  destruct (compressor_get_preset self preset w2) as [[l|?] w3] eqn:Hget;
    simpl in Hw2; subst w3; [|by left].
  apply compressor_get_preset_returns in Hget.
  assert (lookup_preset self w preset = Some l) as Hl.
  { unfold lookup_preset in *. by rewrite <- Hpresets. }
  destruct codec_arg as [c|]; run_M.
  - destruct (bool_decide_reflect (c = "")) as [Hempty|Hempty]; simpl.
    + destruct (_ && _); simpl; by left.
    + destruct (bool_decide_reflect (c = "vp8")) as [H8|H8];
        destruct (bool_decide_reflect (c = "vp9")) as [H9|H9]; simpl;
        try (by left);
        (destruct (_ && _); simpl; right; exists l, c; rewrite Hheap; auto).
  - destruct (_ && _); simpl; by left.
Qed.

(** X22.  All that a call of [compress] can write into the preset objects is
    the codec of the override, into the object that the preset name
    denotes: either every preset object is after the call as it was before,
    or the call had a codec argument [vp8] or [vp9], and exactly the object
    that the name denotes has changed, in its codec.  No other object and no
    other attribute is written, whatever the outcome of the call. *)
Theorem compress_writes_codec_only (E : Env) (self : VideoCompressor)
    (input_path output_path preset : string) (codec_arg : option string)
    (preserve_alpha progress_callback : bool) (custom_options : CustomOptions)
    (w : World) :
  let w' := (compress E self input_path output_path preset codec_arg
                      preserve_alpha progress_callback custom_options w).2 in
  (forall l, heap w' l = heap w l)
  \/ exists l c,
       lookup_preset self w preset = Some l
       /\ codec_arg = Some c /\ (c = "vp8" \/ c = "vp9")
       /\ heap w' l = set_codec (heap w l) c
       /\ forall l', l' <> l -> heap w' l' = heap w l'.
Proof.
  cbv zeta.
  assert (forall l0,
            heap (compress E self input_path output_path preset codec_arg
                    preserve_alpha progress_callback custom_options w).2 l0
            = heap (compress_validate E self input_path output_path preset
                      codec_arg preserve_alpha w).2 l0) as Hafter.
  { intros l0.
    by rewrite (compress_after_validate (fun w => heap w l0)). }
  destruct (compress_validate_heap E self input_path output_path preset
              codec_arg preserve_alpha w) as [Hsame|(l & c & Hl & Hc & Hvp & Hw)].
  - left. intros l. by rewrite Hafter, Hsame.
  - right. exists l, c. repeat split; try done.
    + rewrite Hafter, Hw. apply fn_lookup_insert.
    + intros l' Hne. rewrite Hafter, Hw. by apply fn_lookup_insert_ne.
Qed.
